(** * League-of-graphs backend: the data layer and the statistics updater

    A shallow embedding of package [data] (summoners.go, champions.go, the
    match model and the two statistics updaters that live next to [NewModels])
    together with the properties the specification states about them.

    Conventions of the embedding
    - Go's [int] and [int64] are [Z] with the 64-bit wrap-around written out.
    - Go's [float64] is IEEE-754 binary64, taken from the standard library's
      executable specification ([spec_float] at precision 53, emax 1024).
    - The relational store is a record of finite maps, one per table, keyed
      by the primary key (or by the conflict target of the upsert).
    - Every call into [database/sql] may be failed by the driver (I/O error,
      deadline of the 3 second context, a constraint of the schema).  A
      fault plan [Faults] says which call, counted from the start of the
      operation, fails and with which driver error.
    - A transaction works on a private copy of the store that replaces the
      store on [Commit] and is dropped by the deferred [Rollback]. *)

From Stdlib Require Import ZArith Lia Bool SpecFloat Reals Lra.
From stdpp Require Import gmap strings sorting pretty.

Local Open Scope Z_scope.

(** ** Go integers *)

Module GoInt.

Definition min_int : Z := - 2 ^ 63.
Definition max_int : Z := 2 ^ 63 - 1.

Definition in_range (z : Z) : Prop := min_int <= z <= max_int.

(** Two's-complement wrap-around of a 64-bit signed integer. *)
Definition wrap (z : Z) : Z := (z + 2 ^ 63) mod 2 ^ 64 - 2 ^ 63.

Definition add (a b : Z) : Z := wrap (a + b).
Definition sub (a b : Z) : Z := wrap (a - b).
Definition mul (a b : Z) : Z := wrap (a * b).

(** [a / b]: truncated division; a zero divisor is a run-time panic. *)
Definition quo (a b : Z) : option Z :=
  if b =? 0 then None else Some (wrap (Z.quot a b)).

End GoInt.

(** ** Go float64 *)

Module F64.

Abbreviation float64 := spec_float.

Definition prec : Z := 53.
Definition emax : Z := 1024.

(** Each operation rounds its own result, as the amd64 compiler emits them;
    on the targets where Go fuses [x*y + z] into one rounding the recompute
    of the per-champion and per-role rates may differ in the last bit. *)
Definition mul : float64 -> float64 -> float64 := SFmul prec emax.
Definition add : float64 -> float64 -> float64 := SFadd prec emax.
Definition div : float64 -> float64 -> float64 := SFdiv prec emax.

(** The conversion [float64(n)] of an integer: round to nearest, ties to
    even; zero converts to positive zero. *)
Definition of_int (n : Z) : float64 := binary_normalize prec emax n 0 false.

Definition zero : float64 := S754_zero false.
Definition one : float64 := of_int 1.
Definition two : float64 := of_int 2.
Definition half : float64 := S754_finite false 4503599627370496 (-53).

(** Go's [<=] and [==] on float64. *)
Definition leb : float64 -> float64 -> bool := SFleb.
Definition eqb : float64 -> float64 -> bool := SFeqb.

(** The same float64 value: identical, or equal under [==] (which
    identifies the two zeros). *)
Definition same (x y : float64) : Prop := x = y \/ eqb x y = true.

(** A fraction in the closed interval [0,1]. *)
Definition is_fraction (x : float64) : bool := leb zero x && leb x one.

(** The integer a finite float64 denotes, when it denotes one. *)
Definition to_integer (f : float64) : option Z :=
  match f with
  | S754_zero _ => Some 0
  | S754_finite s m e =>
      let signed (v : Z) := if s then - v else v in
      if 0 <=? e then Some (signed (Zpos m * 2 ^ e))
      else if Zpos m mod 2 ^ (- e) =? 0 then Some (signed (Zpos m / 2 ^ (- e)))
      else None
  | _ => None
  end.

End F64.

Import F64.

(** ** Errors *)

(** The error values of the data layer: the two sentinels of package [data],
    the sentinels of [database/sql], a failed conversion inside [Scan], a
    failed [json.Marshal], an opaque error reported by the driver, an error
    made of a fixed text, and [fmt.Errorf("<prefix>: %v", e)]. *)
Inductive error : Type :=
  | ErrRecordNotFound
  | ErrEditConflict
  | sql_ErrNoRows
  | sql_ErrTxDone
  | ErrConvert
  | ErrMarshal
  | ErrDriver (code : N)
  | ErrMessage (text : string)
  | Errorf (prefix : string) (cause : error).

#[global] Instance error_eq_dec : EqDecision error.
Proof. solve_decision. Defined.

(** What a Go function of result type [error] (or [(A, error)]) does:
    it returns a value, returns an error, or panics. *)
Inductive outcome (A : Type) : Type :=
  | Ret (a : A)
  | Fail (e : error)
  | Panic.
Arguments Ret {A} a.
Arguments Fail {A} e.
Arguments Panic {A}.

(** A fault plan: [F n = Some c] makes the [n]-th call into the driver
    fail with driver error [c]. *)
Definition Faults : Type := nat -> option N.
Definition no_faults : Faults := fun _ => None.

(** ** Scanning a column into a Go variable *)

(** [Scan] of a [float8] column into an [*int]: [database/sql] formats the
    float64 with [strconv.FormatFloat(f, 'g', -1, 64)] and parses the text
    with [strconv.ParseInt].  The shortest 'g' form is a plain run of digits
    exactly for the integers of magnitude below 10^6 (from there on it
    switches to exponent notation), so the conversion succeeds on those and
    fails on every other float64. *)
Definition scan_float8_int (f : float64) : option Z :=
  match to_integer f with
  | Some v => if Z.abs v <? 1000000 then Some v else None
  | None => None
  end.

(** ** Domain structs *)

Record KDA : Type := { Kills : Z; Deaths : Z; Assists : Z }.

(** The slice fields tagged [json:"-"] (match history, per-champion and
    per-role lists, best summoners) are never read or written by the data
    layer and are left out of the structs. *)
Record Summoner : Type := {
  ID : Z;
  Username : string;
  Region : string;
  Rating : Z;
  CountOfPlayedGames : Z;
  WinRate : float64;
  AverageKDA : KDA
}.

Record Champion : Type := {
  champion_ID : Z;
  Name : string;
  MainRole : string;
  Popularity : float64;
  champion_WinRate : float64;
  BanRate : float64
}.

(** [ChampionStats], [RoleStats] and [SummonerChampionStats] carry a played
    count and a win rate next to the champion, role or summoner they are
    about; the updater only touches the count and the rate. *)
Record ChampionStats : Type := {
  CountOfPlayedMatches : Z;
  stats_WinRate : float64
}.

Record RoleStats : Type := {
  role_CountOfPlayedMatches : Z;
  role_WinRate : float64
}.

Record SummonerChampionStats : Type := {
  best_WinRate : float64;
  best_CountOfPlayedMatches : Z
}.

(** ** The store *)

(** Rows of the tables the Go code reads and writes, with the columns its
    SQL names.  [champions.count_of_played_matches] is read and written by
    [UpdateChampionStatistics]. *)
Record summoners_row : Type := {
  username : string;
  region : string;
  rating : Z;
  count_of_played_games : Z;
  win_rate : float64;
  average_kda : KDA
}.

Record champions_row : Type := {
  name : string;
  main_role : string;
  popularity : float64;
  champion_win_rate : float64;
  ban_rate : float64;
  champion_count_of_played_matches : Z
}.

Record stats_row : Type := {
  count_of_played_matches : Z;
  stats_win_rate : float64
}.

(** [played_date] is a [timestamp(0) with time zone]: an instant in whole
    seconds.  The two team columns hold JSON documents. *)
Record matches_row : Type := {
  duration : Z;
  result : string;
  played_date : Z;
  blue_team : string;
  red_team : string
}.

(** The [bigserial] keys come from one sequence per table; [*_id_seq] is the
    value the next INSERT draws. *)
Record DB : Type := {
  summoners : gmap Z summoners_row;
  summoners_id_seq : Z;
  champions : gmap Z champions_row;
  champions_id_seq : Z;
  matches : gmap Z matches_row;
  matches_id_seq : Z;
  summoner_champion_stats : gmap (Z * Z) stats_row;  (* (summoner_id, champion_id) *)
  summoner_role_stats : gmap (Z * string) stats_row;  (* (summoner_id, role) *)
  champion_best_summoners : gmap (Z * Z) stats_row   (* (champion_id, summoner_id) *)
}.

(** ** Calls into database/sql *)

(** The connection as the Go code sees it: the committed store, the private
    copy of an open transaction, and the number of driver calls made so far
    (the index into the fault plan). *)
Record conn : Type := {
  committed : DB;
  pending : option DB;
  calls : nat
}.

(** Go code over a connection: the fault plan is read, the connection is
    threaded, and the code returns, fails or panics. *)
Definition M (A : Type) : Type := Faults -> conn -> outcome A * conn.

Definition ret {A} (a : A) : M A := fun _ c => (Ret a, c).

Definition bind {A B} (m : M A) (k : A -> M B) : M B := fun F c =>
  match m F c with
  | (Ret a, c') => k a F c'
  | (Fail e, c') => (Fail e, c')
  | (Panic, c') => (Panic, c')
  end.

Declare Scope go_scope.
Delimit Scope go_scope with go.
Notation "x <- m ;; k" := (bind m (fun x => k))
  (at level 100, m at next level, right associativity) : go_scope.
Notation "m ;;; k" := (bind m (fun _ => k))
  (at level 100, right associativity) : go_scope.

(** [return err] *)
Definition throw {A} (e : error) : M A := fun _ c => (Fail e, c).

(** A run-time panic (integer division by zero). *)
Definition panic {A} : M A := fun _ c => (Panic, c).

(** [x, err := call; if err != nil { return err }] *)
Definition try {A} (m : M (error + A)) : M A :=
  bind m (fun r => match r with inl e => throw e | inr a => ret a end).

(** [defer f()] around the rest of the function body: [f] runs when the body
    returns, fails or panics, and the body's outcome is the function's. *)
Definition defer {A} (f : M unit) (body : M A) : M A := fun F c =>
  let '(r, c') := body F c in (r, snd (f F c')).

(** One call into the driver: the fault plan may fail it, in which case it
    has no effect on the store. *)
Definition driver_call {A} (run : conn -> (error + A) * conn) : M (error + A) := fun F c =>
  let c1 := {| committed := committed c; pending := pending c; calls := S (calls c) |} in
  match F (calls c) with
  | Some code => (Ret (inl (ErrDriver code)), c1)
  | None => let '(r, c2) := run c1 in (Ret r, c2)
  end.

(** [row.Scan(...)] on the result of a single-row query. *)
Definition scan_row {R A} (row : option R) (scan : R -> option A) : error + A :=
  match row with
  | None => inl sql_ErrNoRows
  | Some r => match scan r with Some a => inr a | None => inl ErrConvert end
  end.

(** [m.DB.QueryRow(query, args...).Scan(...)]: one statement in autocommit
    mode.  [stmt] gives the statement's effect on the store and either the
    error the server raises or the row it returns. *)
Definition DB_QueryRow {R A} (stmt : DB -> DB * (error + option R)) (scan : R -> option A)
    : M (error + A) :=
  driver_call (fun c =>
    let '(d, r) := stmt (committed c) in
    (match r with inl e => inl e | inr row => scan_row row scan end,
     {| committed := d; pending := pending c; calls := calls c |})).

(** [m.DB.QueryRow(query, args...).Err()]: the statement runs, no row is
    scanned, and only a failure of the query itself is reported. *)
Definition DB_QueryRow_Err (stmt : DB -> DB) : M (error + unit) :=
  driver_call (fun c =>
    (inr tt, {| committed := stmt (committed c); pending := pending c; calls := calls c |})).

(** [m.DB.Exec(query, args...)]: the result carries the number of rows
    affected. *)
Definition DB_Exec (stmt : DB -> DB * Z) : M (error + Z) :=
  driver_call (fun c =>
    let '(d, n) := stmt (committed c) in
    (inr n, {| committed := d; pending := pending c; calls := calls c |})).

(** [result.RowsAffected()] *)
Definition RowsAffected (n : Z) : M (error + Z) :=
  driver_call (fun c => (inr n, c)).

(** [m.DB.QueryContext(ctx, query, args...)]: the rows of a SELECT, or the
    error the server raises. *)
Definition DB_Query {R} (select : DB -> error + list R) : M (error + list R) :=
  driver_call (fun c => (select (committed c), c)).

(** The loop over the result,
    [for rows.Next() { var x T; err := rows.Scan(...); if err != nil { return nil, err };
    xs = append(xs, &x) }]. *)
Fixpoint scan_rows {R A} (scan : R -> option A) (rows : list R) (scanned : list A)
    : M (list A) :=
  match rows with
  | [] => ret scanned
  | row :: rest =>
      match scan row with
      | Some a => scan_rows scan rest (scanned ++ [a])
      | None => throw ErrConvert
      end
  end.

(** [rows.Err()]: a failure of the driver that ended the iteration is
    reported here, after the loop. *)
Definition rows_Err : M (error + unit) :=
  driver_call (fun c => (inr tt, c)).

(** [m.DB.BeginTx(ctx, nil)] *)
Definition BeginTx : M (error + unit) :=
  driver_call (fun c =>
    (inr tt, {| committed := committed c; pending := Some (committed c); calls := calls c |})).

(** [tx.QueryRowContext(ctx, query, args...).Scan(...)] for a SELECT. *)
Definition tx_QueryRow {R A} (select : DB -> option R) (scan : R -> option A) : M (error + A) :=
  driver_call (fun c =>
    match pending c with
    | Some d => (scan_row (select d) scan, c)
    | None => (inl sql_ErrTxDone, c)
    end).

(** [tx.ExecContext(ctx, query, args...)] *)
Definition tx_Exec (stmt : DB -> DB) : M (error + unit) :=
  driver_call (fun c =>
    match pending c with
    | Some d => (inr tt, {| committed := committed c; pending := Some (stmt d); calls := calls c |})
    | None => (inl sql_ErrTxDone, c)
    end).

(** [tx.Commit()]: the private copy becomes the store; a failed commit
    leaves the store as it was.  Either way the transaction is over. *)
Definition tx_Commit : M (error + unit) := fun F c =>
  let c1 := {| committed := committed c; pending := None; calls := S (calls c) |} in
  match F (calls c), pending c with
  | Some code, _ => (Ret (inl (ErrDriver code)), c1)
  | None, Some d => (Ret (inr tt), {| committed := d; pending := None; calls := S (calls c) |})
  | None, None => (Ret (inl sql_ErrTxDone), c1)
  end.

(** [tx.Rollback()], whose error the deferred call discards: the private
    copy is dropped (nothing happens after a commit). *)
Definition tx_Rollback : M unit := fun _ c =>
  (Ret tt, {| committed := committed c; pending := None; calls := calls c |}).

(** Running an operation against a store, with no transaction open. *)
Definition run {A} (op : M A) (F : Faults) (d : DB) : outcome A * DB :=
  let '(r, c) := op F {| committed := d; pending := None; calls := 0 |} in
  (r, committed c).

(** ** The statistics updater *)

Local Open Scope go_scope.

(** [avgKDA.X / playedGames] on the three components, in source order. *)
Definition kda_quo (k : KDA) (n : Z) : M KDA :=
  match GoInt.quo (Kills k) n, GoInt.quo (Deaths k) n, GoInt.quo (Assists k) n with
  | Some ki, Some d, Some a => ret {| Kills := ki; Deaths := d; Assists := a |}
  | _, _, _ => panic
  end.

(** The win rate recomputed after [CountOfPlayedMatches++], from the rate
    read and the incremented count [n]. *)
Definition recompute_win_rate (r : float64) (n : Z) (won : bool) : float64 :=
  if won
  then div (add (mul r (of_int (GoInt.sub n 1))) one) (of_int n)
  else div (mul r (of_int (GoInt.sub n 1))) (of_int n).

Definition scan_champion_stats (row : stats_row) : option ChampionStats :=
  Some {| CountOfPlayedMatches := count_of_played_matches row;
          stats_WinRate := stats_win_rate row |}.

Definition scan_role_stats (row : stats_row) : option RoleStats :=
  Some {| role_CountOfPlayedMatches := count_of_played_matches row;
          role_WinRate := stats_win_rate row |}.

(** [if err == sql.ErrNoRows { zero the stats } else if err != nil { return err }] *)
Definition or_no_rows {A} (r : error + A) (zero : A) : M A :=
  match r with
  | inr st => ret st
  | inl e => if decide (e = sql_ErrNoRows) then ret zero else throw e
  end.

(** Field updates of the store. *)
Definition set_summoners (f : gmap Z summoners_row -> gmap Z summoners_row) (d : DB) : DB :=
  {| summoners := f (summoners d); summoners_id_seq := summoners_id_seq d;
     champions := champions d; champions_id_seq := champions_id_seq d;
     matches := matches d; matches_id_seq := matches_id_seq d;
     summoner_champion_stats := summoner_champion_stats d; summoner_role_stats := summoner_role_stats d;
     champion_best_summoners := champion_best_summoners d |}.

Definition set_summoners_id_seq (f : Z -> Z) (d : DB) : DB :=
  {| summoners := summoners d; summoners_id_seq := f (summoners_id_seq d);
     champions := champions d; champions_id_seq := champions_id_seq d;
     matches := matches d; matches_id_seq := matches_id_seq d;
     summoner_champion_stats := summoner_champion_stats d; summoner_role_stats := summoner_role_stats d;
     champion_best_summoners := champion_best_summoners d |}.

Definition set_champions (f : gmap Z champions_row -> gmap Z champions_row) (d : DB) : DB :=
  {| summoners := summoners d; summoners_id_seq := summoners_id_seq d;
     champions := f (champions d); champions_id_seq := champions_id_seq d;
     matches := matches d; matches_id_seq := matches_id_seq d;
     summoner_champion_stats := summoner_champion_stats d; summoner_role_stats := summoner_role_stats d;
     champion_best_summoners := champion_best_summoners d |}.

Definition set_champions_id_seq (f : Z -> Z) (d : DB) : DB :=
  {| summoners := summoners d; summoners_id_seq := summoners_id_seq d;
     champions := champions d; champions_id_seq := f (champions_id_seq d);
     matches := matches d; matches_id_seq := matches_id_seq d;
     summoner_champion_stats := summoner_champion_stats d; summoner_role_stats := summoner_role_stats d;
     champion_best_summoners := champion_best_summoners d |}.

Definition set_matches (f : gmap Z matches_row -> gmap Z matches_row) (d : DB) : DB :=
  {| summoners := summoners d; summoners_id_seq := summoners_id_seq d;
     champions := champions d; champions_id_seq := champions_id_seq d;
     matches := f (matches d); matches_id_seq := matches_id_seq d;
     summoner_champion_stats := summoner_champion_stats d; summoner_role_stats := summoner_role_stats d;
     champion_best_summoners := champion_best_summoners d |}.

Definition set_matches_id_seq (f : Z -> Z) (d : DB) : DB :=
  {| summoners := summoners d; summoners_id_seq := summoners_id_seq d;
     champions := champions d; champions_id_seq := champions_id_seq d;
     matches := matches d; matches_id_seq := f (matches_id_seq d);
     summoner_champion_stats := summoner_champion_stats d; summoner_role_stats := summoner_role_stats d;
     champion_best_summoners := champion_best_summoners d |}.

Definition set_summoner_champion_stats (f : gmap (Z * Z) stats_row -> gmap (Z * Z) stats_row) (d : DB) : DB :=
  {| summoners := summoners d; summoners_id_seq := summoners_id_seq d;
     champions := champions d; champions_id_seq := champions_id_seq d;
     matches := matches d; matches_id_seq := matches_id_seq d;
     summoner_champion_stats := f (summoner_champion_stats d); summoner_role_stats := summoner_role_stats d;
     champion_best_summoners := champion_best_summoners d |}.

Definition set_summoner_role_stats (f : gmap (Z * string) stats_row -> gmap (Z * string) stats_row) (d : DB) : DB :=
  {| summoners := summoners d; summoners_id_seq := summoners_id_seq d;
     champions := champions d; champions_id_seq := champions_id_seq d;
     matches := matches d; matches_id_seq := matches_id_seq d;
     summoner_champion_stats := summoner_champion_stats d; summoner_role_stats := f (summoner_role_stats d);
     champion_best_summoners := champion_best_summoners d |}.

Definition set_champion_best_summoners (f : gmap (Z * Z) stats_row -> gmap (Z * Z) stats_row) (d : DB) : DB :=
  {| summoners := summoners d; summoners_id_seq := summoners_id_seq d;
     champions := champions d; champions_id_seq := champions_id_seq d;
     matches := matches d; matches_id_seq := matches_id_seq d;
     summoner_champion_stats := summoner_champion_stats d; summoner_role_stats := summoner_role_stats d;
     champion_best_summoners := f (champion_best_summoners d) |}.

Definition stats (count : Z) (rate : float64) : stats_row :=
  {| count_of_played_matches := count; stats_win_rate := rate |}.

(** What the first SELECT of [UpdateSummonerStatistics] scans:
    [Scan(&playedGames, &wins, &avgKDA)] on the columns
    [count_of_played_games, win_rate, average_kda]; the second destination
    is an [int]. *)
Definition scan_summoner_counts (row : summoners_row) : option (Z * Z * KDA) :=
  match scan_float8_int (win_rate row) with
  | Some wins => Some (count_of_played_games row, wins, average_kda row)
  | None => None
  end.

Definition UpdateSummonerStatistics
    (summonerID : Z) (champion : Champion) (kda : KDA) (role : string) (won : bool) : M unit :=
  try BeginTx ;;;
  defer tx_Rollback (
    (* Update summoner's count of played games and win rate *)
    read <- try (tx_QueryRow (fun d => summoners d !! summonerID) scan_summoner_counts) ;;
    let '(playedGames, wins, avgKDA) := read in
    let playedGames := GoInt.add playedGames 1 in
    let wins := if won then GoInt.add wins 1 else wins in
    let winRate := div (of_int wins) (of_int playedGames) in
    (* Update average KDA *)
    let avgKDA := {| Kills := GoInt.add (Kills avgKDA) (Kills kda);
                     Deaths := GoInt.add (Deaths avgKDA) (Deaths kda);
                     Assists := GoInt.add (Assists avgKDA) (Assists kda) |} in
    averageKDA <- kda_quo avgKDA playedGames ;;
    (* Update summoner's frequently played champions *)
    r <- tx_QueryRow (fun d => summoner_champion_stats d !! (summonerID, champion_ID champion))
                     scan_champion_stats ;;
    championStats <- or_no_rows r {| CountOfPlayedMatches := 0; stats_WinRate := zero |} ;;
    let count := GoInt.add (CountOfPlayedMatches championStats) 1 in
    let championStats :=
      {| CountOfPlayedMatches := count;
         stats_WinRate := recompute_win_rate (stats_WinRate championStats) count won |} in
    (* Upsert the champion stats *)
    try (tx_Exec (set_summoner_champion_stats
           <[(summonerID, champion_ID champion) :=
               stats (CountOfPlayedMatches championStats) (stats_WinRate championStats)]>)) ;;;
    (* Update summoner's frequently played roles *)
    r <- tx_QueryRow (fun d => summoner_role_stats d !! (summonerID, role)) scan_role_stats ;;
    roleStats <- or_no_rows r {| role_CountOfPlayedMatches := 0; role_WinRate := zero |} ;;
    let count := GoInt.add (role_CountOfPlayedMatches roleStats) 1 in
    let roleStats :=
      {| role_CountOfPlayedMatches := count;
         role_WinRate := recompute_win_rate (role_WinRate roleStats) count won |} in
    (* Upsert the role stats *)
    try (tx_Exec (set_summoner_role_stats
           <[(summonerID, role) :=
               stats (role_CountOfPlayedMatches roleStats) (role_WinRate roleStats)]>)) ;;;
    (* Update the summoner's overall statistics *)
    try (tx_Exec (set_summoners (alter (fun row =>
           {| username := username row; region := region row; rating := rating row;
              count_of_played_games := playedGames;
              win_rate := winRate;
              average_kda := averageKDA |}) summonerID))) ;;;
    try tx_Commit).

(** What the first SELECT of [UpdateChampionStatistics] scans:
    [Scan(&matchHistoryCount, &wins)] on [count_of_played_matches, win_rate],
    both destinations of type [int]. *)
Definition scan_champion_counts (row : champions_row) : option (Z * Z) :=
  match scan_float8_int (champion_win_rate row) with
  | Some wins => Some (champion_count_of_played_matches row, wins)
  | None => None
  end.

(** [SELECT COUNT(DISTINCT summoner_id) FROM summoner_champion_stats
    WHERE champion_id = $1]: an aggregate always returns its one row. *)
Definition count_distinct_summoners (championID : Z) (d : DB) : option Z :=
  Some (Z.of_nat (size (filter (fun kv => snd (fst kv) = championID)
                               (summoner_champion_stats d)))).

Definition scan_best_summoner (row : stats_row) : option SummonerChampionStats :=
  Some {| best_WinRate := stats_win_rate row;
          best_CountOfPlayedMatches := count_of_played_matches row |}.

(** UpdateChampionStatistics updates the statistics of a champion based on
    the match result. *)
Definition UpdateChampionStatistics (championID summonerID : Z) (won : bool) : M unit :=
  try BeginTx ;;;
  defer tx_Rollback (
    (* Update champion's match history and win rate *)
    read <- try (tx_QueryRow (fun d => champions d !! championID) scan_champion_counts) ;;
    let '(matchHistoryCount, wins) := read in
    let matchHistoryCount := GoInt.add matchHistoryCount 1 in
    let wins := if won then GoInt.add wins 1 else wins in
    let winRate := div (of_int wins) (of_int matchHistoryCount) in
    (* Update champion's popularity *)
    summonerCount <- try (tx_QueryRow (count_distinct_summoners championID) Some) ;;
    let popularity := of_int summonerCount in
    (* Update the champion's overall statistics *)
    try (tx_Exec (set_champions (alter (fun row =>
           {| name := name row; main_role := main_role row;
              popularity := popularity;
              champion_win_rate := winRate;
              ban_rate := ban_rate row;
              champion_count_of_played_matches := matchHistoryCount |}) championID))) ;;;
    (* Update best summoners *)
    summonerStats <- try (tx_QueryRow
        (fun d => summoner_champion_stats d !! (summonerID, championID)) scan_best_summoner) ;;
    (* Upsert the best summoners stats *)
    try (tx_Exec (set_champion_best_summoners
           <[(championID, summonerID) :=
               stats (best_CountOfPlayedMatches summonerStats) (best_WinRate summonerStats)]>)) ;;;
    try tx_Commit).

(** ** Validation *)

Module validator.

(** Modelled from the spec: package [internal/validator] is not among the
    sources.  A validator collects field-level errors into a structured
    error set, and the object is acceptable when the set is empty;
    [Check] records the error when its condition does not hold. *)
Record Validator : Type := { Errors : gset (string * string) }.

Definition New : Validator := {| Errors := ∅ |}.

Definition Valid (v : Validator) : bool := bool_decide (Errors v = ∅).

Definition AddError (v : Validator) (key message : string) : Validator :=
  {| Errors := {[ (key, message) ]} ∪ Errors v |}.

Definition Check (v : Validator) (ok : bool) (key message : string) : Validator :=
  if ok then v else AddError v key message.

End validator.

Import validator.

(** [s != t] on strings. *)
Definition string_neq (s t : string) : bool := negb (String.eqb s t).

Definition ValidateSummoner (v : Validator) (summoner : Summoner) : Validator :=
  let v := Check v (string_neq (Username summoner) "") "username" "must be provided" in
  Check v (string_neq (Region summoner) "") "region" "must be provided".

Definition ValidateChampion (v : Validator) (champion : Champion) : Validator :=
  let v := Check v (string_neq (Name champion) "") "name" "must be provided" in
  let v := Check v (string_neq (MainRole champion) "") "main_role" "must be provided" in
  Check v (string_neq (Name champion) "Champion") "name"
        "must be different from the name of the champion".

(** ** The record store *)

(** [unique_violation], the error of an INSERT whose key is taken. *)
Definition unique_violation : error := ErrDriver 23505.

(** [not_null_violation], the error of writing NULL to a NOT NULL column. *)
Definition not_null_violation : error := ErrDriver 23502.

(** [errors.Is(err, target)]: none of the errors built here wraps another
    ([%v] does not wrap), so it is equality. *)
Definition errors_Is (err target : error) : bool := bool_decide (err = target).

(** ** Listing *)

(** [Filters] is declared in a file that is not among the sources; its fields
    are the four the list handlers assign, two of which [limit] and [offset]
    read. *)
Record Filters : Type := {
  Page : Z;
  PageSize : Z;
  Sort : string;
  SortSafelist : list string
}.

Definition limit (f : Filters) : Z := PageSize f.

Definition offset (f : Filters) : Z := GoInt.mul (GoInt.sub (Page f) 1) (PageSize f).

(** [a] comes no later than [b] under [ORDER BY <term> <direction>, id ASC],
    where [le] is the order the server gives the term and direction: rows
    that tie on the term are in ascending order of id. *)
Definition no_later {R} (le : Z * R -> Z * R -> bool) (a b : Z * R) : bool :=
  if le a b then (if le b a then fst a <=? fst b else true) else false.

(** [SELECT ... FROM table WHERE ... ORDER BY <term> <direction>, id ASC
    LIMIT $n OFFSET $m].  [order] is what the server makes of the ORDER BY
    term: an error, or an order of the rows.  A negative OFFSET or LIMIT is
    an error of the server. *)
Definition select_page {R} (where_ : Z * R -> bool)
    (order : error + (Z * R -> Z * R -> bool)) (limit offset : Z) (table : gmap Z R)
    : error + list (Z * R) :=
  match order with
  | inl err => inl err
  | inr le =>
      if offset <? 0 then inl (ErrMessage "pq: OFFSET must not be negative")
      else if limit <? 0 then inl (ErrMessage "pq: LIMIT must not be negative")
      else
        let rows := List.filter where_ (map_to_list table) in
        let rows := merge_sort (fun a b => Is_true (no_later le a b)) rows in
        inr (take (Z.to_nat limit) (drop (Z.to_nat offset) rows))
  end.

(** [LOWER(column) = LOWER($n) OR $n = ''] *)
Definition matches_filter (LOWER : string -> string) (column arg : string) : bool :=
  String.eqb (LOWER column) (LOWER arg) || String.eqb arg "".

Module SummonerModel.

(** [INSERT INTO summoners (username, region, rating, count_of_played_games,
    win_rate, average_kda) VALUES ($1, ..., $6) RETURNING id] *)
Definition insert_returning_id (row : summoners_row) (d : DB) : DB * (error + option Z) :=
  let id := summoners_id_seq d in
  let d := set_summoners_id_seq (fun _ => id + 1) d in
  match summoners d !! id with
  | Some _ => (d, inl unique_violation)
  | None => (set_summoners <[id := row]> d, inr (Some id))
  end.

Definition Insert (summoner : Summoner) : M Summoner :=
  (* Define default average KDA; marshalling three integers cannot fail *)
  let averageKDA := {| Kills := 0; Deaths := 0; Assists := 0 |} in
  (* Execute the insert query *)
  r <- DB_QueryRow
         (insert_returning_id
            {| username := Username summoner; region := Region summoner;
               rating := 0; count_of_played_games := 0; win_rate := of_int 0;
               average_kda := averageKDA |})
         Some ;;
  match r with
  | inl err =>
      if decide (err = sql_ErrNoRows)
      then throw (ErrMessage "Insert: no rows were returned by the query")
      else throw (Errorf "Insert" err)
  | inr id =>
      ret {| ID := id; Username := Username summoner; Region := Region summoner;
             Rating := Rating summoner; CountOfPlayedGames := CountOfPlayedGames summoner;
             WinRate := WinRate summoner; AverageKDA := AverageKDA summoner |}
  end.

Definition scan_summoner (id : Z) (row : summoners_row) : option Summoner :=
  Some {| ID := id; Username := username row; Region := region row;
          Rating := rating row; CountOfPlayedGames := count_of_played_games row;
          WinRate := win_rate row; AverageKDA := average_kda row |}.

Definition Get (id : Z) : M Summoner :=
  if id <? 1 then throw ErrRecordNotFound
  else
    r <- DB_QueryRow (fun d => (d, inr (summoners d !! id))) (scan_summoner id) ;;
    match r with
    | inl err =>
        if errors_Is err sql_ErrNoRows then throw ErrRecordNotFound
        else throw (Errorf "Get" err)
    | inr summoner => ret summoner
    end.

Definition Update (summoner : Summoner) : M unit :=
  try (DB_QueryRow_Err (set_summoners (alter (fun _ =>
         {| username := Username summoner; region := Region summoner;
            rating := Rating summoner;
            count_of_played_games := CountOfPlayedGames summoner;
            win_rate := WinRate summoner;
            average_kda := AverageKDA summoner |}) (ID summoner)))).

Definition delete_row (id : Z) (d : DB) : DB * Z :=
  match summoners d !! id with
  | Some _ => (set_summoners (delete id) d, 1)
  | None => (d, 0)
  end.

Definition Delete (id : Z) : M unit :=
  if id <? 1 then throw ErrRecordNotFound
  else
    result <- try (DB_Exec (delete_row id)) ;;
    rowsAffected <- try (RowsAffected result) ;;
    if rowsAffected =? 0 then throw ErrRecordNotFound else ret tt.

Section Listing.

(** [GetAll] takes from outside the sources the two methods of [Filters]
    that give the ORDER BY term and its direction (a Go function returns its
    string or panics), the server's [LOWER], and what the server makes of
    [ORDER BY <term> <direction>] on this table. *)
Variable sortColumn : Filters -> option string.
Variable sortDirection : Filters -> option string.
Variable LOWER : string -> string.
Variable ORDER_BY :
  string -> string -> error + (Z * summoners_row -> Z * summoners_row -> bool).

Definition GetAll (username' region' : string) (filters : Filters) : M (list Summoner) :=
  match sortColumn filters, sortDirection filters with
  | Some column, Some direction =>
      rows <- try (DB_Query (fun d =>
                select_page
                  (fun r => matches_filter LOWER (username (snd r)) username' &&
                            matches_filter LOWER (region (snd r)) region')
                  (ORDER_BY column direction) (limit filters) (offset filters)
                  (summoners d))) ;;
      summoners <- scan_rows (fun r => scan_summoner (fst r) (snd r)) rows [] ;;
      try rows_Err ;;;
      ret summoners
  | _, _ => panic
  end.

End Listing.

End SummonerModel.

Module ChampionModel.

(** [INSERT INTO champions (name, main_role) VALUES ($1, $2)
    RETURNING id, popularity, win_rate, ban_rate].  The three rates take
    the column default 0; the default of [count_of_played_matches] is not
    fixed by the sources and is the parameter [count_default]. *)
Definition insert_returning (count_default : Z) (n r : string) (d : DB)
    : DB * (error + option (Z * champions_row)) :=
  let id := champions_id_seq d in
  let d := set_champions_id_seq (fun _ => id + 1) d in
  let row := {| name := n; main_role := r; popularity := zero;
                champion_win_rate := zero; ban_rate := zero;
                champion_count_of_played_matches := count_default |} in
  match champions d !! id with
  | Some _ => (d, inl unique_violation)
  | None => (set_champions <[id := row]> d, inr (Some (id, row)))
  end.

Definition Insert (count_default : Z) (champion : Champion) : M Champion :=
  try (DB_QueryRow
         (insert_returning count_default (Name champion) (MainRole champion))
         (fun '(id, row) =>
            Some {| champion_ID := id; Name := Name champion;
                    MainRole := MainRole champion;
                    Popularity := popularity row;
                    champion_WinRate := champion_win_rate row;
                    BanRate := ban_rate row |})).

Definition scan_champion (id : Z) (row : champions_row) : option Champion :=
  Some {| champion_ID := id; Name := name row; MainRole := main_role row;
          Popularity := popularity row; champion_WinRate := champion_win_rate row;
          BanRate := ban_rate row |}.

Definition Get (id : Z) : M Champion :=
  if id <? 1 then throw ErrRecordNotFound
  else
    r <- DB_QueryRow (fun d => (d, inr (champions d !! id))) (scan_champion id) ;;
    match r with
    | inl err =>
        if errors_Is err sql_ErrNoRows then throw ErrRecordNotFound else throw err
    | inr champion => ret champion
    end.

Definition Update (champion : Champion) : M unit :=
  try (DB_QueryRow_Err (set_champions (alter (fun row =>
         {| name := Name champion; main_role := MainRole champion;
            popularity := popularity row;
            champion_win_rate := champion_win_rate row;
            ban_rate := ban_rate row;
            champion_count_of_played_matches := champion_count_of_played_matches row |})
         (champion_ID champion)))).

Definition delete_row (id : Z) (d : DB) : DB * Z :=
  match champions d !! id with
  | Some _ => (set_champions (delete id) d, 1)
  | None => (d, 0)
  end.

Definition Delete (id : Z) : M unit :=
  if id <? 1 then throw ErrRecordNotFound
  else
    result <- try (DB_Exec (delete_row id)) ;;
    rowsAffected <- try (RowsAffected result) ;;
    if rowsAffected =? 0 then throw ErrRecordNotFound else ret tt.

Section Listing.

Variable sortColumn : Filters -> option string.
Variable sortDirection : Filters -> option string.
Variable LOWER : string -> string.
Variable ORDER_BY :
  string -> string -> error + (Z * champions_row -> Z * champions_row -> bool).

(** The two filters are named [username] and [region] in the source and
    are compared with the columns [name] and [main_role]. *)
Definition GetAll (username region : string) (filters : Filters) : M (list Champion) :=
  match sortColumn filters, sortDirection filters with
  | Some column, Some direction =>
      rows <- try (DB_Query (fun d =>
                select_page
                  (fun r => matches_filter LOWER (name (snd r)) username &&
                            matches_filter LOWER (main_role (snd r)) region)
                  (ORDER_BY column direction) (limit filters) (offset filters)
                  (champions d))) ;;
      champions <- scan_rows (fun r => scan_champion (fst r) (snd r)) rows [] ;;
      try rows_Err ;;;
      ret champions
  | _, _ => panic
  end.

End Listing.

End ChampionModel.

Module MatchModel.

Section WithCodecs.

(** [time.Time] and [Team] (with its nested performances and banned
    champions) are kept abstract, with the conversions at the store
    boundary: the instant a [time.Time] becomes in a [timestamp(0)]
    column and the [time.Time] the driver makes of it, [json.Marshal]
    of a [*Team] and [json.Unmarshal] into a fresh [Team]. *)
Context {Time Team : Type}.
Variable to_timestamp : Time -> Z.
Variable of_timestamp : Z -> Time.
Variable json_Marshal : option Team -> option string.
Variable json_Unmarshal : string -> option Team.

Record Match : Type := {
  match_ID : Z;
  PlayedDate : Time;
  Duration : Z;
  Result : string;
  BlueTeam : option Team;
  RedTeam : option Team
}.

Definition ValidateMatch (v : Validator) (m : Match) : Validator :=
  let v := Check v (string_neq (Result m) "") "result" "must be provided" in
  let v := Check v (0 <? Duration m) "duration" "must be provided" in
  let v := Check v (bool_decide (is_Some (BlueTeam m))) "blue_team" "must be provided" in
  Check v (bool_decide (is_Some (RedTeam m))) "red_team" "must be provided".

(** [INSERT INTO matches (duration, result, played_date, blue_team,
    red_team) VALUES ($1, ..., $5) RETURNING id] *)
Definition insert_returning_id (row : matches_row) (d : DB) : DB * (error + option Z) :=
  let id := matches_id_seq d in
  let d := set_matches_id_seq (fun _ => id + 1) d in
  match matches d !! id with
  | Some _ => (d, inl unique_violation)
  | None => (set_matches <[id := row]> d, inr (Some id))
  end.

Definition Insert (m : Match) : M Match :=
  match json_Marshal (BlueTeam m) with
  | None => throw (Errorf "Insert" ErrMarshal)
  | Some blueTeamJSON =>
      match json_Marshal (RedTeam m) with
      | None => throw (Errorf "Insert" ErrMarshal)
      | Some redTeamJSON =>
          id <- try (DB_QueryRow
                       (insert_returning_id
                          {| duration := Duration m; result := Result m;
                             played_date := to_timestamp (PlayedDate m);
                             blue_team := blueTeamJSON; red_team := redTeamJSON |})
                       Some) ;;
          ret {| match_ID := id; PlayedDate := PlayedDate m; Duration := Duration m;
                 Result := Result m; BlueTeam := BlueTeam m; RedTeam := RedTeam m |}
      end
  end.

(** [Scan] into [&match.BlueTeam], a [**Team]: a fresh [Team] is
    allocated and [Team.Scan] unmarshals the document into it. *)
Definition scan_match (id : Z) (row : matches_row) : option Match :=
  match json_Unmarshal (blue_team row), json_Unmarshal (red_team row) with
  | Some blue, Some red =>
      Some {| match_ID := id; PlayedDate := of_timestamp (played_date row);
              Duration := duration row; Result := result row;
              BlueTeam := Some blue; RedTeam := Some red |}
  | _, _ => None
  end.

Definition Get (id : Z) : M Match :=
  if id <? 1 then throw ErrRecordNotFound
  else
    r <- DB_QueryRow (fun d => (d, inr (matches d !! id))) (scan_match id) ;;
    match r with
    | inl err =>
        if errors_Is err sql_ErrNoRows then throw ErrRecordNotFound else throw err
    | inr m => ret m
    end.

(** The two team arguments go through [Team.Value], [json.Marshal] of
    the struct; a nil pointer is sent as NULL, which the NOT NULL
    columns refuse. *)
Definition team_Value (t : option Team) : error + string :=
  match t with
  | None => inl not_null_violation
  | Some _ => match json_Marshal t with Some j => inr j | None => inl ErrMarshal end
  end.

Definition Update (m : Match) : M unit :=
  match team_Value (BlueTeam m), team_Value (RedTeam m) with
  | inr blue, inr red =>
      try (DB_QueryRow_Err (set_matches (alter (fun _ =>
             {| duration := Duration m; result := Result m;
                played_date := to_timestamp (PlayedDate m);
                blue_team := blue; red_team := red |}) (match_ID m))))
  | inl err, _ => throw err
  | _, inl err => throw err
  end.

Definition delete_row (id : Z) (d : DB) : DB * Z :=
  match matches d !! id with
  | Some _ => (set_matches (delete id) d, 1)
  | None => (d, 0)
  end.

Definition Delete (id : Z) : M unit :=
  if id <? 1 then throw ErrRecordNotFound
  else
    result <- try (DB_Exec (delete_row id)) ;;
    rowsAffected <- try (RowsAffected result) ;;
    if rowsAffected =? 0 then throw ErrRecordNotFound else ret tt.

Variable sortColumn : Filters -> option string.
Variable sortDirection : Filters -> option string.
Variable ORDER_BY :
  string -> string -> error + (Z * matches_row -> Z * matches_row -> bool).

Definition GetAll (filters : Filters) : M (list Match) :=
  match sortColumn filters, sortDirection filters with
  | Some column, Some direction =>
      rows <- try (DB_Query (fun d =>
                select_page (fun _ => true) (ORDER_BY column direction)
                  (limit filters) (offset filters) (matches d))) ;;
      matches <- scan_rows (fun r => scan_match (fst r) (snd r)) rows [] ;;
      try rows_Err ;;;
      ret matches
  | _, _ => panic
  end.

End WithCodecs.

End MatchModel.

(** ** The HTTP handlers *)

Module application.

(** The helpers of the application ([readIDParam], [readJSON], [writeJSON]
    and the error responders) are not among the sources.  A handler is
    modelled by what it does with them: what [readIDParam], [readJSON] and
    [writeJSON] return are arguments of the handler, and the handler's
    result is the list of the responses it asks for, in order.  [writeJSON]
    is given the status, the one key of the envelope with its value (a
    record or a text) and the headers. *)
Inductive response {A : Type} : Type :=
  | notFoundResponse
  | badRequestResponse (err : error)
  | failedValidationResponse (errors : gset (string * string))
  | serverErrorResponse (err : error)
  | writeJSON (status : Z) (key : string) (data : A + string)
              (headers : list (string * string)).

Definition StatusOK : Z := 200.
Definition StatusCreated : Z := 201.

(** [x, err := call(); if err != nil { ... }] on a call into the data
    layer: its error is a value the handler branches on. *)
Definition catch {A} (m : M A) : M (error + A) := fun F c =>
  match m F c with
  | (Ret a, c') => (Ret (inr a), c')
  | (Fail e, c') => (Ret (inl e), c')
  | (Panic, c') => (Panic, c')
  end.

(** [err = app.writeJSON(w, status, envelope{key: data}, headers);
    if err != nil { app.serverErrorResponse(w, r, err) }] *)
Definition send {A} (written : option error) (status : Z) (key : string) (data : A + string)
    (headers : list (string * string)) : M (list (@response A)) :=
  match written with
  | None => ret [writeJSON status key data headers]
  | Some err => ret [writeJSON status key data headers; serverErrorResponse err]
  end.

(** [switch { case errors.Is(err, data.ErrRecordNotFound): app.notFoundResponse(w, r);
    default: app.serverErrorResponse(w, r, err) }] *)
Definition not_found_or_server_error {A} (err : error) : M (list (@response A)) :=
  if errors_Is err ErrRecordNotFound then ret [notFoundResponse]
  else ret [serverErrorResponse err].

(** *** Summoners *)

Record summoner_input : Type := { input_Username : string; input_Region : string }.

Definition createSummonerHandler (decoded : error + summoner_input) (written : option error)
    : M (list (@response Summoner)) :=
  match decoded with
  | inl err => ret [badRequestResponse err]
  | inr input =>
      (* Copy the values from the input struct to a new Summoner struct. *)
      let summoner :=
        {| ID := 0; Username := input_Username input; Region := input_Region input;
           Rating := 0; CountOfPlayedGames := 0; WinRate := zero;
           AverageKDA := {| Kills := 0; Deaths := 0; Assists := 0 |} |} in
      (* Initialize a new Validator. *)
      let v := ValidateSummoner validator.New summoner in
      if negb (Valid v) then ret [failedValidationResponse (Errors v)]
      else
        r <- catch (SummonerModel.Insert summoner) ;;
        match r with
        | inl err => ret [serverErrorResponse err]
        | inr summoner =>
            let headers := [("Location", "/v1/summoners/" +:+ pretty (ID summoner))] in
            send written StatusCreated "summoner" (inl summoner) headers
        end
  end.

Definition showSummonerHandler (param : error + Z) (written : option error)
    : M (list (@response Summoner)) :=
  match param with
  | inl _ => ret [notFoundResponse]
  | inr id =>
      r <- catch (SummonerModel.Get id) ;;
      match r with
      | inl err => not_found_or_server_error err
      | inr summoner => send written StatusOK "summoner" (inl summoner) []
      end
  end.

Definition updateSummonerHandler (param : error + Z) (decoded : error + summoner_input)
    (written : option error) : M (list (@response Summoner)) :=
  match param with
  | inl _ => ret [notFoundResponse]
  | inr id =>
      r <- catch (SummonerModel.Get id) ;;
      match r with
      | inl err => not_found_or_server_error err
      | inr summoner =>
          match decoded with
          | inl err => ret [badRequestResponse err]
          | inr input =>
              let summoner :=
                {| ID := ID summoner; Username := input_Username input;
                   Region := input_Region input; Rating := Rating summoner;
                   CountOfPlayedGames := CountOfPlayedGames summoner;
                   WinRate := WinRate summoner; AverageKDA := AverageKDA summoner |} in
              let v := ValidateSummoner validator.New summoner in
              if negb (Valid v) then ret [failedValidationResponse (Errors v)]
              else
                r <- catch (SummonerModel.Update summoner) ;;
                match r with
                | inl err => ret [serverErrorResponse err]
                | inr _ => send written StatusOK "summoner" (inl summoner) []
                end
          end
      end
  end.

Definition deleteSummonerHandler (param : error + Z) (written : option error)
    : M (list (@response Summoner)) :=
  match param with
  | inl _ => ret [notFoundResponse]
  | inr id =>
      r <- catch (SummonerModel.Delete id) ;;
      match r with
      | inl err => not_found_or_server_error err
      | inr _ => send written StatusOK "message" (inr "summoner successfully deleted") []
      end
  end.

(** *** A request served in between

    The handlers do not open a transaction: each statement of a handler is
    committed by itself, and the server runs every request in a goroutine of
    its own.  Between two statements of one handler the store can therefore
    be changed by another request, served on a connection of its own. *)

(** Another request, served to its end on its own connection: what it
    commits is in the store, and its outcome is its own. *)
Definition meanwhile (other : M unit) : M unit := fun F c =>
  let '(_, c') := other F {| committed := committed c; pending := None; calls := calls c |} in
  (Ret tt, {| committed := committed c'; pending := pending c; calls := calls c' |}).

(** [updateSummonerHandler] with another request served after its [Get]
    (line 97) and before its [Update] (line 129). *)
Definition updateSummonerHandler_meanwhile (other : M unit) (param : error + Z)
    (decoded : error + summoner_input) (written : option error)
    : M (list (@response Summoner)) :=
  match param with
  | inl _ => ret [notFoundResponse]
  | inr id =>
      r <- catch (SummonerModel.Get id) ;;
      match r with
      | inl err => not_found_or_server_error err
      | inr summoner =>
          meanwhile other ;;;
          match decoded with
          | inl err => ret [badRequestResponse err]
          | inr input =>
              let summoner :=
                {| ID := ID summoner; Username := input_Username input;
                   Region := input_Region input; Rating := Rating summoner;
                   CountOfPlayedGames := CountOfPlayedGames summoner;
                   WinRate := WinRate summoner; AverageKDA := AverageKDA summoner |} in
              let v := ValidateSummoner validator.New summoner in
              if negb (Valid v) then ret [failedValidationResponse (Errors v)]
              else
                r <- catch (SummonerModel.Update summoner) ;;
                match r with
                | inl err => ret [serverErrorResponse err]
                | inr _ => send written StatusOK "summoner" (inl summoner) []
                end
          end
      end
  end.

(** *** Champions *)

Record champion_input : Type := { input_Name : string; input_MainRole : string }.

Section ChampionHandlers.

(** The default of [champions.count_of_played_matches], as for
    [ChampionModel.Insert]. *)
Variable count_default : Z.

Definition createChampionHandler (decoded : error + champion_input) (written : option error)
    : M (list (@response Champion)) :=
  match decoded with
  | inl err => ret [badRequestResponse err]
  | inr input =>
      let champion :=
        {| champion_ID := 0; Name := input_Name input; MainRole := input_MainRole input;
           Popularity := zero; champion_WinRate := zero; BanRate := zero |} in
      let v := ValidateChampion validator.New champion in
      if negb (Valid v) then ret [failedValidationResponse (Errors v)]
      else
        r <- catch (ChampionModel.Insert count_default champion) ;;
        match r with
        | inl err => ret [serverErrorResponse err]
        | inr champion =>
            let headers :=
              [("Location", "/v1/champions/" +:+ pretty (champion_ID champion))] in
            send written StatusCreated "champion" (inl champion) headers
        end
  end.

End ChampionHandlers.

Definition showChampionHandler (param : error + Z) (written : option error)
    : M (list (@response Champion)) :=
  match param with
  | inl _ => ret [notFoundResponse]
  | inr id =>
      r <- catch (ChampionModel.Get id) ;;
      match r with
      | inl err => not_found_or_server_error err
      | inr champion => send written StatusOK "champion" (inl champion) []
      end
  end.

Definition updateChampionHandler (param : error + Z) (decoded : error + champion_input)
    (written : option error) : M (list (@response Champion)) :=
  match param with
  | inl _ => ret [notFoundResponse]
  | inr id =>
      r <- catch (ChampionModel.Get id) ;;
      match r with
      | inl err => not_found_or_server_error err
      | inr champion =>
          match decoded with
          | inl err => ret [badRequestResponse err]
          | inr input =>
              let champion :=
                {| champion_ID := champion_ID champion; Name := input_Name input;
                   MainRole := input_MainRole input; Popularity := Popularity champion;
                   champion_WinRate := champion_WinRate champion;
                   BanRate := BanRate champion |} in
              let v := ValidateChampion validator.New champion in
              if negb (Valid v) then ret [failedValidationResponse (Errors v)]
              else
                r <- catch (ChampionModel.Update champion) ;;
                match r with
                | inl err => ret [serverErrorResponse err]
                | inr _ => send written StatusOK "champion" (inl champion) []
                end
          end
      end
  end.

Definition deleteChampionHandler (param : error + Z) (written : option error)
    : M (list (@response Champion)) :=
  match param with
  | inl _ => ret [notFoundResponse]
  | inr id =>
      r <- catch (ChampionModel.Delete id) ;;
      match r with
      | inl err => not_found_or_server_error err
      | inr _ => send written StatusOK "message" (inr "Champion successfully deleted") []
      end
  end.

(** *** Matches *)

Section MatchHandlers.

Context {Time Team : Type}.
Variable to_timestamp : Time -> Z.
Variable of_timestamp : Z -> Time.
Variable json_Marshal : option Team -> option string.
Variable json_Unmarshal : string -> option Team.

(** The body of a match request holds the two teams by value. *)
Record match_input : Type := {
  input_Duration : Z;
  input_Result : string;
  input_PlayedDate : Time;
  input_BlueTeam : Team;
  input_RedTeam : Team
}.

Definition createMatchHandler (decoded : error + match_input) (written : option error)
    : M (list (@response (@MatchModel.Match Time Team))) :=
  match decoded with
  | inl err => ret [badRequestResponse err]
  | inr input =>
      let m :=
        {| MatchModel.match_ID := 0;
           MatchModel.PlayedDate := input_PlayedDate input;
           MatchModel.Duration := input_Duration input;
           MatchModel.Result := input_Result input;
           MatchModel.BlueTeam := Some (input_BlueTeam input);
           MatchModel.RedTeam := Some (input_RedTeam input) |} in
      let v := MatchModel.ValidateMatch validator.New m in
      if negb (Valid v) then ret [failedValidationResponse (Errors v)]
      else
        r <- catch (MatchModel.Insert to_timestamp json_Marshal m) ;;
        match r with
        | inl err => ret [serverErrorResponse err]
        | inr m =>
            let headers := [("Location", "/v1/matches/" +:+ pretty (MatchModel.match_ID m))] in
            send written StatusCreated "match" (inl m) headers
        end
  end.

Definition showMatchHandler (param : error + Z) (written : option error)
    : M (list (@response (@MatchModel.Match Time Team))) :=
  match param with
  | inl _ => ret [notFoundResponse]
  | inr id =>
      r <- catch (MatchModel.Get of_timestamp json_Unmarshal id) ;;
      match r with
      | inl err => not_found_or_server_error err
      | inr m => send written StatusOK "match" (inl m) []
      end
  end.

(** The teams of the body are decoded and not copied into the match. *)
Definition updateMatchHandler (param : error + Z) (decoded : error + match_input)
    (written : option error) : M (list (@response (@MatchModel.Match Time Team))) :=
  match param with
  | inl _ => ret [notFoundResponse]
  | inr id =>
      r <- catch (MatchModel.Get of_timestamp json_Unmarshal id) ;;
      match r with
      | inl err => not_found_or_server_error err
      | inr m =>
          match decoded with
          | inl err => ret [badRequestResponse err]
          | inr input =>
              let m :=
                {| MatchModel.match_ID := MatchModel.match_ID m;
                   MatchModel.PlayedDate := input_PlayedDate input;
                   MatchModel.Duration := input_Duration input;
                   MatchModel.Result := input_Result input;
                   MatchModel.BlueTeam := MatchModel.BlueTeam m;
                   MatchModel.RedTeam := MatchModel.RedTeam m |} in
              let v := MatchModel.ValidateMatch validator.New m in
              if negb (Valid v) then ret [failedValidationResponse (Errors v)]
              else
                r <- catch (MatchModel.Update to_timestamp json_Marshal m) ;;
                match r with
                | inl err => ret [serverErrorResponse err]
                | inr _ => send written StatusOK "match" (inl m) []
                end
          end
      end
  end.

Definition deleteMatchHandler (param : error + Z) (written : option error)
    : M (list (@response (@MatchModel.Match Time Team))) :=
  match param with
  | inl _ => ret [notFoundResponse]
  | inr id =>
      r <- catch (MatchModel.Delete id) ;;
      match r with
      | inl err => not_found_or_server_error err
      | inr _ => send written StatusOK "message" (inr "match successfully deleted") []
      end
  end.

End MatchHandlers.

End application.

(** * Vocabulary of the properties *)

(** ** What the updaters write *)

(** The stats a run starts from: the stored row, or zero when there is none. *)
Definition prior {K} `{Countable K} (m : gmap K stats_row) (k : K) : Z * float64 :=
  match m !! k with
  | Some row => (count_of_played_matches row, stats_win_rate row)
  | None => (0, zero)
  end.

(** The row the upsert writes from them. *)
Definition bumped (p : Z * float64) (won : bool) : stats_row :=
  stats (GoInt.add (fst p) 1) (recompute_win_rate (snd p) (GoInt.add (fst p) 1) won).

(** The summoner row written by [UpdateSummonerStatistics]. *)
Definition updated_summoner (row : summoners_row) (wins : Z) (avg : KDA) (won : bool)
    : summoners_row :=
  let games := GoInt.add (count_of_played_games row) 1 in
  {| username := username row; region := region row; rating := rating row;
     count_of_played_games := games;
     win_rate := div (of_int (if won then GoInt.add wins 1 else wins)) (of_int games);
     average_kda := avg |}.

(** The three quotients of the running average. *)
Definition kda_average (row : summoners_row) (kda avg : KDA) : Prop :=
  let games := GoInt.add (count_of_played_games row) 1 in
  GoInt.quo (GoInt.add (Kills (average_kda row)) (Kills kda)) games = Some (Kills avg) /\
  GoInt.quo (GoInt.add (Deaths (average_kda row)) (Deaths kda)) games = Some (Deaths avg) /\
  GoInt.quo (GoInt.add (Assists (average_kda row)) (Assists kda)) games = Some (Assists avg).

(** ** Atomicity *)

(** Everything but the tables named is as before. *)
Definition same_elsewhere (d d' : DB) : Prop :=
  summoners_id_seq d' = summoners_id_seq d /\
  champions_id_seq d' = champions_id_seq d /\
  matches d' = matches d /\
  matches_id_seq d' = matches_id_seq d.

(** Code that never touches the committed store. *)
Definition keeps_store {A} (m : M A) : Prop :=
  forall F c, committed (snd (m F c)) = committed c.

(** Code that changes the committed store only when it returns normally. *)
Definition all_or_nothing {A} (m : M A) : Prop :=
  forall F c, (exists a, fst (m F c) = Ret a) \/ committed (snd (m F c)) = committed c.

(** The outcome of a call that did not return normally. *)
Definition failed {A} (r : outcome A) : Prop :=
  match r with Ret _ => False | Fail _ | Panic => True end.

(** The number of driver calls an operation makes when it is run against a
    store: call [n] is made exactly when [n] is below it. *)
Definition calls_made {A} (op : M A) (F : Faults) (d : DB) : nat :=
  calls (snd (op F {| committed := d; pending := None; calls := 0 |})).

(** ** Concrete stores *)

(** The store before anything was inserted: empty tables, sequences at 1. *)
Definition empty_store : DB :=
  {| summoners := ∅; summoners_id_seq := 1;
     champions := ∅; champions_id_seq := 1;
     matches := ∅; matches_id_seq := 1;
     summoner_champion_stats := ∅; summoner_role_stats := ∅;
     champion_best_summoners := ∅ |}.

Definition a_summoner : Summoner :=
  {| ID := 0; Username := "faker"; Region := "kr"; Rating := 0;
     CountOfPlayedGames := 0; WinRate := zero;
     AverageKDA := {| Kills := 0; Deaths := 0; Assists := 0 |} |}.

Definition a_champion : Champion :=
  {| champion_ID := 1; Name := "Ahri"; MainRole := "mid"; Popularity := zero;
     champion_WinRate := zero; BanRate := zero |}.

(** The store after [a_summoner] and [a_champion] were inserted. *)
Definition seeded_store : DB :=
  snd (run (bind (SummonerModel.Insert a_summoner)
                 (fun _ => ChampionModel.Insert 0 a_champion)) no_faults empty_store).

(** The store after a list of matches of summoner 1 on champion 1 in role
    "mid", each given by its result and KDA. *)
Fixpoint after_matches (games : list (bool * KDA)) (d : DB) : DB :=
  match games with
  | [] => d
  | (won, kda) :: rest =>
      after_matches rest
        (snd (run (UpdateSummonerStatistics 1 a_champion kda "mid" won) no_faults d))
  end.

Definition a_kda : KDA := {| Kills := 10; Deaths := 2; Assists := 3 |}.

(** The fault plan that fails call [k] of an operation, and no other. *)
Definition fail_call (k : nat) : Faults := fun n => if Nat.eqb n k then Some 1%N else None.

(** The store after one won match, on which both updaters succeed when
    nothing fails. *)
Definition played_store : DB := after_matches [(true, a_kda)] seeded_store.

(** ** The formulas of the specification *)

(** The recompute formula in the specification's words:
    new_rate = (old_rate * (n - 1) + win) / n, with win 1 on a win and 0 on a
    loss, evaluated in float64. *)
Definition weighted_recompute (r : float64) (n : Z) (won : bool) : float64 :=
  div (add (mul r (of_int (GoInt.sub n 1))) (if won then one else zero)) (of_int n).

(** What an upsert recorded at key [k], given the table before and after:
    count n = prior count + 1 and rate (r * (n - 1) + win) / n from the
    prior rate r; a missing row counts as r = 0 and prior count 0, and n - 1
    is the prior count. *)
Definition recorded {K} `{Countable K} (before after : gmap K stats_row) (k : K) (won : bool)
    : Prop :=
  let r := match before !! k with Some row => stats_win_rate row | None => zero end in
  let c := match before !! k with Some row => count_of_played_matches row | None => 0 end in
  let n := GoInt.add c 1 in
  exists row, after !! k = Some row /\
    count_of_played_matches row = n /\
    same (stats_win_rate row) (weighted_recompute r n won) /\
    (GoInt.in_range c -> GoInt.sub n 1 = c).

(** The cumulative mean of the specification:
    (prior average * prior games + this match's value) / (prior games + 1),
    in integer division. *)
Definition cumulative_mean (a g k : Z) : Z := Z.quot (a * g + k) (g + 1).

(** ** The record store *)

(** The row [SummonerModel.Insert] writes for a summoner struct. *)
Definition fresh_summoner_row (s : Summoner) : summoners_row :=
  {| username := Username s; region := Region s; rating := 0;
     count_of_played_games := 0; win_rate := zero;
     average_kda := {| Kills := 0; Deaths := 0; Assists := 0 |} |}.

Definition with_ID (s : Summoner) (id : Z) : Summoner :=
  {| ID := id; Username := Username s; Region := Region s; Rating := Rating s;
     CountOfPlayedGames := CountOfPlayedGames s; WinRate := WinRate s;
     AverageKDA := AverageKDA s |}.

(** A match whose teams are plain strings, encoded as themselves, and whose
    played date is a number of milliseconds stored in whole seconds. *)
Definition a_match : @MatchModel.Match Z string :=
  {| MatchModel.match_ID := 0; MatchModel.PlayedDate := 1700000000123;
     MatchModel.Duration := 1800; MatchModel.Result := "blue";
     MatchModel.BlueTeam := Some "{}"; MatchModel.RedTeam := Some "[]" |}.

(** Get and Delete of one table, for an id below 1 (whatever the driver
    does) or absent (when the driver reports no failure). *)
Definition not_found_on (get del : Z -> M unit) (absent : DB -> Z -> Prop) : Prop :=
  forall (F : Faults) (d : DB) (id : Z),
    id < 1 \/ (absent d id /\ F 0%nat = None /\ F 1%nat = None) ->
    run (get id) F d = (Fail ErrRecordNotFound, d) /\
    run (del id) F d = (Fail ErrRecordNotFound, d).

(** Update of one table: never NotFound; on an absent id the store is left
    as it was, and the result is nil when the statement is sent and the
    driver reports no failure. *)
Definition update_silent_on {S} (update : S -> M unit) (key : S -> Z)
    (absent : DB -> Z -> Prop) (sent : S -> Prop) : Prop :=
  forall (F : Faults) (d : DB) (s : S),
    fst (run (update s) F d) <> Fail ErrRecordNotFound /\
    (absent d (key s) ->
       snd (run (update s) F d) = d /\
       (sent s -> F 0%nat = None -> fst (run (update s) F d) = Ret tt)).

(** ** Binary64 values as real numbers *)

(** [2^e] as a real number. *)
Definition bpow (e : Z) : R := powerRZ 2 e.

(** The real number a mantissa and an exponent stand for. *)
Definition F2R (m e : Z) : R := (IZR m * bpow e)%R.

(** [inbetween m e l v]: the real [v] lies in the slot [m * 2^e, (m+1) * 2^e)
    at the place the location [l] says. *)
Definition inbetween (m e : Z) (l : location) (v : R) : Prop :=
  match l with
  | loc_Exact => v = F2R m e
  | loc_Inexact Lt => (F2R m e < v < F2R m e + bpow e / 2)%R
  | loc_Inexact Eq => v = (F2R m e + bpow e / 2)%R
  | loc_Inexact Gt => (F2R m e + bpow e / 2 < v < F2R m e + bpow e)%R
  end.

Definition fexp (e : Z) : Z := SpecFloat.fexp prec emax e.

(** A mantissa is canonical for an exponent when the format gives numbers of
    its magnitude exactly that exponent. *)
Definition canonical (m e : Z) : Prop := fexp (Zdigits2 m + e) = e.

Definition lex_le (m1 e1 m2 e2 : Z) : Prop := e1 < e2 \/ (e1 = e2 /\ m1 <= m2).

(** The result of a rounding, against a bound given by mantissa and
    exponent: positive zero, or a finite positive number of the format that
    is at most the bound. *)
Definition round_le (x : spec_float) (mb eb : Z) : Prop :=
  x = S754_zero false \/
  exists m e, x = S754_finite false m e /\ SpecFloat.bounded prec emax m e = true /\
              lex_le (Zpos m) e mb eb.

(** The float64 values the win-rate arithmetic meets: a zero, or a finite
    positive number of the format. *)
Definition nonneg (x : float64) : Prop :=
  match x with
  | S754_zero _ => True
  | S754_finite false m e => SpecFloat.bounded prec emax m e = true
  | _ => False
  end.

(** The real number such a value denotes. *)
Definition B2R (x : float64) : R :=
  match x with
  | S754_finite false m e => F2R (Zpos m) e
  | _ => 0%R
  end.

(** ** Win rates in range *)

(** Every win rate the store holds is a fraction in [0,1]. *)
Definition win_rates_in_range (d : DB) : Prop :=
  map_Forall (fun _ row => is_fraction (win_rate row) = true) (summoners d) /\
  map_Forall (fun _ row => is_fraction (champion_win_rate row) = true) (champions d) /\
  map_Forall (fun _ row => is_fraction (stats_win_rate row) = true)
             (summoner_champion_stats d) /\
  map_Forall (fun _ row => is_fraction (stats_win_rate row) = true) (summoner_role_stats d) /\
  map_Forall (fun _ row => is_fraction (stats_win_rate row) = true)
             (champion_best_summoners d).

(** A binary64 value that is a fraction in [0,1]. *)
Definition fraction (r : float64) : Prop :=
  valid_binary prec emax r = true /\ is_fraction r = true.

(** A count an [integer] column can hold, not negative. *)
Definition count_in_column (c : Z) : Prop := 0 <= c < 2 ^ 31.

(** A row of games played and win rate: the rate is a fraction, the count
    is a count, and no games means rate 0. *)
Definition counted (games : Z) (rate : float64) : Prop :=
  fraction rate /\ count_in_column games /\ (games = 0 -> eqb rate zero = true).

(** The states the updater keeps in range: rates are fractions, counts are
    counts, and a summoner or champion without games has win rate 0. *)
Definition consistent (d : DB) : Prop :=
  map_Forall (fun _ row => counted (count_of_played_games row) (win_rate row))
             (summoners d) /\
  map_Forall (fun _ row => counted (champion_count_of_played_matches row)
                                   (champion_win_rate row))
             (champions d) /\
  map_Forall (fun _ row => fraction (stats_win_rate row) /\
                           count_in_column (count_of_played_matches row))
             (summoner_champion_stats d) /\
  map_Forall (fun _ row => fraction (stats_win_rate row) /\
                           count_in_column (count_of_played_matches row))
             (summoner_role_stats d) /\
  map_Forall (fun _ row => is_fraction (stats_win_rate row) = true)
             (champion_best_summoners d).

(** The same predicates as boolean functions, to evaluate them on a store. *)
Definition in_range_b (d : DB) : bool :=
  forallb (fun kv => is_fraction (win_rate (snd kv))) (map_to_list (summoners d)) &&
  forallb (fun kv => is_fraction (champion_win_rate (snd kv))) (map_to_list (champions d)) &&
  forallb (fun kv => is_fraction (stats_win_rate (snd kv)))
          (map_to_list (summoner_champion_stats d)) &&
  forallb (fun kv => is_fraction (stats_win_rate (snd kv)))
          (map_to_list (summoner_role_stats d)) &&
  forallb (fun kv => is_fraction (stats_win_rate (snd kv)))
          (map_to_list (champion_best_summoners d)).

Definition fraction_b (r : float64) : bool := valid_binary prec emax r && is_fraction r.

Definition count_b (c : Z) : bool := (0 <=? c) && (c <? 2 ^ 31).

Definition counted_b (games : Z) (rate : float64) : bool :=
  fraction_b rate && count_b games && ((negb (games =? 0)) || eqb rate zero).

Definition consistent_b (d : DB) : bool :=
  forallb (fun kv => counted_b (count_of_played_games (snd kv)) (win_rate (snd kv)))
          (map_to_list (summoners d)) &&
  forallb (fun kv => counted_b (champion_count_of_played_matches (snd kv))
                               (champion_win_rate (snd kv)))
          (map_to_list (champions d)) &&
  forallb (fun kv => fraction_b (stats_win_rate (snd kv)) &&
                     count_b (count_of_played_matches (snd kv)))
          (map_to_list (summoner_champion_stats d)) &&
  forallb (fun kv => fraction_b (stats_win_rate (snd kv)) &&
                     count_b (count_of_played_matches (snd kv)))
          (map_to_list (summoner_role_stats d)) &&
  forallb (fun kv => is_fraction (stats_win_rate (snd kv)))
          (map_to_list (champion_best_summoners d)).

(** ** What the updaters and handlers leave alone *)

(** The columns of a summoner, and of a champion, that the updaters have no
    business with. *)
Definition summoner_identity (row : summoners_row) : string * string * Z :=
  (username row, region row, rating row).

Definition champion_identity (row : champions_row) : string * string * float64 :=
  (name row, main_role row, ban_rate row).

(** The statistics columns of a summoner. *)
Definition summoner_statistics (row : summoners_row) : Z * Z * float64 * KDA :=
  (rating row, count_of_played_games row, win_rate row, average_kda row).

(** The summoners that have a statistics row for a champion. *)
Definition summoners_with_stats (championID : Z) (d : DB) : gset Z :=
  set_map fst (filter (fun k : Z * Z => snd k = championID) (dom (summoner_champion_stats d))).

(** Every champion has ban rate 0, the default of the column. *)
Definition no_bans (d : DB) : Prop :=
  map_Forall (fun _ row => ban_rate row = zero) (champions d).

(** ** More concrete stores *)

(** The store after a win and a loss of summoner 1 on champion 1, recorded
    by both updaters. *)
Definition won_and_lost : DB :=
  let d := after_matches [(true, a_kda)] seeded_store in
  let d := snd (run (UpdateChampionStatistics 1 1 true) no_faults d) in
  let d := after_matches [(false, a_kda)] d in
  snd (run (UpdateChampionStatistics 1 1 false) no_faults d).

(** A summoner struct as [createSummonerHandler] makes it. *)
Definition named (u r : string) : Summoner :=
  {| ID := 0; Username := u; Region := r; Rating := 0; CountOfPlayedGames := 0;
     WinRate := zero; AverageKDA := {| Kills := 0; Deaths := 0; Assists := 0 |} |}.

(** The store after three summoners were inserted. *)
Definition three_summoners : DB :=
  snd (run (SummonerModel.Insert (named "Faker" "KR") ;;;
            SummonerModel.Insert (named "Caps" "EUW") ;;;
            SummonerModel.Insert (named "Chovy" "kr")) no_faults empty_store).

(** ** Listings *)

(** The rows a SELECT puts in order: each row of the table that meets the
    WHERE clause, once. *)
Definition ordered_rows {R} (where_ : Z * R -> bool) (le : Z * R -> Z * R -> bool)
    (table : gmap Z R) : list (Z * R) :=
  merge_sort (fun a b => Is_true (no_later le a b)) (List.filter where_ (map_to_list table)).

(** The struct a row of [summoners] scans into, and the WHERE clause of
    [SummonerModel.GetAll]. *)
Definition summoner_of (r : Z * summoners_row) : Summoner :=
  {| ID := r.1; Username := username r.2; Region := region r.2; Rating := rating r.2;
     CountOfPlayedGames := count_of_played_games r.2; WinRate := win_rate r.2;
     AverageKDA := average_kda r.2 |}.

Definition summoner_where (LOWER : string -> string) (username' region' : string)
    (r : Z * summoners_row) : bool :=
  matches_filter LOWER (username r.2) username' && matches_filter LOWER (region r.2) region'.

(** The row a summoner struct was scanned from. *)
Definition summoner_row_of (s : Summoner) : Z * summoners_row :=
  (ID s, {| username := Username s; region := Region s; rating := Rating s;
            count_of_played_games := CountOfPlayedGames s; win_rate := WinRate s;
            average_kda := AverageKDA s |}).

(** The body the three listings share, once the ORDER BY term is known. *)
Definition listing {R A} (select : DB -> error + list R) (scan : R -> option A) : M (list A) :=
  rows <- try (DB_Query select) ;;
  xs <- scan_rows scan rows [] ;;
  try rows_Err ;;;
  ret xs.

(** A server for the examples: [LOWER] on the ASCII letters, an ORDER BY
    that knows the column [id] alone, and the two methods of [Filters] that
    give it [Sort] and ["ASC"]. *)
Definition lower_ascii (c : Ascii.ascii) : Ascii.ascii :=
  let n := Ascii.nat_of_ascii c in
  if (65 <=? n)%nat && (n <=? 90)%nat then Ascii.ascii_of_nat (n + 32) else c.

Fixpoint LOWER_ascii (s : string) : string :=
  match s with
  | EmptyString => EmptyString
  | String c s' => String (lower_ascii c) (LOWER_ascii s')
  end.

Definition ORDER_BY_id {R} (column direction : string)
    : error + (Z * R -> Z * R -> bool) :=
  if String.eqb column "id" then
    if String.eqb direction "DESC" then inr (fun a b => b.1 <=? a.1)
    else inr (fun a b => a.1 <=? b.1)
  else inl (ErrMessage "pq: column does not exist").

Definition column_of_Sort (f : Filters) : option string := Some (Sort f).
Definition ascending (f : Filters) : option string := Some "ASC".

(** Page [p] of size [n], ordered by id. *)
Definition page (p n : Z) : Filters :=
  {| Page := p; PageSize := n; Sort := "id"; SortSafelist := ["id"] |}.

(** ** Responses *)

(** The responses [send] asks for. *)
Definition sent {A} (written : option error) (status : Z) (key : string) (data : A + string)
    (headers : list (string * string)) : list (@application.response A) :=
  application.writeJSON status key data headers ::
  match written with None => [] | Some err => [application.serverErrorResponse err] end.

(** * Properties *)

(** ** Go integers and floats *)

Lemma wrap_in_range z : GoInt.in_range z -> GoInt.wrap z = z.
Proof.
  unfold GoInt.in_range, GoInt.wrap, GoInt.min_int, GoInt.max_int. intros Hz.
  rewrite Z.mod_small; lia.
Qed.

Lemma add_sub_one z : GoInt.in_range z -> GoInt.sub (GoInt.add z 1) 1 = z.
Proof.
  unfold GoInt.in_range, GoInt.sub, GoInt.add, GoInt.wrap, GoInt.min_int, GoInt.max_int.
  intros Hz.
  destruct (decide (z = 2 ^ 63 - 1)) as [-> | Hne]; [reflexivity |].
  rewrite (Z.mod_small (z + 1 + 2 ^ 63)) by lia.
  replace (z + 1 + 2 ^ 63 - 2 ^ 63 - 1 + 2 ^ 63) with (z + 2 ^ 63) by lia.
  rewrite Z.mod_small; lia.
Qed.

Lemma same_refl x : same x x.
Proof. now left. Qed.

(** Adding positive zero changes at most the sign of a zero. *)
Lemma add_zero_same x : same (add x zero) x.
Proof.
  destruct x as [[|]| [|] | | s m e]; cbn; try (now left); now right.
Qed.

(** ** Running the updaters *)

Lemma alter_present {K A} `{Countable K} (f : A -> A) (m : gmap K A) k x :
  m !! k = Some x -> alter f k m = <[k := f x]> m.
Proof.
  intros Hk. apply map_eq. intros j. rewrite lookup_alter, lookup_insert.
  repeat case_decide; subst; try congruence; now rewrite ?Hk.
Qed.

Ltac go_cbv :=
  cbv beta iota zeta delta [run UpdateSummonerStatistics UpdateChampionStatistics
    bind try defer ret throw panic
    BeginTx tx_QueryRow tx_Exec tx_Commit tx_Rollback driver_call or_no_rows kda_quo scan_row
    committed pending calls fst snd scan_champion_stats scan_role_stats scan_best_summoner
    scan_summoner_counts scan_champion_counts count_distinct_summoners] in *.

Ltac go_step F :=
  match goal with
  | |- context [F ?n] => destruct (F n) eqn:?
  | |- context [match ?m !! ?k with _ => _ end] => destruct (m !! k) eqn:?
  | |- context [match scan_float8_int ?r with _ => _ end] =>
      destruct (scan_float8_int r) eqn:?
  | |- context [match GoInt.quo ?a ?b with _ => _ end] => destruct (GoInt.quo a b) eqn:?
  | |- context [decide ?P] => destruct (decide P)
  end; go_cbv.

Ltac fault_free :=
  let n := fresh "n" in let Hn := fresh "Hn" in
  intros n Hn; repeat (destruct n as [| n]; [assumption |]); lia.

(** A successful run of [UpdateSummonerStatistics], read backwards. *)
Lemma summoner_update_inv summonerID champion kda role won F d d' :
  run (UpdateSummonerStatistics summonerID champion kda role won) F d = (Ret tt, d') ->
  exists row wins avg,
    (forall n, (n < 8)%nat -> F n = None) /\
    summoners d !! summonerID = Some row /\
    scan_float8_int (win_rate row) = Some wins /\
    kda_average row kda avg /\
    summoners d' = <[summonerID := updated_summoner row wins avg won]> (summoners d) /\
    summoner_champion_stats d' =
      <[(summonerID, champion_ID champion) :=
          bumped (prior (summoner_champion_stats d) (summonerID, champion_ID champion)) won]>
        (summoner_champion_stats d) /\
    summoner_role_stats d' =
      <[(summonerID, role) := bumped (prior (summoner_role_stats d) (summonerID, role)) won]>
        (summoner_role_stats d) /\
    champions d' = champions d /\
    champion_best_summoners d' = champion_best_summoners d /\
    same_elsewhere d d'.
Proof.
  go_cbv. repeat (go_step F; try done).
  all: intros [= <-].
  all: match goal with
       | Hrow : summoners _ !! _ = Some ?row,
         Hw : scan_float8_int _ = Some ?w,
         Hk : GoInt.quo _ _ = Some ?k, Hd : GoInt.quo _ _ = Some ?dd,
         Ha : GoInt.quo _ _ = Some ?a |- _ =>
           exists row, w, {| Kills := k; Deaths := dd; Assists := a |}
       end.
  all: cbn in *.
  all: unfold prior, bumped, kda_average, same_elsewhere; cbn.
  all: repeat match goal with H : _ !! _ = _ |- _ => rewrite H end; cbn.
  all: split; [fault_free |].
  all: repeat split; try assumption; try reflexivity.
  all: erewrite alter_present by eassumption; reflexivity.
Qed.

Lemma quo_nonzero a b : b <> 0 -> GoInt.quo a b = Some (GoInt.wrap (Z.quot a b)).
Proof. intros Hb. unfold GoInt.quo. now destruct (Z.eqb_spec b 0). Qed.

(** A run of [UpdateSummonerStatistics] that meets no failure commits. *)
Lemma summoner_update_run summonerID champion kda role won F d row wins :
  (forall n, (n < 8)%nat -> F n = None) ->
  summoners d !! summonerID = Some row ->
  scan_float8_int (win_rate row) = Some wins ->
  GoInt.add (count_of_played_games row) 1 <> 0 ->
  exists d', run (UpdateSummonerStatistics summonerID champion kda role won) F d = (Ret tt, d').
Proof.
  intros HF Hrow Hwins Hgames. go_cbv.
  rewrite !HF by lia. rewrite Hrow, Hwins. cbn.
  rewrite !quo_nonzero by assumption.
  repeat (go_step F; try done;
          try match goal with
              | H : F ?n = Some _ |- _ => rewrite HF in H by lia; discriminate
              end); eauto.
Qed.

(** A successful run of [UpdateChampionStatistics], read backwards. *)
Lemma champion_update_inv championID summonerID won F d d' :
  run (UpdateChampionStatistics championID summonerID won) F d = (Ret tt, d') ->
  exists row wins st,
    (forall n, (n < 7)%nat -> F n = None) /\
    champions d !! championID = Some row /\
    scan_float8_int (champion_win_rate row) = Some wins /\
    summoner_champion_stats d !! (summonerID, championID) = Some st /\
    champions d' =
      <[championID :=
          let games := GoInt.add (champion_count_of_played_matches row) 1 in
          {| name := name row; main_role := main_role row;
             popularity :=
               of_int (Z.of_nat (size (filter (fun kv => snd (fst kv) = championID)
                                              (summoner_champion_stats d))));
             champion_win_rate :=
               div (of_int (if won then GoInt.add wins 1 else wins)) (of_int games);
             ban_rate := ban_rate row;
             champion_count_of_played_matches := games |}]> (champions d) /\
    champion_best_summoners d' =
      <[(championID, summonerID) := st]> (champion_best_summoners d) /\
    summoners d' = summoners d /\
    summoner_champion_stats d' = summoner_champion_stats d /\
    summoner_role_stats d' = summoner_role_stats d /\
    same_elsewhere d d'.
Proof.
  go_cbv. repeat (go_step F; try done).
  intros [= <-].
  match goal with
  | Hrow : champions _ !! _ = Some ?row, Hw : scan_float8_int _ = Some ?w,
    Hst : summoner_champion_stats _ !! _ = Some ?st |- _ => exists row, w, st
  end.
  cbn in *. unfold same_elsewhere; cbn.
  split; [fault_free |].
  repeat split; try assumption; try reflexivity.
  - erewrite alter_present by eassumption; reflexivity.
  - match goal with |- context [stats (count_of_played_matches ?s) _] => now destruct s end.
Qed.

Lemma champion_update_run championID summonerID won F d row wins st :
  (forall n, (n < 7)%nat -> F n = None) ->
  champions d !! championID = Some row ->
  scan_float8_int (champion_win_rate row) = Some wins ->
  summoner_champion_stats d !! (summonerID, championID) = Some st ->
  exists d', run (UpdateChampionStatistics championID summonerID won) F d = (Ret tt, d').
Proof.
  intros HF Hrow Hwins Hst. go_cbv.
  rewrite !HF by lia. rewrite Hrow, Hwins. cbn.
  repeat (go_step F; try done;
          try match goal with
              | H : F ?n = Some _ |- _ => rewrite HF in H by lia; discriminate
              end); eauto.
  cbn in *. congruence.
Qed.

(** ** All or nothing *)

Lemma keeps_ret {A} (a : A) : keeps_store (ret a).
Proof. now intros F c. Qed.

Lemma keeps_throw {A} e : keeps_store (@throw A e).
Proof. now intros F c. Qed.

Lemma keeps_panic {A} : keeps_store (@panic A).
Proof. now intros F c. Qed.

Lemma keeps_bind {A B} (m : M A) (k : A -> M B) :
  keeps_store m -> (forall a, keeps_store (k a)) -> keeps_store (bind m k).
Proof.
  intros Hm Hk F c. unfold bind. specialize (Hm F c).
  destruct (m F c) as [[a | e |] c']; cbn in *; try assumption.
  now rewrite Hk.
Qed.

Lemma keeps_try {A} (m : M (error + A)) : keeps_store m -> keeps_store (try m).
Proof.
  intros Hm. apply keeps_bind; [assumption |].
  intros [e | a]; [apply keeps_throw | apply keeps_ret].
Qed.

Lemma keeps_driver_call {A} (run : conn -> (error + A) * conn) :
  (forall c, committed (snd (run c)) = committed c) -> keeps_store (driver_call run).
Proof.
  intros Hrun F c. unfold driver_call. destruct (F (calls c)); [reflexivity |].
  specialize (Hrun {| committed := committed c; pending := pending c; calls := S (calls c) |}).
  destruct (run _) as [r c2]. exact Hrun.
Qed.

Lemma keeps_BeginTx : keeps_store BeginTx.
Proof. now apply keeps_driver_call. Qed.

Lemma keeps_tx_QueryRow {R A} (select : DB -> option R) (scan : R -> option A) :
  keeps_store (tx_QueryRow select scan).
Proof. apply keeps_driver_call. intros c. now destruct (pending c). Qed.

Lemma keeps_tx_Exec stmt : keeps_store (tx_Exec stmt).
Proof. apply keeps_driver_call. intros c. now destruct (pending c). Qed.

Lemma keeps_tx_Rollback : keeps_store tx_Rollback.
Proof. now intros F c. Qed.

Lemma keeps_or_no_rows {A} (r : error + A) z : keeps_store (or_no_rows r z).
Proof.
  destruct r as [e | a]; cbn; [| apply keeps_ret].
  destruct (decide _); [apply keeps_ret | apply keeps_throw].
Qed.

Lemma keeps_kda_quo k n : keeps_store (kda_quo k n).
Proof.
  unfold kda_quo.
  destruct (GoInt.quo (Kills k) n), (GoInt.quo (Deaths k) n), (GoInt.quo (Assists k) n);
    first [apply keeps_ret | apply keeps_panic].
Qed.

Lemma all_or_nothing_bind {A B} (m : M A) (k : A -> M B) :
  keeps_store m -> (forall a, all_or_nothing (k a)) -> all_or_nothing (bind m k).
Proof.
  intros Hm Hk F c. unfold bind. specialize (Hm F c).
  destruct (m F c) as [[a | e |] c']; cbn in *; try (now right).
  destruct (Hk a F c') as [Hret | Hsame]; [now left | right; congruence].
Qed.

Lemma all_or_nothing_commit : all_or_nothing (try tx_Commit).
Proof.
  intros F c. unfold try, bind, tx_Commit, throw, ret.
  destruct (F (calls c)); [now right |].
  destruct (pending c); [left; now exists tt | now right].
Qed.

Lemma all_or_nothing_defer {A} (f : M unit) (body : M A) :
  keeps_store f -> all_or_nothing body -> all_or_nothing (defer f body).
Proof.
  intros Hf Hbody F c. unfold defer. specialize (Hbody F c).
  destruct (body F c) as [r c']; cbn in *.
  destruct Hbody as [Hret | Hsame]; [now left | right].
  now rewrite Hf.
Qed.

Lemma all_or_nothing_keeps {A} (m : M A) : keeps_store m -> all_or_nothing m.
Proof. intros Hm F c. now right. Qed.

Create HintDb atomicity.

#[local] Hint Resolve keeps_ret keeps_throw keeps_panic keeps_try keeps_BeginTx
  keeps_tx_QueryRow keeps_tx_Exec keeps_tx_Rollback keeps_or_no_rows keeps_kda_quo
  all_or_nothing_commit : atomicity.

Ltac atomicity :=
  repeat first
    [ apply all_or_nothing_commit
    | apply all_or_nothing_defer; [apply keeps_tx_Rollback |]
    | apply all_or_nothing_bind; [auto with atomicity | intros ?]
    | match goal with |- all_or_nothing (let '(_, _) := ?x in _) => destruct x end ].

Lemma UpdateSummonerStatistics_all_or_nothing summonerID champion kda role won :
  all_or_nothing (UpdateSummonerStatistics summonerID champion kda role won).
Proof. unfold UpdateSummonerStatistics. atomicity. Qed.

Lemma UpdateChampionStatistics_all_or_nothing championID summonerID won :
  all_or_nothing (UpdateChampionStatistics championID summonerID won).
Proof. unfold UpdateChampionStatistics. atomicity. Qed.

Lemma run_all_or_nothing (m : M unit) F d :
  all_or_nothing m -> failed (fst (run m F d)) -> snd (run m F d) = d.
Proof.
  intros Hm. unfold run.
  specialize (Hm F {| committed := d; pending := None; calls := 0 |}).
  destruct (m F _) as [r c]; cbn in *.
  destruct Hm as [[a Ha] | Hsame]; [| now intros _].
  now rewrite Ha.
Qed.

Lemma champion_update_no_panic championID summonerID won F d :
  fst (run (UpdateChampionStatistics championID summonerID won) F d) <> Panic.
Proof. go_cbv. repeat (go_step F; try done). Qed.

Lemma run_ret_eq {A} (m : M A) F d a :
  fst (run m F d) = Ret a -> run m F d = (Ret a, snd (run m F d)).
Proof. destruct (run m F d); cbn; congruence. Qed.

(** ** Concrete stores *)

(** ** C3: all or nothing *)

(** A driver call that is made and failed: at the leaves of the symbolic
    run every earlier call is known to have succeeded. *)
Ltac reached_call :=
  let n := fresh "n" in let code := fresh "code" in
  let Hn := fresh "Hn" in let HF := fresh "HF" in
  lazymatch goal with |- forall _ _, _ -> _ -> (_, _) = _ => idtac end;
  intros n code Hn HF;
  repeat (destruct n as [| n]; [solve [congruence] |]); lia.

(** The updater returns the error of the driver call that failed, and the
    store is as before. *)
Lemma summoner_update_reached summonerID champion kda role won F d n code :
  let op := UpdateSummonerStatistics summonerID champion kda role won in
  (n < calls_made op F d)%nat -> F n = Some code ->
  run op F d = (Fail (ErrDriver code), d).
Proof.
  intros op. subst op. revert n code. unfold calls_made. go_cbv.
  repeat (go_step F; try done; try reached_call).
Qed.

Lemma champion_update_reached championID summonerID won F d n code :
  let op := UpdateChampionStatistics championID summonerID won in
  (n < calls_made op F d)%nat -> F n = Some code ->
  run op F d = (Fail (ErrDriver code), d).
Proof.
  intros op. subst op. revert n code. unfold calls_made. go_cbv.
  repeat (go_step F; try done; try reached_call).
Qed.

(** The only panic of [UpdateSummonerStatistics] is the division by a games
    count that became 0. *)
Lemma summoner_update_panic summonerID champion kda role won F d :
  fst (run (UpdateSummonerStatistics summonerID champion kda role won) F d) = Panic ->
  exists row, summoners d !! summonerID = Some row /\
              GoInt.add (count_of_played_games row) 1 = 0.
Proof.
  go_cbv. repeat (go_step F; try done).
  all: intros _; eexists; split; [reflexivity |].
  all: match goal with
       | H : GoInt.quo _ ?b = None |- _ =>
           unfold GoInt.quo in H; destruct (Z.eqb_spec b 0); [assumption | discriminate]
       end.
Qed.

(** C3. Whatever the store and the fault plan, when a driver call that
    [UpdateSummonerStatistics] or [UpdateChampionStatistics] makes (BeginTx,
    a read, a write, Commit) is failed, the updater returns the error of
    that call and the store is exactly as it was; so is the store after
    every run that does not return nil.  A fault planned for any of the
    eight (seven) calls of a complete run prevents the nil return: the run
    returns an error at that call or before it, or, for the summoner
    updater, panics in the division by a games count that became 0, which
    comes before the third call and so before any call from the third on is
    made.  No partial update is committed. *)
Theorem update_statistics_all_or_nothing (F : Faults) (d : DB) :
  (forall summonerID champion kda role won,
     let op := UpdateSummonerStatistics summonerID champion kda role won in
     let r := run op F d in
     (failed (fst r) -> snd r = d) /\
     (forall n code, (n < calls_made op F d)%nat -> F n = Some code ->
        r = (Fail (ErrDriver code), d)) /\
     (forall n code, (n < 8)%nat -> F n = Some code ->
        snd r = d /\
        ((exists e, fst r = Fail e) \/ fst r = Panic /\ (calls_made op F d <= n)%nat)) /\
     (fst r = Panic ->
        exists row, summoners d !! summonerID = Some row /\
                    GoInt.add (count_of_played_games row) 1 = 0)) /\
  (forall championID summonerID won,
     let op := UpdateChampionStatistics championID summonerID won in
     let r := run op F d in
     (failed (fst r) -> snd r = d) /\
     (forall n code, (n < calls_made op F d)%nat -> F n = Some code ->
        r = (Fail (ErrDriver code), d)) /\
     (forall n code, (n < 7)%nat -> F n = Some code ->
        (exists e, fst r = Fail e) /\ snd r = d) /\
     fst r <> Panic).
Proof.
  split.
  - intros summonerID champion kda role won op r.
    assert (Hroll : failed (fst r) -> snd r = d).
    { apply run_all_or_nothing, UpdateSummonerStatistics_all_or_nothing. }
    split; [exact Hroll |].
    split; [intros n code; apply summoner_update_reached |].
    split; [| apply summoner_update_panic].
    intros n code Hn Hfault.
    assert (Hfailed : failed (fst r)).
    { destruct (fst r) as [[] | e |] eqn:Hr; cbn; trivial.
      apply run_ret_eq, summoner_update_inv in Hr.
      destruct Hr as (row & wins & avg & HF & _).
      rewrite HF in Hfault by assumption. discriminate. }
    split; [auto |].
    destruct (fst r) as [[] | e |] eqn:Hr; [destruct Hfailed | eauto |].
    right. split; [reflexivity |].
    destruct (le_lt_dec (calls_made op F d) n) as [Hle | Hlt]; [exact Hle |].
    pose proof (summoner_update_reached summonerID champion kda role won F d n code Hlt Hfault)
      as Hrun.
    fold op in Hrun. fold r in Hrun. rewrite Hrun in Hr. discriminate.
  - intros championID summonerID won op r.
    assert (Hroll : failed (fst r) -> snd r = d).
    { apply run_all_or_nothing, UpdateChampionStatistics_all_or_nothing. }
    pose proof (champion_update_no_panic championID summonerID won F d) as Hnp.
    fold op in Hnp. fold r in Hnp.
    split; [exact Hroll |].
    split; [intros n code; apply champion_update_reached |].
    split; [| exact Hnp].
    intros n code Hn Hfault.
    destruct (fst r) as [[] | e |] eqn:Hr.
    + apply run_ret_eq, champion_update_inv in Hr.
      destruct Hr as (row & wins & st & HF & _).
      rewrite HF in Hfault by assumption. discriminate.
    + split; [eauto |]. apply Hroll. exact I.
    + congruence.
Qed.

(** On the store after one won match, a Commit failed by the driver (the
    eighth call of the summoner updater, the seventh of the champion
    updater) makes each updater return the driver's error and leaves the
    store as it was. *)
Lemma update_statistics_all_or_nothing_witness :
  run (UpdateSummonerStatistics 1 a_champion a_kda "mid" true) (fail_call 7) played_store
    = (Fail (ErrDriver 1), played_store) /\
  run (UpdateChampionStatistics 1 1 true) (fail_call 6) played_store
    = (Fail (ErrDriver 1), played_store).
Proof.
  split.
  - destruct (update_statistics_all_or_nothing (fail_call 7) played_store) as [Hs _].
    destruct (Hs 1 a_champion a_kda "mid" true) as (_ & H & _).
    apply (H 7%nat 1%N); [vm_compute; lia | reflexivity].
  - destruct (update_statistics_all_or_nothing (fail_call 6) played_store) as [_ Hc].
    destruct (Hc 1 1 true) as (_ & H & _).
    apply (H 6%nat 1%N); [vm_compute; lia | reflexivity].
Defined.

(** ** C4: per-champion and per-role statistics *)

Lemma div_zero_sign_same s y : same (div (S754_zero s) y) (div zero y).
Proof.
  destruct y as [sy | sy | | sy my ey]; cbn; try (now left); right; now destruct s, sy.
Qed.

(** The code's two branches compute the formula: literally on a win, and on a
    loss up to the sign of a zero, which adding [0] would clear. *)
Lemma recompute_win_rate_formula r n won :
  same (recompute_win_rate r n won) (weighted_recompute r n won).
Proof.
  unfold recompute_win_rate, weighted_recompute. destruct won; [apply same_refl |].
  generalize (mul r (of_int (GoInt.sub n 1))) (of_int n). intros x y.
  destruct x as [[|] | sx | | sx mx ex]; try apply same_refl.
  apply div_zero_sign_same.
Qed.

(** C4. After a successful [UpdateSummonerStatistics] the per-champion row of
    (summoner, champion) and the per-role row of (summoner, role) hold the
    played count n = prior count + 1 and the win rate
    (r * (n - 1) + win) / n computed from the prior rate r, where a missing
    row counts as r = 0 and prior count 0; n - 1 is the prior count. *)
Theorem stats_upsert_formula summonerID champion kda role won F d d' :
  run (UpdateSummonerStatistics summonerID champion kda role won) F d = (Ret tt, d') ->
  recorded (summoner_champion_stats d) (summoner_champion_stats d')
           (summonerID, champion_ID champion) won /\
  recorded (summoner_role_stats d) (summoner_role_stats d') (summonerID, role) won.
Proof.
  intros Hrun. apply summoner_update_inv in Hrun.
  destruct Hrun as (row & wins & avg & _ & _ & _ & _ & _ & Hc & Hr & _).
  unfold recorded. rewrite Hc, Hr, !lookup_insert_eq. unfold prior.
  split.
  - eexists. split; [reflexivity |].
    destruct (summoner_champion_stats d !! _) as [st |]; cbn;
      (split; [reflexivity | split; [apply recompute_win_rate_formula | apply add_sub_one]]).
  - eexists. split; [reflexivity |].
    destruct (summoner_role_stats d !! _) as [st |]; cbn;
      (split; [reflexivity | split; [apply recompute_win_rate_formula | apply add_sub_one]]).
Qed.

(** Summoner 1 has won twice on champion 1; the third match, a loss, is
    recorded as count 3 and rate (1 * 2 + 0) / 3. *)
Lemma stats_upsert_formula_witness :
  let d := after_matches [(true, a_kda); (true, a_kda)] seeded_store in
  let d' := snd (run (UpdateSummonerStatistics 1 a_champion a_kda "mid" false) no_faults d) in
  run (UpdateSummonerStatistics 1 a_champion a_kda "mid" false) no_faults d = (Ret tt, d') /\
  exists row, summoner_champion_stats d' !! (1, 1) = Some row /\
    count_of_played_matches row = 3 /\
    same (stats_win_rate row) (weighted_recompute one 3 false).
Proof.
  intros d d'.
  assert (Hrun : run (UpdateSummonerStatistics 1 a_champion a_kda "mid" false) no_faults d
                 = (Ret tt, d')) by (vm_compute; reflexivity).
  split; [exact Hrun |].
  destruct (stats_upsert_formula _ _ _ _ _ _ _ _ Hrun) as [(row & Hrow & Hn & Hsame & _) _].
  exists row. split; [exact Hrow |]. split; [exact Hn | exact Hsame].
Defined.

(** ** C6: the example scenario *)

(** C6. A summoner stored with 0 games and win rate 0: the updater run for a
    won match stores games = 1 and win rate 1.0, and a following run for a
    lost match stores games = 2 and win rate 0.5; both runs succeed when the
    driver reports no failure, whatever champion, KDA and role they are given
    and whatever else the store holds. *)
Theorem example_scenario (d : DB) (summonerID : Z) (row : summoners_row)
    (champion champion' : Champion) (kda kda' : KDA) (role role' : string) :
  summoners d !! summonerID = Some row ->
  count_of_played_games row = 0 ->
  win_rate row = zero ->
  exists d1 row1 d2 row2,
    run (UpdateSummonerStatistics summonerID champion kda role true) no_faults d
      = (Ret tt, d1) /\
    summoners d1 !! summonerID = Some row1 /\
    count_of_played_games row1 = 1 /\ win_rate row1 = one /\
    run (UpdateSummonerStatistics summonerID champion' kda' role' false) no_faults d1
      = (Ret tt, d2) /\
    summoners d2 !! summonerID = Some row2 /\
    count_of_played_games row2 = 2 /\ win_rate row2 = half.
Proof.
  intros Hrow Hgames Hrate.
  destruct (summoner_update_run summonerID champion kda role true no_faults d row 0)
    as [d1 Hrun1]; [reflexivity | assumption | now rewrite Hrate | now rewrite Hgames |].
  pose proof Hrun1 as Hinv1. apply summoner_update_inv in Hinv1.
  destruct Hinv1 as (row0 & wins & avg & _ & Hrow0 & Hwins & _ & Hs1 & _).
  assert (row0 = row) as -> by congruence.
  rewrite Hrate in Hwins. injection Hwins as <-.
  set (row1 := updated_summoner row 0 avg true) in *.
  assert (Hrow1 : summoners d1 !! summonerID = Some row1)
    by (rewrite Hs1; apply lookup_insert_eq).
  assert (Hg1 : count_of_played_games row1 = 1) by (cbn; now rewrite Hgames).
  assert (Hr1 : win_rate row1 = one) by (cbn; now rewrite Hgames).
  destruct (summoner_update_run summonerID champion' kda' role' false no_faults d1 row1 1)
    as [d2 Hrun2]; [reflexivity | assumption | now rewrite Hr1 | now rewrite Hg1 |].
  pose proof Hrun2 as Hinv2. apply summoner_update_inv in Hinv2.
  destruct Hinv2 as (row0' & wins' & avg' & _ & Hrow0' & Hwins' & _ & Hs2 & _).
  assert (row0' = row1) as -> by congruence.
  rewrite Hr1 in Hwins'. injection Hwins' as <-.
  exists d1, row1, d2, (updated_summoner row1 1 avg' false).
  repeat split; try assumption.
  - rewrite Hs2. apply lookup_insert_eq.
  - cbn. now rewrite Hgames.
  - cbn. now rewrite Hgames.
Qed.

Lemma example_scenario_witness :
  summoners seeded_store !! 1 <> None /\
  exists d1 row1 d2 row2,
    run (UpdateSummonerStatistics 1 a_champion a_kda "mid" true) no_faults seeded_store
      = (Ret tt, d1) /\
    summoners d1 !! 1 = Some row1 /\
    count_of_played_games row1 = 1 /\ win_rate row1 = one /\
    run (UpdateSummonerStatistics 1 a_champion a_kda "top" false) no_faults d1
      = (Ret tt, d2) /\
    summoners d2 !! 1 = Some row2 /\
    count_of_played_games row2 = 2 /\ win_rate row2 = half.
Proof.
  split; [vm_compute; discriminate |].
  eapply example_scenario; [vm_compute; reflexivity | reflexivity | reflexivity].
Defined.

(** ** C1: the win rate, against the number of wins *)

(** What the code stores as the win rate: the quotient of the rate it read
    back as an integer, plus one on a win, by the incremented games count. *)
Lemma summoner_win_rate_stored summonerID champion kda role won F d d' :
  run (UpdateSummonerStatistics summonerID champion kda role won) F d = (Ret tt, d') ->
  exists row wins row',
    summoners d !! summonerID = Some row /\
    scan_float8_int (win_rate row) = Some wins /\
    summoners d' !! summonerID = Some row' /\
    count_of_played_games row' = GoInt.add (count_of_played_games row) 1 /\
    win_rate row' = div (of_int (if won then GoInt.add wins 1 else wins))
                        (of_int (GoInt.add (count_of_played_games row) 1)).
Proof.
  intros Hrun. apply summoner_update_inv in Hrun.
  destruct Hrun as (row & wins & avg & _ & Hrow & Hwins & _ & Hs & _).
  exists row, wins, (updated_summoner row wins avg won).
  rewrite Hs, lookup_insert_eq. repeat split; assumption.
Qed.

(** C1, evaluated. Summoner 1 and champion 1 are inserted and win three
    matches: the summoner row then holds 3 games and the win rate 2/3, not
    3/3; a fourth run fails in [Scan] and stores nothing.  A champion row
    holding 2 matches and rate 1 gets the rate 2/3 from a third win, too. *)
Theorem three_wins_win_rate :
  let d3 := after_matches [(true, a_kda); (true, a_kda); (true, a_kda)] seeded_store in
  (count_of_played_games <$> summoners d3 !! 1 = Some 3 /\
   win_rate <$> summoners d3 !! 1 = Some (div (of_int 2) (of_int 3)) /\
   div (of_int 2) (of_int 3) <> div (of_int 3) (of_int 3)) /\
  run (UpdateSummonerStatistics 1 a_champion a_kda "mid" true) no_faults d3
    = (Fail ErrConvert, d3) /\
  let dc := set_champions (alter (fun row =>
              {| name := name row; main_role := main_role row;
                 popularity := popularity row; champion_win_rate := one;
                 ban_rate := ban_rate row;
                 champion_count_of_played_matches := 2 |}) 1) d3 in
  champion_win_rate <$>
    champions (snd (run (UpdateChampionStatistics 1 1 true) no_faults dc)) !! 1
    = Some (div (of_int 2) (of_int 3)).
Proof. vm_compute. repeat split; discriminate. Qed.

(** ** C2: the running average of the KDA *)

(** What the code stores as the average: the stored average plus the match's
    KDA, divided by the incremented games count. *)
Lemma summoner_average_kda_stored summonerID champion kda role won F d d' :
  run (UpdateSummonerStatistics summonerID champion kda role won) F d = (Ret tt, d') ->
  exists row row',
    summoners d !! summonerID = Some row /\
    summoners d' !! summonerID = Some row' /\
    kda_average row kda (average_kda row').
Proof.
  intros Hrun. apply summoner_update_inv in Hrun.
  destruct Hrun as (row & wins & avg & _ & Hrow & _ & Havg & Hs & _).
  exists row, (updated_summoner row wins avg won).
  rewrite Hs, lookup_insert_eq. repeat split; assumption || apply Havg.
Qed.

(** C2, evaluated. Summoner 1 loses three matches, each with the KDA
    10/2/3.  After two of them the row holds 2 games and the average 10/2/3;
    the third run stores 6/1/2, where the cumulative mean is 10/2/3. *)
Theorem three_matches_average_kda :
  let d2 := after_matches [(false, a_kda); (false, a_kda)] seeded_store in
  let d3 := after_matches [(false, a_kda)] d2 in
  fst (run (UpdateSummonerStatistics 1 a_champion a_kda "mid" false) no_faults d2) = Ret tt /\
  (count_of_played_games <$> summoners d2 !! 1 = Some 2 /\
   average_kda <$> summoners d2 !! 1 = Some a_kda) /\
  average_kda <$> summoners d3 !! 1 = Some {| Kills := 6; Deaths := 1; Assists := 2 |} /\
  {| Kills := cumulative_mean 10 2 10; Deaths := cumulative_mean 2 2 2;
     Assists := cumulative_mean 3 2 3 |} = a_kda.
Proof. vm_compute. repeat split. Qed.

(** ** The record store *)

Ltac crud_cbv :=
  cbv beta iota zeta delta [run bind try ret throw panic driver_call scan_row
    DB_QueryRow DB_QueryRow_Err DB_Exec RowsAffected errors_Is
    SummonerModel.Insert SummonerModel.Get SummonerModel.Update SummonerModel.Delete
    SummonerModel.insert_returning_id SummonerModel.scan_summoner SummonerModel.delete_row
    ChampionModel.Insert ChampionModel.Get ChampionModel.Update ChampionModel.Delete
    ChampionModel.insert_returning ChampionModel.scan_champion ChampionModel.delete_row
    MatchModel.Insert MatchModel.Get MatchModel.Update MatchModel.Delete
    MatchModel.insert_returning_id MatchModel.scan_match MatchModel.delete_row
    MatchModel.team_Value
    committed pending calls fst snd] in *.

(** ** C10: what Insert persists for a summoner *)

(** C10. [SummonerModel.Insert] persists, under the id drawn from the
    sequence, the caller's Username and Region with rating 0, games 0, win
    rate 0 and average KDA {0,0,0}, whatever the struct holds in those
    fields, and gives the struct back with only its ID changed; it succeeds
    when the driver reports no failure and the id is free, and a failed
    Insert writes no row. *)
Theorem insert_summoner_defaults (s : Summoner) (F : Faults) (d : DB) :
  let id := summoners_id_seq d in
  let r := run (SummonerModel.Insert s) F d in
  (F 0%nat = None -> summoners d !! id = None -> exists d', r = (Ret (with_ID s id), d')) /\
  (forall s' d', r = (Ret s', d') ->
     s' = with_ID s id /\ summoners d' = <[id := fresh_summoner_row s]> (summoners d)) /\
  (failed (fst r) -> summoners (snd r) = summoners d).
Proof.
  intros id r. subst r id. crud_cbv.
  destruct (F 0%nat) eqn:HF; cbn.
  - split; [discriminate |]. split; [discriminate | reflexivity].
  - destruct (summoners d !! summoners_id_seq d) eqn:Hkey; cbn.
    + split; [discriminate |]. split; [discriminate | reflexivity].
    + split; [eauto |]. split; [| intros []].
      intros s' d' [= <- <-]. split; reflexivity.
Qed.

Lemma insert_summoner_defaults_witness :
  let s := {| ID := 99; Username := "faker"; Region := "kr"; Rating := 1500;
              CountOfPlayedGames := 40; WinRate := half;
              AverageKDA := a_kda |} in
  let r := run (SummonerModel.Insert s) no_faults empty_store in
  fst r = Ret (with_ID s 1) /\ summoners (snd r) = {[ 1 := fresh_summoner_row s ]}.
Proof.
  intros s r.
  destruct (insert_summoner_defaults s no_faults empty_store) as (Hok & Hrow & _).
  destruct Hok as [d' Hd']; [reflexivity | reflexivity |].
  fold r in Hd'. destruct (Hrow _ _ Hd') as [_ Hs].
  rewrite Hd'. cbn. split; [reflexivity | exact Hs].
Defined.

(** ** C9: the reserved champion name *)

Lemma check_false_invalid v key message : Valid (Check v false key message) = false.
Proof.
  unfold Valid, Check, AddError; cbn. apply bool_decide_eq_false. set_solver.
Qed.

(** C9. A champion whose Name is exactly "Champion" is rejected by
    [ValidateChampion], whatever its MainRole and whatever the validator
    held before. *)
Theorem champion_named_Champion_invalid (v : Validator) (champion : Champion) :
  Name champion = "Champion" -> Valid (ValidateChampion v champion) = false.
Proof.
  intros Hname. unfold ValidateChampion. rewrite Hname.
  change (string_neq "Champion" "Champion") with false.
  apply check_false_invalid.
Qed.

Lemma champion_named_Champion_invalid_witness :
  let champion := {| champion_ID := 0; Name := "Champion"; MainRole := "mid";
                     Popularity := zero; champion_WinRate := zero; BanRate := zero |} in
  string_neq (Name champion) "" = true /\ string_neq (MainRole champion) "" = true /\
  Valid (ValidateChampion New champion) = false.
Proof.
  intros champion. split; [reflexivity |]. split; [reflexivity |].
  apply (champion_named_Champion_invalid New champion). reflexivity.
Defined.

(** ** C8: Insert followed by Get *)

(** C8 as stated fails. A valid summoner whose struct carries a rating is
    inserted into the empty store without any failure; Get with the assigned
    id returns rating 0 (and games 0, win rate 0, KDA zero), not the values
    the caller set. *)
Lemma insert_get_loses_statistics :
  let s := {| ID := 0; Username := "faker"; Region := "kr"; Rating := 1500;
              CountOfPlayedGames := 40; WinRate := half; AverageKDA := a_kda |} in
  Valid (ValidateSummoner New s) = true /\
  exists s' d' g,
    run (SummonerModel.Insert s) no_faults empty_store = (Ret s', d') /\
    run (SummonerModel.Get (ID s')) no_faults d' = (Ret g, d') /\
    Username g = Username s /\ Region g = Region s /\
    Rating g <> Rating s /\ CountOfPlayedGames g <> CountOfPlayedGames s /\
    WinRate g <> WinRate s /\ AverageKDA g <> AverageKDA s.
Proof.
  intros s. split; [vm_compute; reflexivity |].
  eexists _, _, _. split; [vm_compute; reflexivity |].
  split; [vm_compute; reflexivity |].
  cbn. repeat split; discriminate.
Qed.

(** C8, amended. When Insert succeeds on a store whose sequence is positive,
    Get with the assigned id, met by no driver failure, returns
    - for a Summoner: the caller's Username and Region, and 0 in every
      statistics field;
    - for a Champion: the caller's Name and MainRole and the column defaults
      of the three rates, which is the struct as Insert left it;
    - for a Match: the caller's Duration and Result, the played date as the
      timestamp column gives it back, and the teams that decode from the
      JSON documents of the caller's teams. *)
Theorem insert_then_get :
  (forall (s s' : Summoner) (F F' : Faults) (d d' : DB),
     1 <= summoners_id_seq d ->
     run (SummonerModel.Insert s) F d = (Ret s', d') ->
     F' 0%nat = None ->
     run (SummonerModel.Get (ID s')) F' d'
       = (Ret {| ID := ID s'; Username := Username s; Region := Region s;
                 Rating := 0; CountOfPlayedGames := 0; WinRate := zero;
                 AverageKDA := {| Kills := 0; Deaths := 0; Assists := 0 |} |}, d')) /\
  (forall (count_default : Z) (c c' : Champion) (F F' : Faults) (d d' : DB),
     1 <= champions_id_seq d ->
     run (ChampionModel.Insert count_default c) F d = (Ret c', d') ->
     F' 0%nat = None ->
     run (ChampionModel.Get (champion_ID c')) F' d' = (Ret c', d') /\
     c' = {| champion_ID := champion_ID c'; Name := Name c; MainRole := MainRole c;
             Popularity := zero; champion_WinRate := zero; BanRate := zero |}) /\
  (forall (Time Team : Type) (to_timestamp : Time -> Z) (of_timestamp : Z -> Time)
          (json_Marshal : option Team -> option string)
          (json_Unmarshal : string -> option Team)
          (m m' : MatchModel.Match) (F F' : Faults) (d d' : DB)
          (blueJSON redJSON : string) (blue red : Team),
     1 <= matches_id_seq d ->
     run (MatchModel.Insert to_timestamp json_Marshal m) F d = (Ret m', d') ->
     F' 0%nat = None ->
     json_Marshal (MatchModel.BlueTeam m) = Some blueJSON ->
     json_Unmarshal blueJSON = Some blue ->
     json_Marshal (MatchModel.RedTeam m) = Some redJSON ->
     json_Unmarshal redJSON = Some red ->
     run (MatchModel.Get of_timestamp json_Unmarshal (MatchModel.match_ID m')) F' d'
       = (Ret {| MatchModel.match_ID := MatchModel.match_ID m';
                 MatchModel.PlayedDate := of_timestamp (to_timestamp (MatchModel.PlayedDate m));
                 MatchModel.Duration := MatchModel.Duration m;
                 MatchModel.Result := MatchModel.Result m;
                 MatchModel.BlueTeam := Some blue;
                 MatchModel.RedTeam := Some red |}, d')).
Proof.
  split; [| split].
  - intros s s' F F' d d' Hseq Hins HF'. crud_cbv.
    destruct (F 0%nat); [discriminate |]. cbn in Hins.
    destruct (summoners d !! summoners_id_seq d) eqn:Hkey; [discriminate |].
    injection Hins as <- <-. cbn.
    destruct (Z.ltb_spec (summoners_id_seq d) 1); [lia |].
    rewrite HF'. cbn. now rewrite lookup_insert_eq.
  - intros count_default c c' F F' d d' Hseq Hins HF'. crud_cbv.
    destruct (F 0%nat); [discriminate |]. cbn in Hins.
    destruct (champions d !! champions_id_seq d) eqn:Hkey; [discriminate |].
    injection Hins as <- <-. cbn.
    destruct (Z.ltb_spec (champions_id_seq d) 1); [lia |].
    rewrite HF'. cbn. now rewrite lookup_insert_eq.
  - intros Time Team to_timestamp of_timestamp json_Marshal json_Unmarshal
      m m' F F' d d' blueJSON redJSON blue red Hseq Hins HF' Hb Hb' Hr Hr'.
    crud_cbv. rewrite Hb, Hr in Hins.
    destruct (F 0%nat); [discriminate |]. cbn in Hins.
    destruct (matches d !! matches_id_seq d) eqn:Hkey; [discriminate |].
    injection Hins as <- <-. cbn.
    destruct (Z.ltb_spec (matches_id_seq d) 1); [lia |].
    rewrite HF'. cbn. rewrite lookup_insert_eq. cbn. now rewrite Hb', Hr'.
Qed.

Lemma insert_then_get_witness :
  let seconds (ms : Z) := ms / 1000 in
  let millis (s : Z) := s * 1000 in
  let encode (t : option string) := t in
  let r := run (MatchModel.Insert seconds encode a_match) no_faults empty_store in
  exists m',
    r = (Ret m', snd r) /\
    fst (run (MatchModel.Get millis Some (MatchModel.match_ID m')) no_faults (snd r))
      = Ret {| MatchModel.match_ID := 1; MatchModel.PlayedDate := 1700000000000;
               MatchModel.Duration := 1800; MatchModel.Result := "blue";
               MatchModel.BlueTeam := Some "{}"; MatchModel.RedTeam := Some "[]" |}.
Proof.
  intros seconds millis encode r.
  destruct insert_then_get as (_ & _ & Hmatch).
  assert (Hr : r = (Ret {| MatchModel.match_ID := 1; MatchModel.PlayedDate := 1700000000123;
                          MatchModel.Duration := 1800; MatchModel.Result := "blue";
                          MatchModel.BlueTeam := Some "{}"%string;
                          MatchModel.RedTeam := Some "[]"%string |}, snd r))
    by (vm_compute; reflexivity).
  eexists. split; [exact Hr |].
  erewrite (Hmatch Z string seconds millis encode Some a_match _ no_faults no_faults
              empty_store (snd r) "{}"%string "[]"%string "{}"%string "[]"%string);
    [reflexivity | vm_compute; discriminate | exact Hr | reflexivity ..].
Defined.

(** ** C5: NotFound *)

(** C5 as stated fails for Update. The empty store holds no summoner and no
    champion; Update with the non-positive id 0 and with the absent id 7
    returns nil, not NotFound, and changes nothing. *)
Lemma update_absent_returns_nil :
  let s7 := with_ID a_summoner 7 in
  ID a_summoner < 1 /\
  summoners empty_store !! ID a_summoner = None /\ summoners empty_store !! ID s7 = None /\
  run (SummonerModel.Update a_summoner) no_faults empty_store = (Ret tt, empty_store) /\
  run (SummonerModel.Update s7) no_faults empty_store = (Ret tt, empty_store) /\
  run (ChampionModel.Update a_champion) no_faults empty_store = (Ret tt, empty_store).
Proof. vm_compute. repeat split. Qed.

Lemma store_eta (d : DB) :
  {| summoners := summoners d; summoners_id_seq := summoners_id_seq d;
     champions := champions d; champions_id_seq := champions_id_seq d;
     matches := matches d; matches_id_seq := matches_id_seq d;
     summoner_champion_stats := summoner_champion_stats d;
     summoner_role_stats := summoner_role_stats d;
     champion_best_summoners := champion_best_summoners d |} = d.
Proof. now destruct d. Qed.

Lemma alter_absent {K A} `{Countable K} (f : A -> A) (m : gmap K A) k :
  m !! k = None -> alter f k m = m.
Proof.
  intros Hk. apply map_eq. intros j. rewrite lookup_alter.
  case_decide; subst; [now rewrite Hk | reflexivity].
Qed.

(** C5, amended. For summoners, champions and matches: Get and Delete return
    NotFound for every id below 1 and, when the driver reports no failure,
    for every id absent from the table.  Update never returns NotFound: on
    an absent id (as every non-positive id is in a store keyed by its
    sequence) it changes no row and returns nil, unless the driver fails
    or, for a match, a team cannot be sent. *)
Theorem not_found_get_delete_only :
  (not_found_on (fun id => bind (SummonerModel.Get id) (fun _ => ret tt))
                SummonerModel.Delete (fun d id => summoners d !! id = None) /\
   update_silent_on SummonerModel.Update ID
                (fun d id => summoners d !! id = None) (fun _ => True)) /\
  (not_found_on (fun id => bind (ChampionModel.Get id) (fun _ => ret tt))
                ChampionModel.Delete (fun d id => champions d !! id = None) /\
   update_silent_on ChampionModel.Update champion_ID
                (fun d id => champions d !! id = None) (fun _ => True)) /\
  (forall (Time Team : Type) (to_timestamp : Time -> Z) (of_timestamp : Z -> Time)
          (json_Marshal : option Team -> option string)
          (json_Unmarshal : string -> option Team),
     not_found_on (fun id => bind (MatchModel.Get of_timestamp json_Unmarshal id)
                                  (fun _ => ret tt))
                  MatchModel.Delete (fun d id => matches d !! id = None) /\
     update_silent_on (MatchModel.Update to_timestamp json_Marshal) MatchModel.match_ID
                  (fun d id => matches d !! id = None)
                  (fun m => exists blue red,
                     MatchModel.team_Value json_Marshal (MatchModel.BlueTeam m) = inr blue /\
                     MatchModel.team_Value json_Marshal (MatchModel.RedTeam m) = inr red)).
Proof.
  split; [| split].
  - split.
    + intros F d id Hid. crud_cbv.
      destruct (Z.ltb_spec id 1) as [Hlt | Hge]; [now split |].
      destruct Hid as [Hlt | (Habs & HF0 & HF1)]; [lia |].
      rewrite HF0, Habs. cbn. rewrite HF1. cbn. now split.
    + intros F d s. crud_cbv. destruct (F 0%nat); cbn.
      * split; [discriminate |]. intros _. split; [reflexivity | discriminate].
      * split; [discriminate |]. intros Habs.
        unfold set_summoners. rewrite alter_absent by assumption.
        split; [apply store_eta | reflexivity].
  - split.
    + intros F d id Hid. crud_cbv.
      destruct (Z.ltb_spec id 1) as [Hlt | Hge]; [now split |].
      destruct Hid as [Hlt | (Habs & HF0 & HF1)]; [lia |].
      rewrite HF0, Habs. cbn. rewrite HF1. cbn. now split.
    + intros F d s. crud_cbv. destruct (F 0%nat); cbn.
      * split; [discriminate |]. intros _. split; [reflexivity | discriminate].
      * split; [discriminate |]. intros Habs.
        unfold set_champions. rewrite alter_absent by assumption.
        split; [apply store_eta | reflexivity].
  - intros Time Team to_timestamp of_timestamp json_Marshal json_Unmarshal. split.
    + intros F d id Hid. crud_cbv.
      destruct (Z.ltb_spec id 1) as [Hlt | Hge]; [now split |].
      destruct Hid as [Hlt | (Habs & HF0 & HF1)]; [lia |].
      rewrite HF0, Habs. cbn. rewrite HF1. cbn. now split.
    + intros F d m. unfold MatchModel.Update.
      destruct (MatchModel.team_Value json_Marshal (MatchModel.BlueTeam m)) as [eb | blue] eqn:Hb;
        [| destruct (MatchModel.team_Value json_Marshal (MatchModel.RedTeam m))
             as [er | red] eqn:Hr].
      * assert (eb <> ErrRecordNotFound).
        { unfold MatchModel.team_Value in Hb.
          destruct (MatchModel.BlueTeam m); [destruct (json_Marshal _) |];
            injection Hb as <- || discriminate; discriminate. }
        crud_cbv. split; [congruence |]. intros _. split; [reflexivity |].
        intros (b & r & Hb' & _). congruence.
      * assert (er <> ErrRecordNotFound).
        { unfold MatchModel.team_Value in Hr.
          destruct (MatchModel.RedTeam m); [destruct (json_Marshal _) |];
            injection Hr as <- || discriminate; discriminate. }
        crud_cbv. split; [congruence |]. intros _. split; [reflexivity |].
        intros (b & r & _ & Hr'). congruence.
      * crud_cbv. destruct (F 0%nat); cbn.
        -- split; [discriminate |]. intros _. split; [reflexivity | discriminate].
        -- split; [discriminate |]. intros Habs.
           unfold set_matches. rewrite alter_absent by assumption.
           split; [apply store_eta | reflexivity].
Qed.

Lemma not_found_get_delete_only_witness :
  run (SummonerModel.Delete 7) no_faults seeded_store
    = (Fail ErrRecordNotFound, seeded_store) /\
  run (ChampionModel.Delete 0) (fail_call 0) seeded_store
    = (Fail ErrRecordNotFound, seeded_store) /\
  run (SummonerModel.Update (with_ID a_summoner 7)) no_faults seeded_store
    = (Ret tt, seeded_store).
Proof.
  destruct not_found_get_delete_only as ((Hs & Hsu) & (Hc & _) & _).
  split; [| split].
  - apply (Hs no_faults seeded_store 7). right. repeat split.
  - apply (Hc (fail_call 0) seeded_store 0). left. lia.
  - destruct (Hsu no_faults seeded_store (with_ID a_summoner 7)) as [_ Hu].
    destruct Hu as [Hsame Hnil]; [reflexivity |].
    rewrite <- Hsame at 2. rewrite <- (Hnil I eq_refl). now destruct (run _ _ _).
Defined.

(** ** Rounding in binary64 *)

Module Rounding.

Lemma bpow_pos e : (0 < bpow e)%R.
Proof. apply powerRZ_lt. lra. Qed.

Lemma bpow_plus a b : bpow (a + b) = (bpow a * bpow b)%R.
Proof. apply powerRZ_add. lra. Qed.

Lemma bpow_succ e : bpow (e + 1) = (2 * bpow e)%R.
Proof. rewrite bpow_plus. unfold bpow at 2. simpl. lra. Qed.

Lemma bpow_0 : bpow 0 = 1%R.
Proof. reflexivity. Qed.

Lemma bpow_IZR k : 0 <= k -> bpow k = IZR (2 ^ k).
Proof.
  intros Hk. pattern k. apply natlike_ind; [reflexivity | | assumption].
  intros x Hx IH. unfold Z.succ. rewrite bpow_succ, IH, Z.pow_add_r by lia.
  rewrite mult_IZR. simpl. lra.
Qed.

Lemma bpow_le a b : a <= b -> (bpow a <= bpow b)%R.
Proof.
  intros Hab. replace b with (a + (b - a)) by lia.
  rewrite bpow_plus, (bpow_IZR (b - a)) by lia.
  pose proof (bpow_pos a). assert (1 <= IZR (2 ^ (b - a)))%R.
  { apply IZR_le. pose proof (Z.pow_pos_nonneg 2 (b - a)). lia. }
  nra.
Qed.

Lemma bpow_lt a b : a < b -> (bpow a < bpow b)%R.
Proof.
  intros Hab. replace b with (a + 1 + (b - a - 1)) by lia.
  pose proof (bpow_le (a + 1) (a + 1 + (b - a - 1))). rewrite bpow_succ in *.
  pose proof (bpow_pos a). assert (a + 1 <= a + 1 + (b - a - 1)) by lia. intuition lra.
Qed.

Lemma F2R_shift m e k : 0 <= k -> F2R (m * 2 ^ k) e = F2R m (e + k).
Proof.
  intros Hk. unfold F2R. rewrite mult_IZR, bpow_plus, (bpow_IZR k) by assumption. lra.
Qed.

(** *** Binary digits *)

Lemma digits2_pos_bounds (m : positive) :
  2 ^ (Zpos (digits2_pos m) - 1) <= Zpos m < 2 ^ Zpos (digits2_pos m).
Proof.
  induction m as [m IH | m IH |]; cbn [digits2_pos]; [| | cbn; lia].
  - rewrite Pos2Z.inj_succ. replace (Z.succ (Zpos (digits2_pos m)) - 1) with (Z.succ (Zpos (digits2_pos m) - 1)) by lia.
    rewrite !Z.pow_succ_r by lia. lia.
  - rewrite Pos2Z.inj_succ. replace (Z.succ (Zpos (digits2_pos m)) - 1) with (Z.succ (Zpos (digits2_pos m) - 1)) by lia.
    rewrite !Z.pow_succ_r by lia. lia.
Qed.

Lemma Zdigits2_bounds m : 0 < m -> 2 ^ (Zdigits2 m - 1) <= m < 2 ^ Zdigits2 m.
Proof. destruct m as [| p | p]; try lia. intros _. apply digits2_pos_bounds. Qed.

Lemma Zdigits2_pos m : 0 < m -> 0 < Zdigits2 m.
Proof. destruct m; cbn; lia. Qed.

(** The number of digits is determined by the bracketing powers of two. *)
Lemma Zdigits2_unique m d : 0 < d -> 2 ^ (d - 1) <= m < 2 ^ d -> Zdigits2 m = d.
Proof.
  intros Hd [Hlo Hhi].
  assert (Hm : 0 < m) by (pose proof (Z.pow_pos_nonneg 2 (d - 1)); lia).
  pose proof (Zdigits2_bounds m Hm) as [Hlo' Hhi'].
  pose proof (Zdigits2_pos m Hm).
  destruct (Z.lt_trichotomy (Zdigits2 m) d) as [Hlt | [Heq | Hgt]]; [| assumption |].
  - assert (2 ^ Zdigits2 m <= 2 ^ (d - 1)) by (apply Z.pow_le_mono_r; lia). lia.
  - assert (2 ^ d <= 2 ^ (Zdigits2 m - 1)) by (apply Z.pow_le_mono_r; lia). lia.
Qed.

Lemma Zdigits2_le m d : 0 <= d -> 0 <= m < 2 ^ d -> Zdigits2 m <= d.
Proof.
  intros Hd [Hlo Hhi]. destruct (Z.eq_dec m 0) as [-> | Hne]; [cbn; lia |].
  pose proof (Zdigits2_bounds m ltac:(lia)) as [Hlo' _].
  destruct (Z.le_gt_cases (Zdigits2 m) d); [assumption |].
  assert (2 ^ d <= 2 ^ (Zdigits2 m - 1)) by (apply Z.pow_le_mono_r; lia). lia.
Qed.

Lemma Zdigits2_ge m d : 2 ^ (d - 1) <= m -> 0 < d -> d <= Zdigits2 m.
Proof.
  intros Hlo Hd.
  assert (Hm : 0 < m) by (pose proof (Z.pow_pos_nonneg 2 (d - 1)); lia).
  pose proof (Zdigits2_bounds m Hm) as [_ Hhi].
  destruct (Z.le_gt_cases d (Zdigits2 m)); [assumption |].
  assert (2 ^ Zdigits2 m <= 2 ^ (d - 1)) by (apply Z.pow_le_mono_r; lia). lia.
Qed.

(** *** Locations and right shifts *)

Lemma inbetween_bounds m e l v :
  inbetween m e l v -> (F2R m e <= v < F2R m e + bpow e)%R.
Proof.
  pose proof (bpow_pos e). destruct l as [| []]; cbn; lra.
Qed.

Lemma inbetween_inexact m e c v : inbetween m e (loc_Inexact c) v -> (F2R m e < v)%R.
Proof. pose proof (bpow_pos e). destruct c; cbn; lra. Qed.

Lemma loc_of_shr_record_of_loc m l : loc_of_shr_record (shr_record_of_loc m l) = l.
Proof. now destruct l as [| []]. Qed.

Lemma shr_m_shr_record_of_loc m l : shr_m (shr_record_of_loc m l) = m.
Proof. now destruct l as [| []]. Qed.

Lemma shr_1_div2 mrs : 0 <= shr_m mrs -> shr_m (shr_1 mrs) = shr_m mrs / 2.
Proof.
  destruct mrs as [m r s]. cbn [shr_m]. intros Hm.
  destruct m as [| [p | p |] | p]; try lia; cbn [shr_1 shr_m].
  - reflexivity.
  - rewrite Pos2Z.inj_xI. apply (Z.div_unique _ _ _ 1); lia.
  - rewrite Pos2Z.inj_xO. apply (Z.div_unique _ _ _ 0); lia.
  - reflexivity.
Qed.

Lemma shr_1_inbetween mrs e v :
  0 <= shr_m mrs ->
  inbetween (shr_m mrs) e (loc_of_shr_record mrs) v ->
  inbetween (shr_m (shr_1 mrs)) (e + 1) (loc_of_shr_record (shr_1 mrs)) v.
Proof.
  destruct mrs as [m r s]. cbn [shr_m]. intros Hm Hin.
  pose proof (bpow_pos e) as Hu.
  destruct m as [| [p | p |] | p]; try lia.
  all: destruct r, s; unfold inbetween, shr_1, loc_of_shr_record, shr_m, orb, F2R in *;
    rewrite bpow_succ;
    try rewrite Pos2Z.inj_xI, plus_IZR, mult_IZR in Hin;
    try rewrite Pos2Z.inj_xO, mult_IZR in Hin;
    revert Hin Hu; generalize (bpow e); intros u Hin Hu.
  all: try (revert Hin; generalize (IZR (Zpos p)); intros x Hin).
  all: lra.
Qed.

Lemma shr_1_spec mrs e v :
  0 <= shr_m mrs ->
  inbetween (shr_m mrs) e (loc_of_shr_record mrs) v ->
  inbetween (shr_m (shr_1 mrs)) (e + 1) (loc_of_shr_record (shr_1 mrs)) v /\
  shr_m (shr_1 mrs) = shr_m mrs / 2.
Proof. intros Hm Hin. split; [now apply shr_1_inbetween | now apply shr_1_div2]. Qed.

Lemma pow2_xO p : 2 ^ Zpos p~0 = 2 ^ Zpos p * 2 ^ Zpos p.
Proof. rewrite <- Z.pow_add_r by lia. f_equal. lia. Qed.

Lemma pow2_xI p : 2 ^ Zpos p~1 = 2 * 2 ^ Zpos p * 2 ^ Zpos p.
Proof. rewrite <- Z.mul_assoc, <- pow2_xO, <- Z.pow_succ_r by lia. f_equal. Qed.

Lemma iter_pos_shr_1_spec p : forall mrs e v,
  0 <= shr_m mrs ->
  inbetween (shr_m mrs) e (loc_of_shr_record mrs) v ->
  inbetween (shr_m (SpecFloat.iter_pos shr_1 p mrs)) (e + Zpos p)
            (loc_of_shr_record (SpecFloat.iter_pos shr_1 p mrs)) v /\
  shr_m (SpecFloat.iter_pos shr_1 p mrs) = shr_m mrs / 2 ^ Zpos p.
Proof.
  induction p as [p IH | p IH |]; intros mrs e v Hm Hin; cbn [SpecFloat.iter_pos].
  - destruct (shr_1_spec mrs e v Hm Hin) as [H1 E1].
    assert (Hm1 : 0 <= shr_m (shr_1 mrs)) by (rewrite E1; apply Z.div_pos; lia).
    destruct (IH _ _ _ Hm1 H1) as [H2 E2].
    assert (Hm2 : 0 <= shr_m (SpecFloat.iter_pos shr_1 p (shr_1 mrs)))
      by (rewrite E2; apply Z.div_pos; [| apply Z.pow_pos_nonneg]; lia).
    destruct (IH _ _ _ Hm2 H2) as [H3 E3].
    split.
    + replace (e + Zpos p~1) with (e + 1 + Zpos p + Zpos p) by lia. exact H3.
    + assert (0 < 2 ^ Zpos p) by (apply Z.pow_pos_nonneg; lia).
      rewrite E3, E2, E1, !Z.div_div by nia. f_equal. rewrite pow2_xI. ring.
  - destruct (IH _ _ _ Hm Hin) as [H2 E2].
    assert (Hm2 : 0 <= shr_m (SpecFloat.iter_pos shr_1 p mrs))
      by (rewrite E2; apply Z.div_pos; [| apply Z.pow_pos_nonneg]; lia).
    destruct (IH _ _ _ Hm2 H2) as [H3 E3].
    split.
    + replace (e + Zpos p~0) with (e + Zpos p + Zpos p) by lia. exact H3.
    + assert (0 < 2 ^ Zpos p) by (apply Z.pow_pos_nonneg; lia).
      rewrite E3, E2, !Z.div_div by nia. f_equal. rewrite pow2_xO. ring.
  - destruct (shr_1_spec mrs e v Hm Hin) as [H1 E1]. split; [exact H1 |].
    rewrite E1. reflexivity.
Qed.

Lemma fexp_eq e : fexp e = Z.max (e - 53) (-1074).
Proof. reflexivity. Qed.

(** The first step of rounding: the mantissa is cut to the exponent of the
    format, and the location follows. *)
Lemma shr_fexp_spec m e l v :
  0 <= m -> inbetween m e l v -> e <= fexp (Zdigits2 m + e) ->
  let mrs := fst (shr_fexp prec emax m e l) in
  let e1 := snd (shr_fexp prec emax m e l) in
  e1 = fexp (Zdigits2 m + e) /\
  inbetween (shr_m mrs) e1 (loc_of_shr_record mrs) v /\
  shr_m mrs = m / 2 ^ (e1 - e).
Proof.
  intros Hm Hin He. unfold shr_fexp, shr. fold (fexp (Zdigits2 m + e)).
  destruct (fexp (Zdigits2 m + e) - e) as [| p | p] eqn:Hk; cbn [fst snd]; try lia.
  - rewrite loc_of_shr_record_of_loc, shr_m_shr_record_of_loc.
    split; [lia |]. split; [assumption |].
    rewrite Z.sub_diag. cbn. now rewrite Z.div_1_r.
  - destruct (iter_pos_shr_1_spec p (shr_record_of_loc m l) e v) as [H1 E1].
    + now rewrite shr_m_shr_record_of_loc.
    + now rewrite loc_of_shr_record_of_loc, shr_m_shr_record_of_loc.
    + rewrite shr_m_shr_record_of_loc in E1. split; [lia |].
      split; [exact H1 |]. rewrite E1. f_equal. f_equal. lia.
Qed.

(** *** Canonical mantissas *)

Lemma fexp_ge_emin x : -1074 <= fexp x.
Proof. rewrite fexp_eq. lia. Qed.

Lemma fexp_mono x y : x <= y -> fexp x <= fexp y.
Proof. rewrite !fexp_eq. lia. Qed.

Lemma canonical_cases m e :
  canonical m e -> -1074 <= e /\ Zdigits2 m <= 53 /\ (Zdigits2 m = 53 \/ e = -1074).
Proof. unfold canonical. rewrite fexp_eq. lia. Qed.

Lemma canonical_upper m e : 0 < m -> canonical m e -> m < 2 ^ 53.
Proof.
  intros Hm Hc. apply canonical_cases in Hc as (_ & Hd & _).
  pose proof (Zdigits2_bounds m Hm) as [_ Hhi].
  assert (2 ^ Zdigits2 m <= 2 ^ 53) by (apply Z.pow_le_mono_r; lia). lia.
Qed.

Lemma canonical_normal m e : 0 < m -> canonical m e -> -1074 < e -> 2 ^ 52 <= m.
Proof.
  intros Hm Hc He. apply canonical_cases in Hc as (_ & _ & [Hd | ->]); [| lia].
  pose proof (Zdigits2_bounds m Hm) as [Hlo _]. now rewrite Hd in Hlo.
Qed.

Lemma Zdigits2_mono m n : 0 < m <= n -> Zdigits2 m <= Zdigits2 n.
Proof.
  intros [Hm Hmn]. pose proof (Zdigits2_bounds m Hm) as [Hlo _].
  apply Zdigits2_ge; [lia | now apply Zdigits2_pos].
Qed.

Lemma Zdigits2_div_pow m k :
  0 < m -> 0 <= k -> k < Zdigits2 m ->
  0 < m / 2 ^ k /\ Zdigits2 (m / 2 ^ k) = Zdigits2 m - k.
Proof.
  intros Hm Hk Hkd. pose proof (Zdigits2_bounds m Hm) as [Hlo Hhi].
  assert (Hp : 0 < 2 ^ k) by (apply Z.pow_pos_nonneg; lia).
  assert (Hlo' : 2 ^ (Zdigits2 m - k - 1) <= m / 2 ^ k).
  { apply Z.div_le_lower_bound; [assumption |].
    rewrite <- Z.pow_add_r by lia. now replace (k + (Zdigits2 m - k - 1)) with (Zdigits2 m - 1) by lia. }
  assert (Hhi' : m / 2 ^ k < 2 ^ (Zdigits2 m - k)).
  { apply Z.div_lt_upper_bound; [assumption |].
    rewrite <- Z.pow_add_r by lia. now replace (k + (Zdigits2 m - k)) with (Zdigits2 m) by lia. }
  split.
  - pose proof (Z.pow_pos_nonneg 2 (Zdigits2 m - k - 1)). lia.
  - apply Zdigits2_unique; [lia | split; assumption].
Qed.

Lemma div_pow_zero m k : 0 < m -> 0 <= k -> m / 2 ^ k = 0 -> Zdigits2 m <= k.
Proof.
  intros Hm Hk Hz. destruct (Z.le_gt_cases (Zdigits2 m) k) as [| Hlt]; [assumption |].
  destruct (Zdigits2_div_pow m k Hm Hk Hlt). lia.
Qed.

(** *** Comparing values and comparing (exponent, mantissa) pairs *)

Lemma F2R_le_same_exp m n e : (F2R m e <= F2R n e)%R <-> m <= n.
Proof.
  unfold F2R. pose proof (bpow_pos e). split.
  - intros Hle. apply le_IZR. nra.
  - intros Hle. apply IZR_le in Hle. nra.
Qed.

Lemma F2R_lt_same_exp m n e : (F2R m e < F2R n e)%R <-> m < n.
Proof.
  unfold F2R. pose proof (bpow_pos e). split.
  - intros Hlt. apply lt_IZR. nra.
  - intros Hlt. apply IZR_lt in Hlt. nra.
Qed.

Lemma F2R_lower_exp m e e' : e' <= e -> F2R m e = F2R (m * 2 ^ (e - e')) e'.
Proof.
  intros He. rewrite F2R_shift by lia. f_equal. lia.
Qed.

Lemma canonical_exp_lt m1 e1 m2 e2 :
  0 < m1 -> canonical m1 e1 -> 0 < m2 -> canonical m2 e2 -> e2 < e1 ->
  (F2R m2 e2 < F2R m1 e1)%R.
Proof.
  intros Hm1 Hc1 Hm2 Hc2 He.
  pose proof (canonical_cases _ _ Hc2) as (He2 & _).
  pose proof (canonical_normal _ _ Hm1 Hc1 ltac:(lia)) as Hlo.
  pose proof (canonical_upper _ _ Hm2 Hc2) as Hhi.
  rewrite (F2R_lower_exp m1 e1 e2) by lia.
  apply F2R_lt_same_exp.
  assert (2 ^ 1 <= 2 ^ (e1 - e2)) by (apply Z.pow_le_mono_r; lia).
  change (2 ^ 1) with 2 in *. nia.
Qed.

Lemma canonical_F2R_le m1 e1 m2 e2 :
  0 < m1 -> canonical m1 e1 -> 0 < m2 -> canonical m2 e2 ->
  (F2R m1 e1 <= F2R m2 e2)%R -> lex_le m1 e1 m2 e2.
Proof.
  intros Hm1 Hc1 Hm2 Hc2 Hle. unfold lex_le.
  destruct (Z.lt_trichotomy e1 e2) as [Hlt | [-> | Hgt]]; [now left | |].
  - right. split; [reflexivity |]. now apply F2R_le_same_exp in Hle.
  - pose proof (canonical_exp_lt m1 e1 m2 e2 Hm1 Hc1 Hm2 Hc2 Hgt). lra.
Qed.

Lemma lex_le_F2R m1 e1 m2 e2 :
  0 < m1 -> canonical m1 e1 -> 0 < m2 -> canonical m2 e2 ->
  lex_le m1 e1 m2 e2 -> (F2R m1 e1 <= F2R m2 e2)%R.
Proof.
  intros Hm1 Hc1 Hm2 Hc2 [Hlt | [-> Hle]].
  - pose proof (canonical_exp_lt m2 e2 m1 e1 Hm2 Hc2 Hm1 Hc1 Hlt). lra.
  - now apply F2R_le_same_exp.
Qed.

(** *** Rounding stays below a representable bound *)

Lemma round_nearest_even_cases m l :
  round_nearest_even m l = m \/
  (round_nearest_even m l = m + 1 /\ exists c, l = loc_Inexact c).
Proof.
  destruct l as [| []]; cbn; eauto. destruct (Z.even m); eauto.
Qed.

Theorem binary_round_aux_le m e l v mb eb :
  0 <= m -> inbetween m e l v -> e <= fexp (Zdigits2 m + e) ->
  0 < mb -> canonical mb eb -> eb <= emax - prec ->
  (v <= F2R mb eb)%R ->
  round_le (binary_round_aux prec emax false m e l) mb eb.
Proof.
  intros Hm Hin He Hmb Hcb Heb Hv. unfold binary_round_aux.
  pose proof (shr_fexp_spec m e l v Hm Hin He) as (E1 & Hin1 & Em1).
  destruct (shr_fexp prec emax m e l) as [mrs1 e1]. cbn [fst snd] in E1, Hin1, Em1.
  set (m1 := shr_m mrs1) in *. set (l1 := loc_of_shr_record mrs1) in *.
  assert (Hk : 0 <= e1 - e) by lia.
  assert (Hp : 0 < 2 ^ (e1 - e)) by (apply Z.pow_pos_nonneg; lia).
  assert (Hm1 : 0 <= m1) by (rewrite Em1; apply Z.div_pos; lia).
  assert (Hc1 : 0 < m1 -> canonical m1 e1).
  { intros Hpos. assert (Hmpos : 0 < m).
    { destruct (Z.eq_dec m 0) as [-> | ]; [| lia]. rewrite Z.div_0_l in Em1; lia. }
    destruct (Z.le_gt_cases (Zdigits2 m) (e1 - e)) as [Hge | Hlt].
    - assert (m / 2 ^ (e1 - e) = 0); [| lia].
      apply Z.div_small. pose proof (Zdigits2_bounds m Hmpos) as [_ Hhi].
      assert (2 ^ Zdigits2 m <= 2 ^ (e1 - e)) by (apply Z.pow_le_mono_r; lia). lia.
    - destruct (Zdigits2_div_pow m (e1 - e) Hmpos Hk Hlt) as [_ Hd].
      unfold canonical. rewrite Em1, Hd.
      replace (Zdigits2 m - (e1 - e) + e1) with (Zdigits2 m + e) by lia. now symmetry. }
  assert (Hz1 : m1 = 0 -> e1 = -1074).
  { intros Hz. rewrite Hz in Em1. symmetry in Em1.
    assert (Zdigits2 m <= e1 - e).
    { destruct (Z.eq_dec m 0) as [-> | ]; [cbn; lia |].
      apply div_pow_zero; [lia | lia | assumption]. }
    rewrite fexp_eq in E1. lia. }
  set (mr := round_nearest_even m1 l1).
  assert (Hmr : (F2R mr e1 <= F2R mb eb)%R /\ m1 <= mr).
  { unfold mr. destruct (round_nearest_even_cases m1 l1) as [-> | [-> [c Hc]]].
    - pose proof (inbetween_bounds _ _ _ _ Hin1). split; [lra | lia].
    - split; [| lia]. rewrite Hc in Hin1. apply inbetween_inexact in Hin1.
      destruct (Z.le_gt_cases e1 eb) as [Hle | Hgt].
      + rewrite (F2R_lower_exp mb eb e1) in Hv |- * by assumption.
        apply F2R_le_same_exp.
        assert (m1 < mb * 2 ^ (eb - e1)); [| lia].
        apply (F2R_lt_same_exp _ _ e1). lra.
      + pose proof (canonical_cases _ _ Hcb) as (Heb' & _).
        assert (0 < m1) by (destruct (Z.eq_dec m1 0) as [Hz | ]; [apply Hz1 in Hz |]; lia).
        pose proof (canonical_exp_lt m1 e1 mb eb ltac:(assumption) (Hc1 ltac:(assumption))
                      Hmb Hcb Hgt).
        lra. }
  destruct Hmr as [Hmr Hle1].
  assert (He1 : e1 <= fexp (Zdigits2 mr + e1)).
  { destruct (Z.eq_dec m1 0) as [Hz | Hnz].
    - rewrite (Hz1 Hz). apply fexp_ge_emin.
    - pose proof (Hc1 ltac:(lia)) as Hc. unfold canonical in Hc.
      apply Z.le_trans with (fexp (Zdigits2 m1 + e1)); [lia |].
      apply fexp_mono. pose proof (Zdigits2_mono m1 mr). lia. }
  pose proof (shr_fexp_spec mr e1 loc_Exact (F2R mr e1) ltac:(lia) eq_refl He1)
    as (E2 & Hin2 & Em2).
  destruct (shr_fexp prec emax mr e1 loc_Exact) as [mrs2 e2]. cbn [fst snd] in E2, Hin2, Em2.
  set (m2 := shr_m mrs2) in *.
  assert (Hk2 : 0 <= e2 - e1) by lia.
  assert (Hp2 : 0 < 2 ^ (e2 - e1)) by (apply Z.pow_pos_nonneg; lia).
  pose proof (inbetween_bounds _ _ _ _ Hin2) as [Hlo2 _].
  destruct m2 as [| p | p] eqn:Hm2.
  - now left.
  - right. assert (Hmrpos : 0 < mr).
    { destruct (Z.eq_dec mr 0) as [Hz | ]; [| lia].
      rewrite Hz, Z.div_0_l in Em2; lia. }
    assert (Hc2 : canonical (Zpos p) e2).
    { destruct (Z.le_gt_cases (Zdigits2 mr) (e2 - e1)) as [Hge | Hlt].
      - assert (mr / 2 ^ (e2 - e1) = 0); [| lia].
        apply Z.div_small. pose proof (Zdigits2_bounds mr Hmrpos) as [_ Hhi].
        assert (2 ^ Zdigits2 mr <= 2 ^ (e2 - e1)) by (apply Z.pow_le_mono_r; lia). lia.
      - destruct (Zdigits2_div_pow mr (e2 - e1) Hmrpos Hk2 Hlt) as [_ Hd].
        unfold canonical. rewrite Em2, Hd.
        replace (Zdigits2 mr - (e2 - e1) + e2) with (Zdigits2 mr + e1) by lia.
        now symmetry. }
    assert (Hlex : lex_le (Zpos p) e2 mb eb).
    { apply canonical_F2R_le; try assumption; [lia | lra]. }
    assert (He2 : e2 <= emax - prec) by (destruct Hlex as [? | [? _]]; lia).
    destruct (Z.leb_spec e2 (emax - prec)); [| lia].
    exists p, e2. split; [reflexivity |]. split; [| assumption].
    unfold SpecFloat.bounded, canonical_mantissa. apply andb_true_intro. split.
    + apply Z.eqb_eq. exact Hc2.
    + now apply Z.leb_le.
  - assert (0 <= mr / 2 ^ (e2 - e1)) by (apply Z.div_pos; lia). lia.
Qed.

(** *** Left alignment and [binary_round] *)

Lemma Zdigits2_mul_pow m k : 0 < m -> 0 <= k -> Zdigits2 (m * 2 ^ k) = Zdigits2 m + k.
Proof.
  intros Hm Hk. pose proof (Zdigits2_bounds m Hm) as [Hlo Hhi].
  pose proof (Zdigits2_pos m Hm).
  assert (Hp : 0 < 2 ^ k) by (apply Z.pow_pos_nonneg; lia).
  apply Zdigits2_unique; [lia |].
  replace (Zdigits2 m + k - 1) with (Zdigits2 m - 1 + k) by lia.
  rewrite !Z.pow_add_r by lia. nia.
Qed.

Lemma Zdigits2_mul m n : 0 < m -> 0 < n -> Zdigits2 m + Zdigits2 n - 1 <= Zdigits2 (m * n).
Proof.
  intros Hm Hn.
  pose proof (Zdigits2_bounds m Hm) as [Hm1 _]. pose proof (Zdigits2_bounds n Hn) as [Hn1 _].
  pose proof (Zdigits2_pos m Hm). pose proof (Zdigits2_pos n Hn).
  apply Zdigits2_ge; [| lia].
  replace (Zdigits2 m + Zdigits2 n - 1 - 1) with ((Zdigits2 m - 1) + (Zdigits2 n - 1)) by lia.
  rewrite Z.pow_add_r by lia.
  assert (0 < 2 ^ (Zdigits2 m - 1)) by (apply Z.pow_pos_nonneg; lia).
  assert (0 < 2 ^ (Zdigits2 n - 1)) by (apply Z.pow_pos_nonneg; lia).
  nia.
Qed.

Lemma iter_xO m d : Zpos (Pos.iter xO m d) = Zpos m * 2 ^ Zpos d.
Proof.
  induction d as [| d IH] using Pos.peano_ind.
  - cbn. lia.
  - rewrite Pos.iter_succ, Pos2Z.inj_xO, IH, Pos2Z.inj_succ, Z.pow_succ_r by lia. ring.
Qed.

(** [shl_align] towards a lower exponent keeps the value and reaches the
    exponent; towards a higher one it does nothing. *)
Lemma shl_align_spec mx ex ex' :
  let '(m, e) := shl_align mx ex ex' in
  e = Z.min ex ex' /\ Zpos m = Zpos mx * 2 ^ (ex - e).
Proof.
  unfold shl_align. destruct (ex' - ex) as [| d | d] eqn:Hd.
  - split; [lia |]. rewrite Z.sub_diag. cbn. lia.
  - split; [lia |]. rewrite Z.sub_diag. cbn. lia.
  - split; [lia |]. rewrite iter_xO. f_equal. f_equal. lia.
Qed.

Lemma shr_fexp_id m e l :
  fexp (Zdigits2 m + e) = e -> shr_fexp prec emax m e l = (shr_record_of_loc m l, e).
Proof.
  intros Hc. unfold shr_fexp. fold (fexp (Zdigits2 m + e)). now rewrite Hc, Z.sub_diag.
Qed.

(** A canonical mantissa is rounded to itself. *)
Lemma binary_round_aux_canonical m e :
  canonical (Zpos m) e -> e <= emax - prec ->
  binary_round_aux prec emax false (Zpos m) e loc_Exact = S754_finite false m e.
Proof.
  intros Hc He. unfold binary_round_aux.
  rewrite shr_fexp_id by exact Hc. cbn [shr_record_of_loc shr_m loc_of_shr_record round_nearest_even].
  rewrite shr_fexp_id by exact Hc. cbn [shr_record_of_loc shr_m].
  destruct (Z.leb_spec e (emax - prec)); [reflexivity | lia].
Qed.

Lemma bounded_canonical m e :
  SpecFloat.bounded prec emax m e = true <-> canonical (Zpos m) e /\ e <= emax - prec.
Proof.
  unfold SpecFloat.bounded, canonical_mantissa, canonical. rewrite andb_true_iff, Z.eqb_eq, Z.leb_le.
  reflexivity.
Qed.

(** [binary_round] of a positive mantissa stays below a representable
    bound. *)
Lemma binary_round_le m e mb eb :
  0 < mb -> canonical mb eb -> eb <= emax - prec ->
  (F2R (Zpos m) e <= F2R mb eb)%R ->
  round_le (binary_round prec emax false m e) mb eb.
Proof.
  intros Hmb Hcb Heb Hv. unfold binary_round. fold (fexp (Zpos (digits2_pos m) + e)).
  pose proof (shl_align_spec m e (fexp (Zpos (digits2_pos m) + e))) as Hal.
  destruct (shl_align m e _) as [mz ez]. destruct Hal as [Hez Hmz].
  assert (Hk : 0 <= e - ez) by lia.
  assert (Hval : F2R (Zpos mz) ez = F2R (Zpos m) e).
  { rewrite Hmz, F2R_shift by lia. f_equal. lia. }
  apply (binary_round_aux_le (Zpos mz) ez loc_Exact (F2R (Zpos mz) ez)); try assumption.
  - lia.
  - reflexivity.
  - rewrite Hmz, Zdigits2_mul_pow by lia.
    replace (Zdigits2 (Zpos m) + (e - ez) + ez) with (Zpos (digits2_pos m) + e)
      by (cbn [Zdigits2]; lia).
    lia.
  - now rewrite Hval.
Qed.

(** [binary_round] of a value the format holds is that value. *)
Lemma binary_round_exact m e :
  fexp (Zpos (digits2_pos m) + e) <= e -> fexp (Zpos (digits2_pos m) + e) <= emax - prec ->
  exists mz ez,
    binary_round prec emax false m e = S754_finite false mz ez /\
    SpecFloat.bounded prec emax mz ez = true /\
    F2R (Zpos mz) ez = F2R (Zpos m) e.
Proof.
  intros Hle Hmax. unfold binary_round. fold (fexp (Zpos (digits2_pos m) + e)).
  pose proof (shl_align_spec m e (fexp (Zpos (digits2_pos m) + e))) as Hal.
  destruct (shl_align m e _) as [mz ez]. destruct Hal as [Hez Hmz].
  assert (Hc : canonical (Zpos mz) ez).
  { unfold canonical. rewrite Hmz, Zdigits2_mul_pow by lia.
    replace (Zdigits2 (Zpos m) + (e - ez) + ez) with (Zpos (digits2_pos m) + e)
      by (cbn [Zdigits2]; lia).
    lia. }
  exists mz, ez. split; [apply binary_round_aux_canonical; [assumption | lia] |].
  split; [apply bounded_canonical; split; [assumption | lia] |].
  rewrite Hmz, F2R_shift by lia. f_equal. lia.
Qed.

(** *** Division *)

Lemma new_location_spec (n r : Z) (q e : Z) (v : R) :
  0 < n -> 0 <= r < n ->
  (v * IZR n = (IZR q * IZR n + IZR r) * bpow e)%R ->
  inbetween q e (new_location n r) v.
Proof.
  intros Hn Hr Hv. pose proof (bpow_pos e) as Hu.
  assert (Hny : (0 < IZR n)%R) by (apply IZR_lt; lia).
  set (rho := (IZR r / IZR n)%R).
  assert (Hrho : (IZR r = rho * IZR n)%R) by (unfold rho; field; lra).
  assert (Hval : (v = F2R q e + rho * bpow e)%R).
  { unfold F2R. apply (Rmult_eq_reg_r (IZR n)); [| lra]. rewrite Hv, Hrho. ring. }
  assert (Hlt : forall k : Z, k * r < n -> 0 < k -> (IZR k * rho < 1)%R).
  { intros k Hk Hkpos. apply IZR_lt in Hk. rewrite mult_IZR, Hrho in Hk.
    assert (0 < IZR k)%R by (apply IZR_lt; lia). nra. }
  assert (Hgt : forall k : Z, n < k * r -> 0 < k -> (1 < IZR k * rho)%R).
  { intros k Hk Hkpos. apply IZR_lt in Hk. rewrite mult_IZR, Hrho in Hk.
    assert (0 < IZR k)%R by (apply IZR_lt; lia). nra. }
  assert (Heq : 2 * r = n -> (2 * rho = 1)%R).
  { intros Hk. apply (f_equal IZR) in Hk. rewrite mult_IZR, Hrho in Hk. nra. }
  assert (Hpos : 0 < r -> (0 < rho)%R).
  { intros Hk. apply IZR_lt in Hk. rewrite Hrho in Hk. nra. }
  assert (Hzero : r = 0 -> rho = 0%R).
  { intros ->. unfold rho. field. lra. }
  unfold new_location, new_location_even, new_location_odd.
  destruct (Z.even n) eqn:Hev; destruct (Z.eqb_spec r 0) as [Hr0 | Hr0].
  - cbn. rewrite Hval, (Hzero Hr0). lra.
  - destruct (Z.compare_spec (2 * r) n) as [Hc | Hc | Hc]; cbn.
    + specialize (Heq Hc). rewrite Hval. nra.
    + specialize (Hlt 2 Hc ltac:(lia)). specialize (Hpos ltac:(lia)). rewrite Hval. nra.
    + specialize (Hgt 2 Hc ltac:(lia)).
      assert (rho < 1)%R by (specialize (Hlt 1 ltac:(lia) ltac:(lia)); lra).
      rewrite Hval. nra.
  - cbn. rewrite Hval, (Hzero Hr0). lra.
  - assert (Hodd : 2 * r <> n).
    { intros <-. rewrite Z.even_mul in Hev. discriminate. }
    destruct (Z.compare_spec (2 * r + 1) n) as [Hc | Hc | Hc]; cbn.
    + specialize (Hlt 2 ltac:(lia) ltac:(lia)). specialize (Hpos ltac:(lia)). rewrite Hval. nra.
    + specialize (Hlt 2 ltac:(lia) ltac:(lia)). specialize (Hpos ltac:(lia)). rewrite Hval. nra.
    + specialize (Hgt 2 ltac:(lia) ltac:(lia)).
      assert (rho < 1)%R by (specialize (Hlt 1 ltac:(lia) ltac:(lia)); lra).
      rewrite Hval. nra.
Qed.

(** The quotient digit string that [SFdiv] hands to the rounding: it
    brackets the exact quotient, and is long enough for the format. *)
Lemma SFdiv_core_binary_spec mx ex my ey :
  let '(q, e', l) := SFdiv_core_binary prec emax (Zpos mx) ex (Zpos my) ey in
  0 <= q /\
  inbetween q e' l (F2R (Zpos mx) ex / F2R (Zpos my) ey) /\
  e' <= fexp (Zdigits2 q + e').
Proof.
  unfold SFdiv_core_binary.
  remember (Zdigits2 (Zpos mx)) as d1 eqn:Hd1.
  remember (Zdigits2 (Zpos my)) as d2 eqn:Hd2.
  fold (fexp (d1 + ex - (d2 + ey))).
  remember (Z.min (fexp (d1 + ex - (d2 + ey))) (ex - ey)) as e' eqn:He'.
  remember (ex - ey - e') as s eqn:Hsdef.
  assert (Hs : 0 <= s) by lia.
  remember (match s with Zpos _ => Z.shiftl (Zpos mx) s | 0 => Zpos mx | Zneg _ => 0 end)
    as m' eqn:Hm'.
  assert (Hm'' : m' = Zpos mx * 2 ^ s).
  { rewrite Hm'. destruct s as [| p | p]; [cbn; lia | | lia].
    now rewrite Z.shiftl_mul_pow2 by lia. }
  clear Hm'.
  assert (Hp : 0 < 2 ^ s) by (apply Z.pow_pos_nonneg; lia).
  pose proof (Z.div_eucl_eq m' (Zpos my) ltac:(lia)) as Heucl.
  pose proof (Z.mod_pos_bound m' (Zpos my) ltac:(lia)) as Hmod.
  unfold Z.modulo in Hmod.
  destruct (Z.div_eucl m' (Zpos my)) as [q r] eqn:Hqr.
  assert (Hq : 0 <= q) by nia.
  pose proof (Zdigits2_bounds (Zpos mx) ltac:(lia)) as [Hlo1 Hhi1].
  pose proof (Zdigits2_bounds (Zpos my) ltac:(lia)) as [Hlo2 Hhi2].
  pose proof (Zdigits2_pos (Zpos mx) ltac:(lia)) as Hd1pos.
  pose proof (Zdigits2_pos (Zpos my) ltac:(lia)) as Hd2pos.
  rewrite <- Hd1 in Hlo1, Hhi1, Hd1pos. rewrite <- Hd2 in Hlo2, Hhi2, Hd2pos.
  split; [assumption |]. split.
  - apply new_location_spec; [lia | lia |].
    assert (Hy : (0 < IZR (Zpos my))%R) by (apply IZR_lt; lia).
    pose proof (bpow_pos ey). pose proof (bpow_pos e').
    assert (Hex : bpow ex = (IZR (2 ^ s) * bpow e' * bpow ey)%R).
    { rewrite <- (bpow_IZR s), <- !bpow_plus by lia. f_equal. lia. }
    apply (f_equal IZR) in Heucl. rewrite Hm'', plus_IZR, !mult_IZR in Heucl.
    unfold F2R. rewrite Hex.
    transitivity ((IZR (Zpos mx) * IZR (2 ^ s)) * bpow e')%R; [field; split; lra |].
    rewrite Heucl. ring.
  - rewrite fexp_eq in He'.
    destruct (Z.eq_dec q 0) as [-> | Hq0].
    + cbn [Zdigits2]. rewrite Z.add_0_l.
      assert (d1 + s <= d2).
      { assert (m' < Zpos my) by nia.
        assert (Hd : Zdigits2 m' = d1 + s)
          by (rewrite Hm'', Hd1; apply Zdigits2_mul_pow; lia).
        rewrite <- Hd, Hd2. apply Zdigits2_mono. nia. }
      rewrite fexp_eq. lia.
    + assert (Hdq : d1 + s - d2 <= Zdigits2 q); [| rewrite fexp_eq; lia].
      destruct (Z.le_gt_cases (d1 + s - d2) 0) as [Hle | Hgt].
      * pose proof (Zdigits2_pos q). lia.
      * apply Zdigits2_ge; [| lia].
        assert (Hpk : 0 < 2 ^ (d1 + s - d2 - 1)) by (apply Z.pow_pos_nonneg; lia).
        assert (2 ^ (d1 + s - d2 - 1) * 2 ^ d2 = 2 ^ (d1 - 1) * 2 ^ s).
        { rewrite <- !Z.pow_add_r by lia. f_equal. lia. }
        assert (2 ^ (d1 + s - d2 - 1) * Zpos my < m' + 1) by nia.
        nia.
Qed.

End Rounding.

(** ** Win rates stay fractions *)

Module Fractions.

Import Rounding.

Lemma F2R_pos m e : (0 < F2R (Zpos m) e)%R.
Proof.
  unfold F2R. pose proof (bpow_pos e). assert (0 < IZR (Zpos m))%R by (apply IZR_lt; lia). nra.
Qed.

Lemma B2R_nonneg x : (0 <= B2R x)%R.
Proof. destruct x as [| | | [] m e]; cbn; try lra. pose proof (F2R_pos m e). lra. Qed.

Lemma round_le_nonneg x mb eb :
  0 < mb -> canonical mb eb -> round_le x mb eb ->
  nonneg x /\ (B2R x <= F2R mb eb)%R.
Proof.
  intros Hmb Hcb [-> | (m & e & -> & Hb & Hlex)]; cbn.
  - split; [exact I |]. unfold F2R. pose proof (bpow_pos eb).
    assert (0 < IZR mb)%R by (apply IZR_lt; lia). nra.
  - split; [assumption |]. apply bounded_canonical in Hb as [Hc _].
    apply lex_le_F2R; try assumption; lia.
Qed.

Lemma F2R_one : F2R 4503599627370496 (-52) = 1%R.
Proof.
  unfold F2R. change 4503599627370496 with (2 ^ 52).
  rewrite <- bpow_IZR, <- bpow_plus by lia. reflexivity.
Qed.

Lemma canonical_one : canonical 4503599627370496 (-52).
Proof. reflexivity. Qed.

Lemma one_eq : one = S754_finite false 4503599627370496 (-52).
Proof. vm_compute. reflexivity. Qed.

Lemma leb_finite_one m e :
  leb (S754_finite false m e) one = true <-> lex_le (Zpos m) e 4503599627370496 (-52).
Proof.
  rewrite one_eq. unfold leb, SFleb, SFcompare, lex_le.
  rewrite Pos.compare_cont_spec. unfold Pos.switch_Eq.
  destruct (Z.compare_spec e (-52)) as [He | He | He].
  - destruct (Pos.compare_spec m 4503599627370496) as [Hm | Hm | Hm].
    + split; intros _; [| exact eq_refl].
      right. split; [exact He |]. rewrite Hm. apply Z.le_refl.
    + split; intros _; [| exact eq_refl].
      right. split; [exact He |]. apply Z.lt_le_incl. exact Hm.
    + split; [intros H; discriminate H |].
      intros [Hlt | [_ Hle]].
      * rewrite He in Hlt. apply Z.lt_irrefl in Hlt. contradiction.
      * lia.
  - split; intros _; [left; exact He | exact eq_refl].
  - split; [intros H; discriminate H |].
    intros [Hlt | [Heq _]].
    + apply Z.lt_asymm in Hlt. contradiction.
    + rewrite Heq in He. apply Z.lt_irrefl in He. contradiction.
Qed.

(** A fraction in [0,1], as the comparison of float64 decides it, is a
    non-negative value at most 1. *)
Lemma is_fraction_nonneg x :
  valid_binary prec emax x = true -> is_fraction x = true ->
  nonneg x /\ (B2R x <= 1)%R.
Proof.
  intros Hvalid Hfrac. unfold is_fraction in Hfrac.
  apply andb_true_iff in Hfrac as [H0 H1]. unfold zero in H0.
  destruct x as [s | s | | s m e].
  - split; [exact I | cbn; lra].
  - rewrite one_eq in H1. unfold leb, SFleb, SFcompare in H0, H1.
    destruct s; [discriminate H0 | discriminate H1].
  - unfold leb, SFleb, SFcompare in H0. discriminate H0.
  - unfold leb, SFleb, SFcompare in H0.
    destruct s; [discriminate H0 |]. clear H0.
    apply leb_finite_one in H1. cbn [valid_binary] in Hvalid.
    split; [exact Hvalid |].
    apply bounded_canonical in Hvalid as [Hc _].
    cbn [B2R]. rewrite <- F2R_one.
    apply lex_le_F2R; [lia | assumption | lia | apply canonical_one | assumption].
Qed.

Lemma nonneg_is_fraction x : nonneg x -> (B2R x <= 1)%R -> is_fraction x = true.
Proof.
  intros Hx Hle. destruct x as [s | s | | [] m e]; cbn [nonneg] in Hx; try contradiction.
  - unfold is_fraction. rewrite one_eq. reflexivity.
  - cbn [B2R] in Hle. rewrite <- F2R_one in Hle.
    apply bounded_canonical in Hx as [Hc _].
    apply canonical_F2R_le in Hle; [| lia | assumption | lia | apply canonical_one].
    unfold is_fraction. apply andb_true_iff. split; [reflexivity |].
    now apply leb_finite_one.
Qed.

Lemma is_fraction_zero s : is_fraction (S754_zero s) = true.
Proof. unfold is_fraction. rewrite one_eq. now destruct s. Qed.

Lemma nonneg_one : nonneg one /\ B2R one = 1%R.
Proof.
  rewrite one_eq. split; [vm_compute; reflexivity | apply F2R_one].
Qed.

(** The exponent of a product of two numbers of the format is not above the
    one the format gives the product. *)
Lemma mul_exponent mx ex my ey :
  canonical (Zpos mx) ex -> canonical (Zpos my) ey ->
  ex + ey <= fexp (Zdigits2 (Zpos mx * Zpos my) + (ex + ey)).
Proof.
  intros Hx Hy. apply canonical_cases in Hx, Hy.
  pose proof (Zdigits2_mul (Zpos mx) (Zpos my) ltac:(lia) ltac:(lia)).
  pose proof (Zdigits2_pos (Zpos mx) ltac:(lia)).
  pose proof (Zdigits2_pos (Zpos my) ltac:(lia)).
  rewrite fexp_eq. lia.
Qed.

(** Multiplying by a fraction does not go above the other factor. *)
Lemma mul_le x y :
  nonneg x -> nonneg y -> (B2R x <= 1)%R ->
  nonneg (mul x y) /\ (B2R (mul x y) <= B2R y)%R.
Proof.
  intros Hx Hy Hle. pose proof (B2R_nonneg y) as Hy0.
  destruct x as [sx | | | [] mx ex]; cbn [nonneg] in Hx; try contradiction;
    destruct y as [sy | | | [] my ey]; cbn [nonneg] in Hy; try contradiction.
  - cbn. split; [exact I | lra].
  - split; [exact I | exact Hy0].
  - cbn. split; [exact I | lra].
  - apply bounded_canonical in Hx as [Hcx Hex]. apply bounded_canonical in Hy as [Hcy Hey].
    cbn [B2R] in *. pose proof (F2R_pos my ey).
    apply round_le_nonneg; [lia | assumption |].
    unfold mul, SFmul. cbn [xorb].
    apply (binary_round_aux_le _ _ _ (F2R (Zpos mx) ex * F2R (Zpos my) ey)); try assumption.
    + lia.
    + cbn [inbetween]. unfold F2R. rewrite Pos2Z.inj_mul, mult_IZR, bpow_plus. ring.
    + rewrite Pos2Z.inj_mul. now apply mul_exponent.
    + lia.
    + nra.
Qed.

(** Adding stays below a number of the format that bounds the exact sum. *)
Lemma add_le x y b :
  nonneg x -> nonneg y -> nonneg b -> (B2R x + B2R y <= B2R b)%R ->
  nonneg (add x y) /\ (B2R (add x y) <= B2R b)%R.
Proof.
  intros Hx Hy Hb Hle. pose proof (B2R_nonneg b) as Hb0.
  destruct x as [sx | | | [] mx ex]; cbn [nonneg] in Hx; try contradiction;
    destruct y as [sy | | | [] my ey]; cbn [nonneg] in Hy; try contradiction.
  - destruct sx, sy; cbn; (split; [exact I | exact Hb0]).
  - cbn [add SFadd]. unfold add, SFadd. cbn [B2R] in *. split; [exact Hy | lra].
  - unfold add, SFadd. cbn [B2R] in *. split; [exact Hx | lra].
  - cbn [B2R] in Hle. pose proof (F2R_pos mx ex). pose proof (F2R_pos my ey).
    destruct b as [sb | | | [] mb eb]; cbn [nonneg B2R] in Hb, Hle; try contradiction; try lra.
    apply bounded_canonical in Hb as [Hcb Heb]. cbn [B2R].
    apply round_le_nonneg; [lia | assumption |].
    unfold add, SFadd. cbn [cond_Zopp].
    pose proof (shl_align_spec mx ex (Z.min ex ey)) as Hax.
    pose proof (shl_align_spec my ey (Z.min ex ey)) as Hay.
    destruct (shl_align mx ex (Z.min ex ey)) as [ax eax].
    destruct (shl_align my ey (Z.min ex ey)) as [ay eay].
    destruct Hax as [Heax Hax]. destruct Hay as [Heay Hay]. cbn [fst].
    change (Zpos ax + Zpos ay) with (Zpos (ax + ay)). cbn [binary_normalize].
    apply binary_round_le; try assumption; [lia |].
    replace (F2R (Zpos (ax + ay)) (Z.min ex ey))
      with (F2R (Zpos mx) ex + F2R (Zpos my) ey)%R; [assumption |].
    rewrite (F2R_lower_exp (Zpos mx) ex (Z.min ex ey)) by lia.
    rewrite (F2R_lower_exp (Zpos my) ey (Z.min ex ey)) by lia.
    unfold F2R. rewrite Pos2Z.inj_add, plus_IZR, Hax, Hay.
    replace eax with (Z.min ex ey) by lia. replace eay with (Z.min ex ey) by lia. ring.
Qed.

(** A quotient of a smaller by a larger number is a fraction in [0,1]. *)
Lemma div_le x y :
  nonneg x -> nonneg y -> (0 < B2R y)%R -> (B2R x <= B2R y)%R ->
  is_fraction (div x y) = true.
Proof.
  intros Hx Hy Hpos Hle.
  destruct y as [sy | | | [] my ey]; cbn [nonneg B2R] in Hy, Hpos, Hle; try contradiction;
    try lra.
  destruct x as [sx | | | [] mx ex]; cbn [nonneg B2R] in Hx, Hle; try contradiction.
  - unfold div, SFdiv. apply is_fraction_zero.
  - pose proof (F2R_pos mx ex).
    assert (Hround : round_le (div (S754_finite false mx ex) (S754_finite false my ey))
                              4503599627370496 (-52)).
    { unfold div, SFdiv. cbn [xorb].
      pose proof (SFdiv_core_binary_spec mx ex my ey) as Hcore.
      destruct (SFdiv_core_binary prec emax (Zpos mx) ex (Zpos my) ey) as [[q e'] l].
      destruct Hcore as (Hq & Hin & He').
      apply (binary_round_aux_le _ _ _ (F2R (Zpos mx) ex / F2R (Zpos my) ey));
        try assumption.
      - lia.
      - apply canonical_one.
      - vm_compute. discriminate.
      - rewrite F2R_one. apply (Rmult_le_reg_r (F2R (Zpos my) ey)); [assumption |].
        unfold Rdiv. rewrite Rmult_assoc, Rinv_l by lra. lra. }
    apply round_le_nonneg in Hround as [Hn Hv]; [| lia | apply canonical_one].
    rewrite F2R_one in Hv. now apply nonneg_is_fraction.
Qed.

(** [float64(n)] is exact for the integers below 2^53. *)
Lemma of_int_exact n : 0 <= n < 2 ^ 53 -> nonneg (of_int n) /\ B2R (of_int n) = IZR n.
Proof.
  intros [Hlo Hhi]. destruct n as [| p | p]; [| | lia].
  - split; [exact I | reflexivity].
  - unfold of_int. cbn [binary_normalize].
    assert (Hd : Zpos (digits2_pos p) <= 53).
    { change (Zpos (digits2_pos p)) with (Zdigits2 (Zpos p)). apply Zdigits2_le; lia. }
    destruct (binary_round_exact p 0) as (mz & ez & -> & Hb & Hv).
    + rewrite fexp_eq. lia.
    + rewrite fexp_eq. unfold emax, prec. lia.
    + cbn [nonneg B2R]. split; [assumption |].
      rewrite Hv. unfold F2R. rewrite bpow_0. ring.
Qed.

(** The quotient of two counts, the first at most the second, is a fraction
    in [0,1]. *)
Lemma count_quotient_is_fraction w n :
  0 <= w <= n -> 0 < n < 2 ^ 53 -> is_fraction (div (of_int w) (of_int n)) = true.
Proof.
  intros Hw Hn.
  destruct (of_int_exact w ltac:(lia)) as [Hw1 Hw2].
  destruct (of_int_exact n ltac:(lia)) as [Hn1 Hn2].
  apply div_le; try assumption.
  - rewrite Hn2. apply IZR_lt. lia.
  - rewrite Hw2, Hn2. apply IZR_le. lia.
Qed.

(** The recomputed rate of a stats row is a fraction in [0,1] when the rate
    read is one and the count read is not negative. *)
Lemma recompute_is_fraction r c (won : bool) :
  valid_binary prec emax r = true -> is_fraction r = true ->
  0 <= c -> c + 1 < 2 ^ 53 ->
  is_fraction (if won
               then div (add (mul r (of_int c)) one) (of_int (c + 1))
               else div (mul r (of_int c)) (of_int (c + 1))) = true.
Proof.
  intros Hvalid Hfrac Hc Hc1.
  destruct (is_fraction_nonneg r Hvalid Hfrac) as [Hr Hr1].
  destruct (of_int_exact c ltac:(lia)) as [HC HCv].
  destruct (of_int_exact (c + 1) ltac:(lia)) as [HN HNv].
  destruct (mul_le r (of_int c) Hr HC Hr1) as [Ht Htv].
  assert (HNpos : (0 < B2R (of_int (c + 1)))%R) by (rewrite HNv; apply IZR_lt; lia).
  assert (Hcn : (IZR c + 1 = IZR (c + 1))%R) by (rewrite plus_IZR; reflexivity).
  destruct won.
  - destruct nonneg_one as [H1 H1v].
    destruct (add_le (mul r (of_int c)) one (of_int (c + 1)) Ht H1 HN) as [Ha Hav].
    { rewrite H1v, HNv. lra. }
    now apply div_le.
  - apply div_le; try assumption. rewrite HNv. lra.
Qed.

End Fractions.

(** ** C7: win rates as fractions *)

Import Rounding Fractions.

Lemma consistent_in_range d : consistent d -> win_rates_in_range d.
Proof.
  intros (Hs & Hc & Hcs & Hrs & Hb). repeat split; try assumption.
  - eapply map_Forall_impl; [exact Hs |]. now intros _ row [[_ H] _].
  - eapply map_Forall_impl; [exact Hc |]. now intros _ row [[_ H] _].
  - eapply map_Forall_impl; [exact Hcs |]. now intros _ row [[_ H] _].
  - eapply map_Forall_impl; [exact Hrs |]. now intros _ row [[_ H] _].
Qed.

(** The integer a non-negative value of the format denotes is its value. *)
Lemma to_integer_value r w : nonneg r -> to_integer r = Some w -> B2R r = IZR w.
Proof.
  intros Hr Hw. destruct r as [s | | | [] m e]; cbn [nonneg] in Hr; try contradiction.
  - cbn in Hw. now injection Hw as <-.
  - cbn [to_integer B2R] in *. destruct (Z.leb_spec 0 e) as [He | He].
    + injection Hw as <-. unfold F2R. rewrite mult_IZR, bpow_IZR by assumption. reflexivity.
    + destruct (Z.eqb_spec (Zpos m mod 2 ^ (- e)) 0) as [Hmod | Hmod]; [| discriminate].
      injection Hw as <-.
      assert (Hp : 0 < 2 ^ (- e)) by (apply Z.pow_pos_nonneg; lia).
      pose proof (Z.div_mod (Zpos m) (2 ^ (- e)) ltac:(lia)) as Hdm. rewrite Hmod in Hdm.
      unfold F2R. rewrite Hdm at 1. rewrite Z.add_0_r, mult_IZR, <- bpow_IZR by lia.
      rewrite Rmult_comm, <- Rmult_assoc, <- bpow_plus.
      replace (e + - e) with 0 by lia. rewrite bpow_0. ring.
Qed.

(** A fraction that scans as an integer scans as 0 or 1, and a zero scans
    as 0. *)
Lemma scan_fraction r w :
  fraction r -> scan_float8_int r = Some w ->
  0 <= w <= 1 /\ (eqb r zero = true -> w = 0).
Proof.
  intros [Hvalid Hfrac] Hscan. unfold scan_float8_int in Hscan.
  destruct (to_integer r) as [v |] eqn:Hv; [| discriminate].
  destruct (Z.abs v <? 1000000); [| discriminate]. injection Hscan as ->.
  destruct (is_fraction_nonneg r Hvalid Hfrac) as [Hn Hle].
  pose proof (B2R_nonneg r) as Hge.
  rewrite (to_integer_value r w Hn Hv) in Hle, Hge.
  apply le_IZR in Hle, Hge. split; [lia |].
  intros Hz. unfold eqb, SFeqb, SFcompare, zero in Hz.
  destruct r as [s | s | | s m e].
  - cbn in Hv. now injection Hv as <-.
  - destruct s; discriminate Hz.
  - discriminate Hz.
  - destruct s; discriminate Hz.
Qed.

Lemma fraction_zero : fraction zero.
Proof. split; [reflexivity | apply is_fraction_zero]. Qed.

Lemma add_one_in_column c : count_in_column c -> GoInt.add c 1 = c + 1.
Proof.
  unfold count_in_column. intros Hc. unfold GoInt.add. apply wrap_in_range.
  unfold GoInt.in_range, GoInt.min_int, GoInt.max_int. lia.
Qed.

(** The win rate the updaters store for a summoner or a champion. *)
Lemma quotient_win_rate_is_fraction games rate wins (won : bool) :
  counted games rate -> scan_float8_int rate = Some wins ->
  is_fraction (div (of_int (if won then GoInt.add wins 1 else wins))
                   (of_int (GoInt.add games 1))) = true.
Proof.
  intros (Hfrac & Hcount & Hzero) Hscan.
  destruct (scan_fraction rate wins Hfrac Hscan) as [Hw Hw0].
  rewrite (add_one_in_column games Hcount). unfold count_in_column in Hcount.
  assert (Hwins : GoInt.add wins 1 = wins + 1).
  { unfold GoInt.add. apply wrap_in_range.
    unfold GoInt.in_range, GoInt.min_int, GoInt.max_int. lia. }
  assert (Hbig : 2 ^ 31 < 2 ^ 53) by reflexivity.
  apply count_quotient_is_fraction; [| lia].
  destruct won; [rewrite Hwins |]; destruct (Z.eq_dec games 0) as [Hg | Hg];
    try specialize (Hw0 (Hzero Hg)); lia.
Qed.

(** The win rate the upserts store for a per-champion or per-role row. *)
Lemma recompute_win_rate_is_fraction c r won :
  fraction r -> count_in_column c ->
  is_fraction (recompute_win_rate r (GoInt.add c 1) won) = true.
Proof.
  intros [Hvalid Hfrac] Hc. rewrite (add_one_in_column c Hc).
  unfold recompute_win_rate, count_in_column in *.
  assert (Hsub : GoInt.sub (c + 1) 1 = c).
  { unfold GoInt.sub. replace (c + 1 - 1) with c by lia. apply wrap_in_range.
    unfold GoInt.in_range, GoInt.min_int, GoInt.max_int. lia. }
  rewrite Hsub.
  assert (Hbig : 2 ^ 31 < 2 ^ 53) by reflexivity.
  apply recompute_is_fraction; try assumption; lia.
Qed.

Lemma bumped_is_fraction {K} `{Countable K} (m : gmap K stats_row) (k : K) won :
  map_Forall (fun _ row => fraction (stats_win_rate row) /\
                           count_in_column (count_of_played_matches row)) m ->
  is_fraction (stats_win_rate (bumped (prior m k) won)) = true.
Proof.
  intros Hm. unfold bumped, prior. cbn [stats stats_win_rate].
  destruct (m !! k) as [row |] eqn:Hk; cbn [fst snd].
  - destruct (Hm k row Hk) as [Hr Hc]. now apply recompute_win_rate_is_fraction.
  - apply recompute_win_rate_is_fraction; [apply fraction_zero |].
    unfold count_in_column. split; [lia | reflexivity].
Qed.

(** Checking a property of all rows of a concrete table by computation. *)
Lemma map_Forall_forallb {K A} `{Countable K} (P : A -> Prop) (f : A -> bool)
    (m : gmap K A) :
  (forall a, f a = true -> P a) ->
  forallb (fun kv => f (snd kv)) (map_to_list m) = true ->
  map_Forall (fun _ a => P a) m.
Proof.
  intros Hf Hall. apply map_Forall_to_list, Forall_forall. intros [k a] Hin.
  apply Hf. rewrite forallb_forall in Hall.
  apply (Hall (k, a)). now apply list_elem_of_In.
Qed.

Lemma in_range_b_spec d : in_range_b d = true -> win_rates_in_range d.
Proof.
  unfold in_range_b. rewrite !andb_true_iff. intros ((((Hs & Hc) & Hcs) & Hrs) & Hb).
  split; [| split; [| split; [| split]]].
  - now apply (map_Forall_forallb (fun row => is_fraction (win_rate row) = true)
                                  (fun row => is_fraction (win_rate row))).
  - now apply (map_Forall_forallb (fun row => is_fraction (champion_win_rate row) = true)
                                  (fun row => is_fraction (champion_win_rate row))).
  - now apply (map_Forall_forallb (fun row => is_fraction (stats_win_rate row) = true)
                                  (fun row => is_fraction (stats_win_rate row))).
  - now apply (map_Forall_forallb (fun row => is_fraction (stats_win_rate row) = true)
                                  (fun row => is_fraction (stats_win_rate row))).
  - now apply (map_Forall_forallb (fun row => is_fraction (stats_win_rate row) = true)
                                  (fun row => is_fraction (stats_win_rate row))).
Qed.

Lemma fraction_b_spec r : fraction_b r = true -> fraction r.
Proof. unfold fraction_b, fraction. now rewrite andb_true_iff. Qed.

Lemma count_b_spec c : count_b c = true -> count_in_column c.
Proof. unfold count_b, count_in_column. rewrite andb_true_iff, Z.leb_le, Z.ltb_lt. tauto. Qed.

Lemma counted_b_spec games rate : counted_b games rate = true -> counted games rate.
Proof.
  unfold counted_b, counted. rewrite !andb_true_iff, orb_true_iff, negb_true_iff.
  intros [[Hf Hc] Hz]. split; [now apply fraction_b_spec |]. split; [now apply count_b_spec |].
  intros ->. destruct Hz as [Hz | Hz]; [discriminate | assumption].
Qed.

Lemma consistent_b_spec d : consistent_b d = true -> consistent d.
Proof.
  unfold consistent_b. rewrite !andb_true_iff. intros ((((Hs & Hc) & Hcs) & Hrs) & Hb).
  assert (Hstats : forall row : stats_row,
            fraction_b (stats_win_rate row) && count_b (count_of_played_matches row) = true ->
            fraction (stats_win_rate row) /\ count_in_column (count_of_played_matches row)).
  { intros row. rewrite andb_true_iff. intros [? ?].
    split; [now apply fraction_b_spec | now apply count_b_spec]. }
  split; [| split; [| split; [| split]]].
  - apply (map_Forall_forallb
             (fun row => counted (count_of_played_games row) (win_rate row))
             (fun row => counted_b (count_of_played_games row) (win_rate row)));
      [| exact Hs].
    intros row. apply counted_b_spec.
  - apply (map_Forall_forallb
             (fun row => counted (champion_count_of_played_matches row) (champion_win_rate row))
             (fun row => counted_b (champion_count_of_played_matches row)
                                   (champion_win_rate row)));
      [| exact Hc].
    intros row. apply counted_b_spec.
  - exact (map_Forall_forallb _ _ _ Hstats Hcs).
  - exact (map_Forall_forallb _ _ _ Hstats Hrs).
  - now apply (map_Forall_forallb (fun row => is_fraction (stats_win_rate row) = true)
                                  (fun row => is_fraction (stats_win_rate row))).
Qed.

(** C7. The updater does not keep the win rates in [0,1].  Summoner 1 is
    stored with 0 games and win rate 1.0 (written through
    [SummonerModel.Update]); every win rate of the store is in [0,1].  The
    first SELECT of [UpdateSummonerStatistics] scans the win_rate column
    into the [int] variable [wins], so the rate 1.0 is read as one win out
    of zero games, and a won match stores [float64(1+1)/float64(0+1)], the
    win rate 2.0. *)
Lemma win_rate_range_not_preserved :
  let s := {| ID := 1; Username := "faker"; Region := "kr"; Rating := 0;
              CountOfPlayedGames := 0; WinRate := one;
              AverageKDA := {| Kills := 0; Deaths := 0; Assists := 0 |} |} in
  let d := snd (run (SummonerModel.Update s) no_faults seeded_store) in
  let r := run (UpdateSummonerStatistics 1 a_champion a_kda "mid" true) no_faults d in
  win_rates_in_range d /\
  scan_summoner_counts <$> summoners d !! 1
    = Some (Some (0, 1, {| Kills := 0; Deaths := 0; Assists := 0 |})) /\
  fst r = Ret tt /\
  win_rate <$> summoners (snd r) !! 1 = Some two /\
  is_fraction two = false /\
  ~ win_rates_in_range (snd r).
Proof.
  intros s d r.
  assert (Hrate : win_rate <$> summoners (snd r) !! 1 = Some two)
    by (vm_compute; reflexivity).
  assert (Htwo : is_fraction two = false) by (vm_compute; reflexivity).
  split; [apply in_range_b_spec; vm_compute; reflexivity |].
  split; [vm_compute; reflexivity |].
  split; [vm_compute; reflexivity |].
  split; [exact Hrate |]. split; [exact Htwo |].
  intros (Hs & _).
  destruct (summoners (snd r) !! 1) as [row |] eqn:Hrow; [| discriminate].
  injection Hrate as Hrate. specialize (Hs 1 row Hrow). cbn beta in Hs.
  rewrite Hrate, Htwo in Hs. discriminate.
Qed.

(** Where the scan into [wins] does no harm.  From a consistent state
    (rates are binary64 fractions in [0,1], counts are in [0, 2^31), a
    summoner or champion without games has win rate 0) one run of an
    updater, whatever the driver does, leaves all stored win rates in
    [0,1]; so does an Insert of a summoner or a champion, which stores the
    rate 0.  This is a statement about one run: the counts of the state
    reached may have left [0, 2^31). *)
Theorem updater_keeps_win_rates_in_range (F : Faults) (d : DB) :
  consistent d ->
  (forall summonerID champion kda role won,
     win_rates_in_range
       (snd (run (UpdateSummonerStatistics summonerID champion kda role won) F d))) /\
  (forall championID summonerID won,
     win_rates_in_range (snd (run (UpdateChampionStatistics championID summonerID won) F d))) /\
  (forall s, win_rates_in_range (snd (run (SummonerModel.Insert s) F d))) /\
  (forall count_default c,
     win_rates_in_range (snd (run (ChampionModel.Insert count_default c) F d))).
Proof.
  intros Hcons. pose proof (consistent_in_range d Hcons) as Hd.
  destruct Hcons as (Hs & Hc & Hcs & Hrs & Hb).
  destruct Hd as (Hs' & Hc' & Hcs' & Hrs' & Hb').
  split; [| split; [| split]].
  - intros summonerID champion kda role won.
    destruct (fst (run (UpdateSummonerStatistics summonerID champion kda role won) F d))
      as [[] | e |] eqn:Hr.
    + apply run_ret_eq, summoner_update_inv in Hr.
      destruct Hr as (row & wins & avg & _ & Hrow & Hwins & _ & Es & Ecs & Ers & Ec & Eb & _).
      unfold win_rates_in_range. rewrite Es, Ecs, Ers, Ec, Eb.
      repeat split; try assumption.
      * apply map_Forall_insert_2; [| assumption].
        cbn [updated_summoner win_rate].
        eapply quotient_win_rate_is_fraction; [exact (Hs _ _ Hrow) | exact Hwins].
      * apply map_Forall_insert_2; [| assumption]. now apply bumped_is_fraction.
      * apply map_Forall_insert_2; [| assumption]. now apply bumped_is_fraction.
    + rewrite run_all_or_nothing;
        [now repeat split | apply UpdateSummonerStatistics_all_or_nothing | now rewrite Hr].
    + rewrite run_all_or_nothing;
        [now repeat split | apply UpdateSummonerStatistics_all_or_nothing | now rewrite Hr].
  - intros championID summonerID won.
    destruct (fst (run (UpdateChampionStatistics championID summonerID won) F d))
      as [[] | e |] eqn:Hr.
    + apply run_ret_eq, champion_update_inv in Hr.
      destruct Hr as (row & wins & st & _ & Hrow & Hwins & Hst & Ec & Eb & Es & Ecs & Ers & _).
      unfold win_rates_in_range. rewrite Es, Ecs, Ers, Ec, Eb.
      repeat split; try assumption.
      * apply map_Forall_insert_2; [| assumption].
        cbn [champion_win_rate].
        eapply quotient_win_rate_is_fraction; [exact (Hc _ _ Hrow) | exact Hwins].
      * apply map_Forall_insert_2; [| assumption]. exact (Hcs' _ _ Hst).
    + rewrite run_all_or_nothing;
        [now repeat split | apply UpdateChampionStatistics_all_or_nothing | now rewrite Hr].
    + rewrite run_all_or_nothing;
        [now repeat split | apply UpdateChampionStatistics_all_or_nothing | now rewrite Hr].
  - intros s. crud_cbv. destruct (F 0%nat); cbn; [now repeat split |].
    destruct (summoners d !! summoners_id_seq d); cbn; [now repeat split |].
    repeat split; try assumption.
    apply map_Forall_insert_2; [apply is_fraction_zero | assumption].
  - intros count_default c. crud_cbv. destruct (F 0%nat); cbn; [now repeat split |].
    destruct (champions d !! champions_id_seq d); cbn; [now repeat split |].
    repeat split; try assumption.
    apply map_Forall_insert_2; [apply is_fraction_zero | assumption].
Qed.

(** The store after one won match is consistent, and stays in range under a
    further match and under the champion update. *)
Lemma updater_keeps_win_rates_in_range_witness :
  consistent played_store /\
  win_rates_in_range
    (snd (run (UpdateSummonerStatistics 1 a_champion a_kda "mid" false) no_faults played_store)) /\
  win_rates_in_range (snd (run (UpdateChampionStatistics 1 1 true) no_faults played_store)).
Proof.
  assert (Hcons : consistent played_store)
    by (apply consistent_b_spec; vm_compute; reflexivity).
  split; [exact Hcons |].
  destruct (updater_keeps_win_rates_in_range no_faults played_store Hcons) as (Hs & Hc & _).
  split; [apply Hs | apply Hc].
Defined.


(** * Further properties *)

(** ** The statistics updater: frame, failures, composition *)

(** A run of an updater that does not return nil leaves the store as it was. *)
Lemma summoner_update_failed_same summonerID champion kda role won F d :
  fst (run (UpdateSummonerStatistics summonerID champion kda role won) F d) <> Ret tt ->
  snd (run (UpdateSummonerStatistics summonerID champion kda role won) F d) = d.
Proof.
  intros Hne. apply run_all_or_nothing; [apply UpdateSummonerStatistics_all_or_nothing |].
  destruct (fst (run _ F d)) as [[] | e |]; cbn; [congruence | exact I | exact I].
Qed.

Lemma champion_update_failed_same championID summonerID won F d :
  fst (run (UpdateChampionStatistics championID summonerID won) F d) <> Ret tt ->
  snd (run (UpdateChampionStatistics championID summonerID won) F d) = d.
Proof.
  intros Hne. apply run_all_or_nothing; [apply UpdateChampionStatistics_all_or_nothing |].
  destruct (fst (run _ F d)) as [[] | e |]; cbn; [congruence | exact I | exact I].
Qed.

(** X1. Whatever the fault plan and the outcome, [UpdateSummonerStatistics]
    changes nothing but the statistics of the one summoner and the two
    statistics rows of its keys: champions, matches, best summoners and the
    sequences are as before, every other summoner and every other
    per-champion and per-role row is as before, and the summoner's own
    username, region and rating are as before (no summoner is created or
    removed). *)
Theorem summoner_statistics_frame summonerID champion kda role won (F : Faults) (d : DB) :
  let d' := snd (run (UpdateSummonerStatistics summonerID champion kda role won) F d) in
  (champions d' = champions d /\ matches d' = matches d /\
   champion_best_summoners d' = champion_best_summoners d /\
   summoners_id_seq d' = summoners_id_seq d /\ champions_id_seq d' = champions_id_seq d /\
   matches_id_seq d' = matches_id_seq d) /\
  (forall id, id <> summonerID -> summoners d' !! id = summoners d !! id) /\
  summoner_identity <$> summoners d' !! summonerID
    = summoner_identity <$> summoners d !! summonerID /\
  (forall k, k <> (summonerID, champion_ID champion) ->
     summoner_champion_stats d' !! k = summoner_champion_stats d !! k) /\
  (forall k, k <> (summonerID, role) ->
     summoner_role_stats d' !! k = summoner_role_stats d !! k).
Proof.
  intros d'. subst d'.
  destruct (fst (run (UpdateSummonerStatistics summonerID champion kda role won) F d))
    as [[] | e |] eqn:Hr.
  - apply run_ret_eq, summoner_update_inv in Hr.
    destruct Hr as (row & wins & avg & _ & Hrow & _ & _ & Hs & Hc & Hro & Hch & Hb & He).
    destruct He as (H1 & H2 & H3 & H4).
    rewrite Hs, Hc, Hro. repeat split; try assumption.
    + intros id Hid. now rewrite lookup_insert_ne.
    + rewrite lookup_insert_eq, Hrow. reflexivity.
    + intros k Hk. now rewrite lookup_insert_ne.
    + intros k Hk. now rewrite lookup_insert_ne.
  - rewrite summoner_update_failed_same by (rewrite Hr; discriminate). repeat split.
  - rewrite summoner_update_failed_same by (rewrite Hr; discriminate). repeat split.
Qed.

(** X2. Whatever the fault plan and the outcome, [UpdateChampionStatistics]
    changes nothing but the statistics of the one champion and the one
    best-summoners row of its key: summoners, matches, per-champion and
    per-role statistics and the sequences are as before, every other
    champion and every other best-summoners row is as before, and the
    champion's own name, main role and ban rate are as before. *)
Theorem champion_statistics_frame championID summonerID won (F : Faults) (d : DB) :
  let d' := snd (run (UpdateChampionStatistics championID summonerID won) F d) in
  (summoners d' = summoners d /\ matches d' = matches d /\
   summoner_champion_stats d' = summoner_champion_stats d /\
   summoner_role_stats d' = summoner_role_stats d /\
   summoners_id_seq d' = summoners_id_seq d /\ champions_id_seq d' = champions_id_seq d /\
   matches_id_seq d' = matches_id_seq d) /\
  (forall id, id <> championID -> champions d' !! id = champions d !! id) /\
  champion_identity <$> champions d' !! championID
    = champion_identity <$> champions d !! championID /\
  (forall k, k <> (championID, summonerID) ->
     champion_best_summoners d' !! k = champion_best_summoners d !! k).
Proof.
  intros d'. subst d'.
  destruct (fst (run (UpdateChampionStatistics championID summonerID won) F d))
    as [[] | e |] eqn:Hr.
  - apply run_ret_eq, champion_update_inv in Hr.
    destruct Hr as (row & wins & st & _ & Hrow & _ & _ & Hc & Hb & Hs & Hsc & Hro & He).
    destruct He as (H1 & H2 & H3 & H4).
    rewrite Hc, Hb. repeat split; try assumption.
    + intros id Hid. now rewrite lookup_insert_ne.
    + rewrite lookup_insert_eq, Hrow. reflexivity.
    + intros k Hk. now rewrite lookup_insert_ne.
  - rewrite champion_update_failed_same by (rewrite Hr; discriminate). repeat split.
  - rewrite champion_update_failed_same by (rewrite Hr; discriminate). repeat split.
Qed.

Lemma quo_none a b : GoInt.quo a b = None -> b = 0.
Proof. unfold GoInt.quo. destruct (Z.eqb_spec b 0); [trivial | discriminate]. Qed.

(** X3. [UpdateSummonerStatistics] panics (integer division by zero in the
    average KDA) exactly when the transaction begins, the summoner's row is
    read and scanned, and its games count plus one is 0, which for a count
    in the range of [int] means a stored count of -1; the deferred rollback
    then leaves the store as it was.  [UpdateChampionStatistics] never
    panics. *)
Theorem summoner_statistics_panics_iff summonerID champion kda role won (F : Faults) (d : DB) :
  let r := run (UpdateSummonerStatistics summonerID champion kda role won) F d in
  (fst r = Panic <->
     F 0%nat = None /\ F 1%nat = None /\
     exists row wins,
       summoners d !! summonerID = Some row /\
       scan_float8_int (win_rate row) = Some wins /\
       GoInt.add (count_of_played_games row) 1 = 0) /\
  (fst r = Panic -> snd r = d) /\
  (forall championID summonerID' won',
     fst (run (UpdateChampionStatistics championID summonerID' won') F d) <> Panic).
Proof.
  intros r. split; [| split].
  - subst r. split.
    + go_cbv. repeat (go_step F; try done).
      all: intros _; repeat split; try reflexivity.
      all: eexists _, _; repeat split; try eassumption; try reflexivity.
      all: match goal with H : GoInt.quo _ _ = None |- _ => exact (quo_none _ _ H) end.
    + intros (HF0 & HF1 & row & wins & Hrow & Hwins & Hzero).
      go_cbv. rewrite HF0, HF1, Hrow, Hwins. cbn. rewrite Hzero.
      unfold GoInt.quo. cbn. reflexivity.
  - intros Hp. apply summoner_update_failed_same. fold r. rewrite Hp. discriminate.
  - intros championID summonerID' won'. apply champion_update_no_panic.
Qed.

Lemma summoner_statistics_panics_iff_witness :
  let s := {| ID := 1; Username := "faker"; Region := "kr"; Rating := 0;
              CountOfPlayedGames := -1; WinRate := zero;
              AverageKDA := {| Kills := 0; Deaths := 0; Assists := 0 |} |} in
  let d := snd (run (SummonerModel.Update s) no_faults seeded_store) in
  run (UpdateSummonerStatistics 1 a_champion a_kda "mid" true) no_faults d = (Panic, d).
Proof.
  intros s d.
  destruct (summoner_statistics_panics_iff 1 a_champion a_kda "mid" true no_faults d)
    as ([_ Hp] & Hsame & _).
  assert (H : fst (run (UpdateSummonerStatistics 1 a_champion a_kda "mid" true) no_faults d)
              = Panic).
  { apply Hp. split; [reflexivity |]. split; [reflexivity |].
    eexists _, _. split; [vm_compute; reflexivity |]. split; vm_compute; reflexivity. }
  specialize (Hsame H).
  rewrite (surjective_pairing (run (UpdateSummonerStatistics 1 a_champion a_kda "mid" true)
                                   no_faults d)).
  now rewrite H, Hsame.
Defined.

(** X4. When the transaction begins and the first read is not failed by
    the driver, the updater of a summoner that has no row, and the updater
    of a champion that has no row, return [sql.ErrNoRows] as it is (not
    [ErrRecordNotFound]) and leave the store as it was. *)
Theorem statistics_of_missing_rows (F : Faults) (d : DB) :
  F 0%nat = None -> F 1%nat = None ->
  (forall summonerID champion kda role won,
     summoners d !! summonerID = None ->
     run (UpdateSummonerStatistics summonerID champion kda role won) F d
       = (Fail sql_ErrNoRows, d)) /\
  (forall championID summonerID won,
     champions d !! championID = None ->
     run (UpdateChampionStatistics championID summonerID won) F d
       = (Fail sql_ErrNoRows, d)).
Proof.
  intros HF0 HF1. split.
  - intros summonerID champion kda role won Hrow.
    go_cbv. rewrite HF0, HF1, Hrow. reflexivity.
  - intros championID summonerID won Hrow.
    go_cbv. rewrite HF0, HF1, Hrow. reflexivity.
Qed.

Lemma statistics_of_missing_rows_witness :
  run (UpdateSummonerStatistics 7 a_champion a_kda "mid" true) no_faults seeded_store
    = (Fail sql_ErrNoRows, seeded_store) /\
  run (UpdateChampionStatistics 7 1 true) no_faults seeded_store
    = (Fail sql_ErrNoRows, seeded_store).
Proof.
  destruct (statistics_of_missing_rows no_faults seeded_store eq_refl eq_refl) as [Hs Hc].
  split.
  - apply Hs. reflexivity.
  - apply Hc. reflexivity.
Defined.

(** A fraction other than 0 and 1 is no integer: [Scan] into an [int] fails. *)
Lemma scan_proper_fraction r :
  fraction r -> eqb r zero = false -> eqb r one = false -> scan_float8_int r = None.
Proof.
  intros Hfr H0 H1. destruct (scan_float8_int r) as [w |] eqn:Hscan; [| reflexivity].
  exfalso. destruct (scan_fraction r w Hfr Hscan) as [Hw _].
  destruct Hfr as [Hvalid Hfrac].
  destruct (is_fraction_nonneg r Hvalid Hfrac) as [Hn _].
  unfold scan_float8_int in Hscan.
  destruct (to_integer r) as [v |] eqn:Hv; [| discriminate].
  destruct (Z.abs v <? 1000000); [| discriminate]. injection Hscan as ->.
  pose proof (to_integer_value r w Hn Hv) as Hval.
  destruct r as [s | | | [] m e]; cbn [nonneg] in Hn; try contradiction.
  - destruct s; discriminate H0.
  - cbn [B2R] in Hval. pose proof (F2R_pos m e) as Hpos.
    assert (w = 1) as ->.
    { assert (w <> 0) by (intros ->; lra). lia. }
    apply bounded_canonical in Hn as [Hc _].
    rewrite <- F2R_one in Hval.
    assert (Hle : lex_le (Zpos m) e 4503599627370496 (-52)).
    { apply canonical_F2R_le; [lia | assumption | lia | apply canonical_one | lra]. }
    assert (Hge : lex_le 4503599627370496 (-52) (Zpos m) e).
    { apply canonical_F2R_le; [lia | apply canonical_one | lia | assumption | lra]. }
    unfold lex_le in Hle, Hge.
    assert (He : e = -52) by lia. assert (Hm : m = 4503599627370496%positive) by lia.
    subst e m. rewrite one_eq in H1. discriminate H1.
Qed.

(** X5. A summoner (a champion) whose stored win rate is a fraction other
    than 0 and 1 cannot be updated: the first read scans the [float8] win
    rate into an [int], which fails, so the updater returns the conversion
    error and leaves the store as it was.  After a win and a loss the
    stored rate is 0.5, and every later match of that summoner or champion
    is refused. *)
Theorem proper_fraction_blocks_updater (F : Faults) (d : DB) :
  F 0%nat = None -> F 1%nat = None ->
  (forall summonerID champion kda role won row,
     summoners d !! summonerID = Some row ->
     fraction (win_rate row) ->
     eqb (win_rate row) zero = false -> eqb (win_rate row) one = false ->
     run (UpdateSummonerStatistics summonerID champion kda role won) F d
       = (Fail ErrConvert, d)) /\
  (forall championID summonerID won row,
     champions d !! championID = Some row ->
     fraction (champion_win_rate row) ->
     eqb (champion_win_rate row) zero = false -> eqb (champion_win_rate row) one = false ->
     run (UpdateChampionStatistics championID summonerID won) F d
       = (Fail ErrConvert, d)).
Proof.
  intros HF0 HF1. split.
  - intros summonerID champion kda role won row Hrow Hfr H0 H1.
    pose proof (scan_proper_fraction _ Hfr H0 H1) as Hscan.
    go_cbv. rewrite HF0, HF1, Hrow, Hscan. reflexivity.
  - intros championID summonerID won row Hrow Hfr H0 H1.
    pose proof (scan_proper_fraction _ Hfr H0 H1) as Hscan.
    go_cbv. rewrite HF0, HF1, Hrow, Hscan. reflexivity.
Qed.

Lemma proper_fraction_blocks_updater_witness :
  (win_rate <$> summoners won_and_lost !! 1 = Some half /\
   run (UpdateSummonerStatistics 1 a_champion a_kda "mid" true) no_faults won_and_lost
     = (Fail ErrConvert, won_and_lost)) /\
  (champion_win_rate <$> champions won_and_lost !! 1 = Some half /\
   run (UpdateChampionStatistics 1 1 true) no_faults won_and_lost
     = (Fail ErrConvert, won_and_lost)).
Proof.
  destruct (proper_fraction_blocks_updater no_faults won_and_lost eq_refl eq_refl) as [Hs Hc].
  split; (split; [vm_compute; reflexivity |]).
  - eapply Hs; [vm_compute; reflexivity | split; vm_compute; reflexivity
                | vm_compute; reflexivity ..].
  - eapply Hc; [vm_compute; reflexivity | split; vm_compute; reflexivity
                | vm_compute; reflexivity ..].
Defined.

(** X6. [UpdateChampionStatistics] needs the per-champion row of the
    summoner that [UpdateSummonerStatistics] writes: without it the run
    fails under every fault plan and leaves the store as it was (the UPDATE
    of the champion, already done in the transaction, is rolled back), and
    the error is [sql.ErrNoRows] when nothing else fails first. *)
Theorem champion_statistics_need_summoner_stats championID summonerID won (F : Faults) (d : DB) :
  summoner_champion_stats d !! (summonerID, championID) = None ->
  let r := run (UpdateChampionStatistics championID summonerID won) F d in
  (exists e, fst r = Fail e) /\ snd r = d /\
  (forall row wins,
     (forall n, (n < 5)%nat -> F n = None) ->
     champions d !! championID = Some row ->
     scan_float8_int (champion_win_rate row) = Some wins ->
     fst r = Fail sql_ErrNoRows).
Proof.
  intros Hst r.
  assert (Hne : fst r <> Ret tt).
  { intros Hr. apply run_ret_eq, champion_update_inv in Hr.
    destruct Hr as (row & wins & st & _ & _ & _ & Hst' & _). congruence. }
  split; [| split].
  - pose proof (champion_update_no_panic championID summonerID won F d) as Hnp. fold r in Hnp.
    destruct (fst r) as [[] | e |]; [congruence | eauto | congruence].
  - now apply champion_update_failed_same.
  - intros row wins HF Hrow Hwins. subst r. clear Hne. go_cbv.
    repeat first [rewrite HF by lia | rewrite Hrow | rewrite Hwins | rewrite Hst
                 | progress cbn].
    reflexivity.
Qed.

Lemma champion_statistics_need_summoner_stats_witness :
  run (UpdateChampionStatistics 1 1 true) no_faults seeded_store
    = (Fail sql_ErrNoRows, seeded_store).
Proof.
  destruct (champion_statistics_need_summoner_stats 1 1 true no_faults seeded_store eq_refl)
    as (_ & Hsame & Herr).
  rewrite (surjective_pairing (run (UpdateChampionStatistics 1 1 true) no_faults seeded_store)).
  rewrite Hsame. erewrite Herr; [reflexivity | reflexivity | vm_compute; reflexivity ..].
Defined.

(** A summoner is counted for a champion when it has a row for it. *)
Lemma elem_of_summoners_with_stats (championID : Z) (d : DB) (s : Z) :
  s ∈ summoners_with_stats championID d <->
  is_Some (summoner_champion_stats d !! (s, championID)).
Proof.
  unfold summoners_with_stats. rewrite elem_of_map. split.
  - intros ([s' c] & -> & Hin). apply elem_of_filter in Hin as [Hc Hin]. cbn in *. subst c.
    now apply elem_of_dom.
  - intros Hin. exists (s, championID). split; [reflexivity |].
    apply elem_of_filter. split; [reflexivity | now apply elem_of_dom].
Qed.

(** The rows of a champion are as many as the summoners that have one: the
    key of the table is the pair. *)
Lemma size_champion_rows (championID : Z) (m : gmap (Z * Z) stats_row) :
  size (filter (fun kv : Z * Z * stats_row => snd (fst kv) = championID) m)
  = size (set_map (D := gset Z) fst
            (filter (fun k : Z * Z => snd k = championID) (dom m))).
Proof.
  induction m as [| [s c] v m Hk _ IH] using map_first_key_ind.
  - rewrite map_filter_empty, dom_empty_L, map_size_empty. symmetry.
    apply size_empty_iff. set_solver.
  - assert (Hnone : filter (fun kv : Z * Z * stats_row => snd (fst kv) = championID) m
                     !! (s, c) = None)
      by (apply map_lookup_filter_None_2; now left).
    rewrite dom_insert_L, filter_union_L, set_map_union_L; try exact _.
    destruct (decide (c = championID)) as [-> | Hne].
    + rewrite map_filter_insert. cbn. rewrite decide_True by exact eq_refl.
      rewrite map_size_insert_None by exact Hnone.
      replace (set_map (D := gset Z) fst
                 (filter (fun k : Z * Z => snd k = championID) ({[(s, championID)]} : gset _)))
        with ({[s]} : gset Z).
      2: { rewrite filter_singleton_L; try exact _. cbn. rewrite decide_True by exact eq_refl.
           now rewrite set_map_singleton_L. }
      rewrite size_union.
      * rewrite size_singleton, IH. reflexivity.
      * apply disjoint_singleton_l. rewrite elem_of_map.
        intros ([s' c'] & Hs & Hin). apply elem_of_filter in Hin as [Hc Hin]. cbn in *.
        subst. apply elem_of_dom in Hin as [x Hx]. congruence.
    + rewrite map_filter_insert. cbn. rewrite decide_False by congruence.
      rewrite delete_id by exact Hk.
      replace (set_map (D := gset Z) fst
                 (filter (fun k : Z * Z => snd k = championID) ({[(s, c)]} : gset _)))
        with (∅ : gset Z).
      2: { rewrite filter_singleton_L; try exact _. cbn. rewrite decide_False by congruence.
           now rewrite set_map_empty. }
      rewrite union_empty_l_L. exact IH.
Qed.

(** An upsert for a summoner adds that summoner, if it was not there. *)
Lemma summoners_with_stats_insert (championID summonerID : Z) (st : stats_row) (d d1 : DB) :
  summoner_champion_stats d1 = <[(summonerID, championID) := st]> (summoner_champion_stats d) ->
  summoners_with_stats championID d1 = {[summonerID]} ∪ summoners_with_stats championID d.
Proof.
  intros Hd1. apply set_eq. intros s.
  rewrite elem_of_union, elem_of_singleton, !elem_of_summoners_with_stats, Hd1.
  destruct (decide (s = summonerID)) as [-> | Hne].
  - rewrite lookup_insert_eq. split; [now left | eauto].
  - rewrite lookup_insert_ne by congruence. tauto.
Qed.

(** X7. After a successful [UpdateSummonerStatistics] for a summoner and a
    champion, [UpdateChampionStatistics] for the two, met by no failure on
    a champion whose win rate scans, succeeds: the best-summoners row of the
    pair is the summoner's per-champion row as the first updater wrote it,
    the champion's match count went up by one, and the popularity is the
    number of summoners that have a statistics row for the champion once
    the first updater has run, which are this summoner and those that had
    one before; so it is at least 1. *)
Theorem champion_statistics_after_summoner_statistics
    summonerID champion kda role won won' (F F' : Faults) (d d1 : DB) row wins :
  run (UpdateSummonerStatistics summonerID champion kda role won) F d = (Ret tt, d1) ->
  (forall n, (n < 7)%nat -> F' n = None) ->
  champions d !! champion_ID champion = Some row ->
  scan_float8_int (champion_win_rate row) = Some wins ->
  exists d2 row',
    run (UpdateChampionStatistics (champion_ID champion) summonerID won') F' d1 = (Ret tt, d2) /\
    champion_best_summoners d2 !! (champion_ID champion, summonerID)
      = summoner_champion_stats d1 !! (summonerID, champion_ID champion) /\
    summoner_champion_stats d1 !! (summonerID, champion_ID champion)
      = Some (bumped (prior (summoner_champion_stats d) (summonerID, champion_ID champion)) won) /\
    champions d2 !! champion_ID champion = Some row' /\
    popularity row'
      = of_int (Z.of_nat (size (summoners_with_stats (champion_ID champion) d1))) /\
    summoners_with_stats (champion_ID champion) d1
      = {[summonerID]} ∪ summoners_with_stats (champion_ID champion) d /\
    1 <= Z.of_nat (size (summoners_with_stats (champion_ID champion) d1)) /\
    champion_count_of_played_matches row'
      = GoInt.add (champion_count_of_played_matches row) 1.
Proof.
  intros Hs HF' Hrow Hwins.
  apply summoner_update_inv in Hs.
  destruct Hs as (srow & swins & avg & _ & _ & _ & _ & _ & Hc & _ & Hch & _).
  assert (Hst : summoner_champion_stats d1 !! (summonerID, champion_ID champion)
                = Some (bumped (prior (summoner_champion_stats d)
                                      (summonerID, champion_ID champion)) won)).
  { rewrite Hc. apply lookup_insert_eq. }
  rewrite <- Hch in Hrow.
  destruct (champion_update_run (champion_ID champion) summonerID won' F' d1 row wins _
              HF' Hrow Hwins Hst) as [d2 Hrun].
  pose proof Hrun as Hinv. apply champion_update_inv in Hinv.
  destruct Hinv as (row2 & wins2 & st2 & _ & Hrow2 & _ & Hst2 & Hc2 & Hb2 & _).
  rewrite Hrow in Hrow2. injection Hrow2 as <-.
  pose proof (summoners_with_stats_insert _ _ _ _ _ Hc) as Hset.
  eexists d2, _. split; [exact Hrun |].
  split; [rewrite Hb2, lookup_insert_eq; congruence |].
  split; [exact Hst |].
  split; [rewrite Hc2; apply lookup_insert_eq |].
  cbn. split; [now rewrite size_champion_rows |].
  split; [exact Hset |].
  split; [| reflexivity].
  assert (Hin : summonerID ∈ summoners_with_stats (champion_ID champion) d1)
    by (rewrite Hset; apply elem_of_union_l, elem_of_singleton; reflexivity).
  assert (Hne : size (summoners_with_stats (champion_ID champion) d1) <> 0%nat).
  { intros H0. apply size_empty_iff in H0. apply H0 in Hin. now apply elem_of_empty in Hin. }
  lia.
Qed.

Lemma champion_statistics_after_summoner_statistics_witness :
  exists d1 d2,
    run (UpdateSummonerStatistics 1 a_champion a_kda "mid" true) no_faults seeded_store
      = (Ret tt, d1) /\
    run (UpdateChampionStatistics 1 1 true) no_faults d1 = (Ret tt, d2) /\
    champion_best_summoners d2 !! (1, 1) = Some (stats 1 one) /\
    popularity <$> champions d2 !! 1 = Some one /\
    summoners_with_stats 1 d1 = {[1]}.
Proof.
  pose (d1 := snd (run (UpdateSummonerStatistics 1 a_champion a_kda "mid" true)
                       no_faults seeded_store)).
  assert (H1 : run (UpdateSummonerStatistics 1 a_champion a_kda "mid" true)
                   no_faults seeded_store = (Ret tt, d1)) by (vm_compute; reflexivity).
  destruct (champion_statistics_after_summoner_statistics 1 a_champion a_kda "mid" true true
              no_faults no_faults seeded_store d1
              {| name := "Ahri"; main_role := "mid"; popularity := zero;
                 champion_win_rate := zero; ban_rate := zero;
                 champion_count_of_played_matches := 0 |} 0 H1)
    as (d2 & row' & Hrun & Hbest & Hst & Hrow' & Hpop & Hset & Hn & Hcount);
    [reflexivity | vm_compute; reflexivity | vm_compute; reflexivity |].
  exists d1, d2. split; [exact H1 |]. split; [exact Hrun |].
  assert (Hd2 : d2 = snd (run (UpdateChampionStatistics 1 1 true) no_faults d1))
    by (change (champion_ID a_champion) with 1 in Hrun; now rewrite Hrun).
  split; [| split].
  - change (champion_ID a_champion) with 1 in Hbest, Hst. rewrite Hbest, Hst.
    vm_compute. reflexivity.
  - rewrite Hd2. vm_compute. reflexivity.
  - change (champion_ID a_champion) with 1 in Hset. rewrite Hset.
    assert (Hempty : summoners_with_stats 1 seeded_store = ∅).
    { apply set_eq. intros s. rewrite elem_of_summoners_with_stats.
      replace (summoner_champion_stats seeded_store) with (∅ : gmap (Z * Z) stats_row)
        by (vm_compute; reflexivity).
      rewrite lookup_empty, elem_of_empty. split; [now intros [x Hx] | tauto]. }
    rewrite Hempty. apply union_empty_r_L.
Defined.

(** X8. The updater has no guard against a match reported twice: when
    [UpdateSummonerStatistics] succeeds twice with the same arguments, the
    games count of the summoner and the match counts of its per-champion
    and per-role rows have each gone up by two. *)
Theorem updater_counts_every_run summonerID champion kda role won (F F' : Faults)
    (d d1 d2 : DB) :
  run (UpdateSummonerStatistics summonerID champion kda role won) F d = (Ret tt, d1) ->
  run (UpdateSummonerStatistics summonerID champion kda role won) F' d1 = (Ret tt, d2) ->
  let twice c := GoInt.add (GoInt.add c 1) 1 in
  (exists row, summoners d !! summonerID = Some row /\
     count_of_played_games <$> summoners d2 !! summonerID
       = Some (twice (count_of_played_games row))) /\
  count_of_played_matches <$> summoner_champion_stats d2 !! (summonerID, champion_ID champion)
    = Some (twice (prior (summoner_champion_stats d) (summonerID, champion_ID champion)).1) /\
  count_of_played_matches <$> summoner_role_stats d2 !! (summonerID, role)
    = Some (twice (prior (summoner_role_stats d) (summonerID, role)).1).
Proof.
  intros H1 H2 twice. subst twice.
  apply summoner_update_inv in H1, H2.
  destruct H1 as (row & wins & avg & _ & Hrow & _ & _ & Hs & Hc & Hr & _).
  destruct H2 as (row1 & wins1 & avg1 & _ & Hrow1 & _ & _ & Hs1 & Hc1 & Hr1 & _).
  rewrite Hs, lookup_insert_eq in Hrow1. injection Hrow1 as <-.
  split; [| split].
  - exists row. split; [exact Hrow |]. rewrite Hs1, lookup_insert_eq. reflexivity.
  - rewrite Hc1, lookup_insert_eq. unfold prior at 1. rewrite Hc, lookup_insert_eq.
    reflexivity.
  - rewrite Hr1, lookup_insert_eq. unfold prior at 1. rewrite Hr, lookup_insert_eq.
    reflexivity.
Qed.

Lemma updater_counts_every_run_witness :
  let d2 := after_matches [(true, a_kda); (true, a_kda)] seeded_store in
  count_of_played_games <$> summoners d2 !! 1 = Some 2 /\
  count_of_played_matches <$> summoner_champion_stats d2 !! (1, 1) = Some 2 /\
  count_of_played_matches <$> summoner_role_stats d2 !! (1, "mid") = Some 2.
Proof.
  intros d2.
  pose (d1 := after_matches [(true, a_kda)] seeded_store).
  destruct (updater_counts_every_run 1 a_champion a_kda "mid" true no_faults no_faults
              seeded_store d1 d2) as ((row & Hrow & Hgames) & Hc & Hr);
    [vm_compute; reflexivity | vm_compute; reflexivity |].
  change (champion_ID a_champion) with 1 in Hc.
  rewrite Hgames, Hc, Hr.
  vm_compute in Hrow. injection Hrow as <-.
  vm_compute. repeat split.
Defined.

(** ** The record store: delete, update, ban rates *)

(** X9. Delete of a row that is there, with a positive id and no failure of
    the driver, returns nil and removes that row and no other; Get and a
    second Delete of the id then return [ErrRecordNotFound] and change
    nothing.  For summoners, champions and matches. *)
Theorem delete_then_not_found (F F' : Faults) (d : DB) (id : Z) :
  1 <= id -> F 0%nat = None -> F 1%nat = None -> F' 0%nat = None -> F' 1%nat = None ->
  (is_Some (summoners d !! id) ->
   exists d', run (SummonerModel.Delete id) F d = (Ret tt, d') /\
     summoners d' = delete id (summoners d) /\
     run (SummonerModel.Get id) F' d' = (Fail ErrRecordNotFound, d') /\
     run (SummonerModel.Delete id) F' d' = (Fail ErrRecordNotFound, d')) /\
  (is_Some (champions d !! id) ->
   exists d', run (ChampionModel.Delete id) F d = (Ret tt, d') /\
     champions d' = delete id (champions d) /\
     run (ChampionModel.Get id) F' d' = (Fail ErrRecordNotFound, d') /\
     run (ChampionModel.Delete id) F' d' = (Fail ErrRecordNotFound, d')) /\
  (is_Some (matches d !! id) ->
   exists d', run (MatchModel.Delete id) F d = (Ret tt, d') /\
     matches d' = delete id (matches d) /\
     (forall (Time Team : Type) (of_timestamp : Z -> Time)
             (json_Unmarshal : string -> option Team),
        run (MatchModel.Get of_timestamp json_Unmarshal id) F' d'
          = (Fail ErrRecordNotFound, d')) /\
     run (MatchModel.Delete id) F' d' = (Fail ErrRecordNotFound, d')).
Proof.
  intros Hid HF0 HF1 HF0' HF1'. split; [| split].
  - intros [row Hrow]. crud_cbv.
    destruct (Z.ltb_spec id 1); [lia |].
    rewrite HF0, Hrow. cbn. rewrite HF1. cbn.
    eexists. split; [reflexivity |]. cbn. split; [reflexivity |].
    rewrite HF0', lookup_delete_eq. cbn. rewrite HF1'. cbn. split; reflexivity.
  - intros [row Hrow]. crud_cbv.
    destruct (Z.ltb_spec id 1); [lia |].
    rewrite HF0, Hrow. cbn. rewrite HF1. cbn.
    eexists. split; [reflexivity |]. cbn. split; [reflexivity |].
    rewrite HF0', lookup_delete_eq. cbn. rewrite HF1'. cbn. split; reflexivity.
  - intros [row Hrow]. crud_cbv.
    destruct (Z.ltb_spec id 1); [lia |].
    rewrite HF0, Hrow. cbn. rewrite HF1. cbn.
    eexists. split; [reflexivity |]. cbn. split; [reflexivity |].
    rewrite HF0', lookup_delete_eq. cbn. rewrite HF1'. cbn. split; [| reflexivity].
    intros Time Team of_timestamp json_Unmarshal. reflexivity.
Qed.

Lemma delete_then_not_found_witness :
  exists d',
    run (SummonerModel.Delete 1) no_faults seeded_store = (Ret tt, d') /\
    summoners d' = ∅ /\
    run (SummonerModel.Get 1) no_faults d' = (Fail ErrRecordNotFound, d').
Proof.
  destruct (delete_then_not_found no_faults no_faults seeded_store 1) as (Hs & _);
    [lia | reflexivity .. |].
  destruct Hs as (d' & Hdel & Hrows & Hget & _); [vm_compute; eauto |].
  exists d'. split; [exact Hdel |]. split; [| exact Hget].
  rewrite Hrows. vm_compute. reflexivity.
Defined.

(** X10. [SummonerModel.Update] writes every column from the struct: on a
    row that is there, with a positive id and no failure of the driver, Get
    after Update returns exactly the struct that was passed, statistics
    included, and no other summoner is changed. *)
Theorem update_then_get_summoner (s : Summoner) (F F' : Faults) (d : DB) :
  1 <= ID s -> is_Some (summoners d !! ID s) -> F 0%nat = None -> F' 0%nat = None ->
  exists d',
    run (SummonerModel.Update s) F d = (Ret tt, d') /\
    run (SummonerModel.Get (ID s)) F' d' = (Ret s, d') /\
    (forall id, id <> ID s -> summoners d' !! id = summoners d !! id).
Proof.
  intros Hid [row Hrow] HF HF'. crud_cbv. rewrite HF. cbn.
  eexists. split; [reflexivity |].
  destruct (Z.ltb_spec (ID s) 1); [lia |].
  rewrite HF'. cbn. rewrite lookup_alter_eq, Hrow. cbn.
  split; [now destruct s |].
  intros id Hne. now rewrite lookup_alter_ne.
Qed.

Lemma update_then_get_summoner_witness :
  let s := {| ID := 1; Username := "hide on bush"; Region := "kr"; Rating := 1500;
              CountOfPlayedGames := 40; WinRate := half; AverageKDA := a_kda |} in
  exists d',
    run (SummonerModel.Update s) no_faults seeded_store = (Ret tt, d') /\
    run (SummonerModel.Get 1) no_faults d' = (Ret s, d').
Proof.
  intros s.
  destruct (update_then_get_summoner s no_faults no_faults seeded_store)
    as (d' & Hup & Hget & _); [cbn; lia | vm_compute; eauto | reflexivity | reflexivity |].
  exists d'. split; [exact Hup | exact Hget].
Defined.

(** X11. [ChampionModel.Update] writes the name and the main role only:
    under every fault plan the popularity, win rate, ban rate and match
    count of every champion are as before and no other champion is
    changed, and Get after a successful Update returns the caller's name
    and role with the stored rates, whatever rates the struct carried. *)
Theorem champion_update_keeps_statistics (c : Champion) (F F' : Faults) (d : DB) :
  let d' := snd (run (ChampionModel.Update c) F d) in
  (forall id,
     (fun row => (popularity row, champion_win_rate row, ban_rate row,
                  champion_count_of_played_matches row)) <$> champions d' !! id
     = (fun row => (popularity row, champion_win_rate row, ban_rate row,
                    champion_count_of_played_matches row)) <$> champions d !! id) /\
  (forall id, id <> champion_ID c -> champions d' !! id = champions d !! id) /\
  (forall row,
     1 <= champion_ID c -> champions d !! champion_ID c = Some row ->
     F 0%nat = None -> F' 0%nat = None ->
     run (ChampionModel.Get (champion_ID c)) F' d'
       = (Ret {| champion_ID := champion_ID c; Name := Name c; MainRole := MainRole c;
                 Popularity := popularity row; champion_WinRate := champion_win_rate row;
                 BanRate := ban_rate row |}, d')).
Proof.
  intros d'. subst d'. crud_cbv. destruct (F 0%nat) eqn:HF; cbn.
  - split; [reflexivity |]. split; [reflexivity |]. discriminate.
  - split; [| split].
    + intros id. destruct (decide (id = champion_ID c)) as [-> | Hne].
      * rewrite lookup_alter_eq. now destruct (champions d !! champion_ID c).
      * now rewrite lookup_alter_ne.
    + intros id Hne. now rewrite lookup_alter_ne.
    + intros row Hid Hrow _ HF'.
      destruct (Z.ltb_spec (champion_ID c) 1); [lia |].
      rewrite HF'. cbn. rewrite lookup_alter_eq, Hrow. reflexivity.
Qed.

Lemma champion_update_keeps_statistics_witness :
  let c := {| champion_ID := 1; Name := "Ahri"; MainRole := "support"; Popularity := two;
              champion_WinRate := two; BanRate := two |} in
  let d := snd (run (UpdateChampionStatistics 1 1 true) no_faults played_store) in
  let d' := snd (run (ChampionModel.Update c) no_faults d) in
  run (ChampionModel.Get 1) no_faults d'
    = (Ret {| champion_ID := 1; Name := "Ahri"; MainRole := "support"; Popularity := one;
              champion_WinRate := one; BanRate := zero |}, d').
Proof.
  intros c d d'.
  destruct (champion_update_keeps_statistics c no_faults no_faults d) as (_ & _ & Hget).
  fold d' in Hget.
  apply (Hget {| name := "Ahri"; main_role := "mid"; popularity := one;
                 champion_win_rate := one; ban_rate := zero;
                 champion_count_of_played_matches := 1 |});
    [cbn; lia | vm_compute; reflexivity | reflexivity | reflexivity].
Defined.

(** X12. Nothing in the data layer writes [ban_rate]: when every champion
    has ban rate 0, the column default that Insert gives it, this still
    holds after Insert, Update and Delete of a champion and after either
    updater, under every fault plan. *)
Theorem ban_rate_stays_zero (F : Faults) (d : DB) :
  no_bans d ->
  (forall count_default c, no_bans (snd (run (ChampionModel.Insert count_default c) F d))) /\
  (forall c, no_bans (snd (run (ChampionModel.Update c) F d))) /\
  (forall id, no_bans (snd (run (ChampionModel.Delete id) F d))) /\
  (forall championID summonerID won,
     no_bans (snd (run (UpdateChampionStatistics championID summonerID won) F d))) /\
  (forall summonerID champion kda role won,
     no_bans (snd (run (UpdateSummonerStatistics summonerID champion kda role won) F d))).
Proof.
  intros Hd. unfold no_bans in *. repeat split.
  - intros count_default c. crud_cbv. destruct (F 0%nat); cbn; [exact Hd |].
    destruct (champions d !! champions_id_seq d) eqn:Hfree; cbn; [exact Hd |].
    apply map_Forall_insert; [assumption |]. split; [reflexivity | exact Hd].
  - intros c. crud_cbv. destruct (F 0%nat); cbn; [exact Hd |].
    intros k row Hrow. apply lookup_alter_Some in Hrow as [(_ & row0 & Hrow0 & ->) | [_ Hrow]].
    + cbn. exact (Hd _ _ Hrow0).
    + exact (Hd _ _ Hrow).
  - intros id. crud_cbv. destruct (id <? 1); [exact Hd |].
    destruct (F 0%nat); cbn; [exact Hd |].
    destruct (champions d !! id) eqn:Hrow; cbn.
    + destruct (F 1%nat); cbn; now apply map_Forall_delete.
    + destruct (F 1%nat); cbn; exact Hd.
  - intros championID summonerID won.
    destruct (fst (run (UpdateChampionStatistics championID summonerID won) F d))
      as [[] | e |] eqn:Hr.
    + apply run_ret_eq, champion_update_inv in Hr.
      destruct Hr as (row & wins & st & _ & Hrow & _ & _ & Hc & _).
      rewrite Hc. apply map_Forall_insert_2; [| exact Hd]. cbn. exact (Hd _ _ Hrow).
    + rewrite champion_update_failed_same by (rewrite Hr; discriminate). exact Hd.
    + rewrite champion_update_failed_same by (rewrite Hr; discriminate). exact Hd.
  - intros summonerID champion kda role won.
    destruct (fst (run (UpdateSummonerStatistics summonerID champion kda role won) F d))
      as [[] | e |] eqn:Hr.
    + apply run_ret_eq, summoner_update_inv in Hr.
      destruct Hr as (row & wins & avg & _ & _ & _ & _ & _ & _ & _ & Hc & _).
      now rewrite Hc.
    + rewrite summoner_update_failed_same by (rewrite Hr; discriminate). exact Hd.
    + rewrite summoner_update_failed_same by (rewrite Hr; discriminate). exact Hd.
Qed.

Lemma ban_rate_stays_zero_witness :
  let c := {| champion_ID := 1; Name := "Ahri"; MainRole := "mid"; Popularity := two;
              champion_WinRate := two; BanRate := half |} in
  ban_rate <$> champions (snd (run (ChampionModel.Update c) no_faults played_store)) !! 1
    = Some zero.
Proof.
  intros c.
  assert (Hd : no_bans played_store).
  { intros k row Hrow. destruct (decide (k = 1)) as [-> | Hne].
    - vm_compute in Hrow. now injection Hrow as <-.
    - exfalso. assert (Hdom : dom (champions played_store) = {[ 1 ]}) by (vm_compute; reflexivity).
      apply mk_is_Some, elem_of_dom in Hrow. rewrite Hdom in Hrow. set_solver. }
  destruct (ban_rate_stays_zero no_faults played_store Hd) as (_ & Hup & _).
  specialize (Hup c).
  destruct (champions (snd (run (ChampionModel.Update c) no_faults played_store)) !! 1)
    as [row |] eqn:Hrow; [| vm_compute in Hrow; discriminate].
  cbn. f_equal. exact (Hup _ _ Hrow).
Defined.

(** ** Listings *)

Lemma filter_sublist {A} (f : A -> bool) (l : list A) : List.filter f l `sublist_of` l.
Proof.
  induction l as [| x l IH]; cbn; [constructor |].
  destruct (f x); [now apply sublist_skip | now apply sublist_cons].
Qed.

Lemma elem_of_bool_filter {A} (f : A -> bool) (l : list A) x :
  x ∈ List.filter f l <-> x ∈ l /\ f x = true.
Proof.
  induction l as [| y l IH]; cbn.
  - rewrite elem_of_nil. tauto.
  - destruct (f y) eqn:Hy; rewrite ?elem_of_cons, IH; split.
    + intros [-> | [H1 H2]]; auto.
    + intros [[-> | H1] H2]; auto.
    + intros [H1 H2]; auto.
    + intros [[-> | H1] H2]; [congruence | auto].
Qed.

Lemma elem_of_ordered_rows {R} (where_ : Z * R -> bool) le (table : gmap Z R) x :
  x ∈ ordered_rows where_ le table <-> table !! x.1 = Some x.2 /\ where_ x = true.
Proof.
  unfold ordered_rows. rewrite merge_sort_Permutation, elem_of_bool_filter.
  destruct x as [id row]. now rewrite elem_of_map_to_list.
Qed.

Lemma NoDup_ordered_rows {R} (where_ : Z * R -> bool) le (table : gmap Z R) :
  NoDup (ordered_rows where_ le table).*1.
Proof.
  unfold ordered_rows. rewrite merge_sort_Permutation.
  eapply sublist_NoDup; [apply (NoDup_fst_map_to_list table) |].
  apply fmap_sublist, filter_sublist.
Qed.

Lemma length_ordered_rows {R} (where_ : Z * R -> bool) le (table : gmap Z R) :
  (length (ordered_rows where_ le table) <= size table)%nat.
Proof.
  unfold ordered_rows. rewrite merge_sort_Permutation.
  rewrite <- (length_map_to_list table). apply sublist_length, filter_sublist.
Qed.

Lemma select_page_inr {R} (where_ : Z * R -> bool) order lim off (table : gmap Z R) l :
  select_page where_ order lim off table = inr l ->
  exists le, order = inr le /\ 0 <= off /\ 0 <= lim /\
    l = take (Z.to_nat lim) (drop (Z.to_nat off) (ordered_rows where_ le table)).
Proof.
  unfold select_page. destruct order as [e | le]; [discriminate |].
  destruct (Z.ltb_spec off 0); [discriminate |].
  destruct (Z.ltb_spec lim 0); [discriminate |].
  intros [= <-]. exists le. repeat split; assumption.
Qed.

Lemma scan_rows_total {R A} (scan : R -> option A) (f : R -> A) rows scanned F c :
  (forall r, scan r = Some (f r)) ->
  scan_rows scan rows scanned F c = (Ret (scanned ++ (f <$> rows)), c).
Proof.
  intros Hscan. revert scanned. induction rows as [| r rows IH]; intros scanned; cbn.
  - now rewrite app_nil_r.
  - rewrite Hscan, IH, <- app_assoc. reflexivity.
Qed.

Lemma scan_rows_inv {R A} (scan : R -> option A) rows scanned F c l c' :
  scan_rows scan rows scanned F c = (Ret l, c') ->
  c' = c /\ exists l', l = scanned ++ l' /\ Forall2 (fun r a => scan r = Some a) rows l'.
Proof.
  revert scanned. induction rows as [| r rows IH]; intros scanned; cbn.
  - intros [= <- <-]. split; [reflexivity |]. exists []. now rewrite app_nil_r.
  - destruct (scan r) as [a |] eqn:Hr; [| discriminate].
    intros Hrun. apply IH in Hrun as (-> & l' & -> & Hall).
    split; [reflexivity |]. exists (a :: l'). rewrite <- app_assoc. split; [reflexivity |].
    now constructor.
Qed.

Lemma scan_rows_keeps {R A} (scan : R -> option A) rows scanned F c :
  snd (scan_rows scan rows scanned F c) = c.
Proof.
  revert scanned. induction rows as [| r rows IH]; intros scanned; cbn; [reflexivity |].
  destruct (scan r); [apply IH | reflexivity].
Qed.

Lemma listing_keeps {R A} (select : DB -> error + list R) (scan : R -> option A) F d :
  snd (run (listing select scan) F d) = d.
Proof.
  unfold listing. cbv beta iota zeta delta
    [DB_Query rows_Err] in *; crud_cbv. destruct (F 0%nat); [reflexivity |].
  destruct (select d) as [err | rows]; [reflexivity |].
  pose proof (scan_rows_keeps scan rows [] F {| committed := d; pending := None; calls := 1 |})
    as Hk.
  destruct (scan_rows scan rows [] F _) as [[xs | e |] c]; cbn in Hk; subst c;
    [| reflexivity | reflexivity].
  cbn. destruct (F 1%nat); reflexivity.
Qed.

Lemma listing_ret {R A} (select : DB -> error + list R) (scan : R -> option A) F d l :
  fst (run (listing select scan) F d) = Ret l ->
  exists rows, select d = inr rows /\ Forall2 (fun r a => scan r = Some a) rows l.
Proof.
  unfold listing. cbv beta iota zeta delta
    [DB_Query rows_Err] in *; crud_cbv. destruct (F 0%nat); [discriminate |].
  destruct (select d) as [err | rows]; [discriminate |].
  destruct (scan_rows scan rows [] F _) as [[xs | e |] c] eqn:Hscan;
    [| discriminate | discriminate].
  apply scan_rows_inv in Hscan as (-> & l' & -> & Hall). cbn.
  destruct (F 1%nat); [discriminate |]. intros [= <-]. eauto.
Qed.

(** A page of scanned rows: a non-negative offset, no longer than the limit,
    no id twice, every entry the scan of a row of the table that meets the
    WHERE clause. *)
Lemma page_facts {R A} (scan : Z * R -> option A) (id_of : A -> Z)
    (where_ : Z * R -> bool) order lim off (table : gmap Z R) rows (l : list A) :
  (forall r a, scan r = Some a -> id_of a = r.1) ->
  select_page where_ order lim off table = inr rows ->
  Forall2 (fun r a => scan r = Some a) rows l ->
  0 <= off /\ Z.of_nat (length l) <= lim /\ NoDup (id_of <$> l) /\
  (forall a, a ∈ l ->
     exists row, table !! id_of a = Some row /\ scan (id_of a, row) = Some a /\
                 where_ (id_of a, row) = true).
Proof.
  intros Hid Hsel Hall.
  apply select_page_inr in Hsel as (le & _ & Hoff & Hlim & ->).
  assert (Hsub : take (Z.to_nat lim) (drop (Z.to_nat off) (ordered_rows where_ le table))
                 `sublist_of` ordered_rows where_ le table)
    by (etransitivity; [apply sublist_take | apply sublist_drop]).
  assert (Hids : id_of <$> l = (take (Z.to_nat lim)
                    (drop (Z.to_nat off) (ordered_rows where_ le table))).*1).
  { clear Hsub. induction Hall as [| r a rows l Hr Hall IH]; [reflexivity |].
    cbn. rewrite IH. f_equal. now apply Hid. }
  split; [exact Hoff |]. split; [| split].
  - rewrite <- (Forall2_length _ _ _ Hall), length_take. lia.
  - rewrite Hids. eapply sublist_NoDup; [apply (NoDup_ordered_rows where_ le table) |].
    now apply fmap_sublist.
  - intros a Ha. apply list_elem_of_lookup in Ha as [i Hi].
    destruct (Forall2_lookup_r _ _ _ _ _ Hall Hi) as (r & Hr & Hscan).
    apply list_elem_of_lookup_2 in Hr. eapply elem_of_sublist in Hr; [| exact Hsub].
    apply elem_of_ordered_rows in Hr as [Hlook Hwhere].
    rewrite (Hid _ _ Hscan). exists r.2. now rewrite <- surjective_pairing.
Qed.

Lemma scan_summoner_id (r : Z * summoners_row) a :
  SummonerModel.scan_summoner r.1 r.2 = Some a -> ID a = r.1.
Proof. now intros [= <-]. Qed.

Lemma scan_champion_id (r : Z * champions_row) a :
  ChampionModel.scan_champion r.1 r.2 = Some a -> champion_ID a = r.1.
Proof. now intros [= <-]. Qed.

Lemma scan_match_id {Time Team} (of_timestamp : Z -> Time)
    (json_Unmarshal : string -> option Team) (r : Z * matches_row) a :
  MatchModel.scan_match of_timestamp json_Unmarshal r.1 r.2 = Some a ->
  MatchModel.match_ID a = r.1.
Proof.
  unfold MatchModel.scan_match.
  destruct (json_Unmarshal (blue_team r.2)), (json_Unmarshal (red_team r.2));
    try discriminate. now intros [= <-].
Qed.

(** X13. [GetAll] of summoners, champions and matches never changes the
    store, and a listing that returns had a non-negative OFFSET and holds at
    most [PageSize] records, no id twice, each the scan of a row the table
    holds under that id; for summoners and champions each record meets both
    filters (the lower-cased column equals the lower-cased argument, or the
    argument is empty). *)
Theorem listings_are_pages (sortColumn sortDirection : Filters -> option string)
    (filters : Filters) (F : Faults) (d : DB) :
  (forall LOWER ORDER_BY username' region',
     let r := run (SummonerModel.GetAll sortColumn sortDirection LOWER ORDER_BY
                     username' region' filters) F d in
     snd r = d /\
     forall l, fst r = Ret l ->
       0 <= offset filters /\ Z.of_nat (length l) <= PageSize filters /\
       NoDup (ID <$> l) /\
       forall s, s ∈ l ->
         (exists row, summoners d !! ID s = Some row /\
                      SummonerModel.scan_summoner (ID s) row = Some s) /\
         (LOWER (Username s) = LOWER username' \/ username' = "") /\
         (LOWER (Region s) = LOWER region' \/ region' = "")) /\
  (forall LOWER ORDER_BY name' role',
     let r := run (ChampionModel.GetAll sortColumn sortDirection LOWER ORDER_BY
                     name' role' filters) F d in
     snd r = d /\
     forall l, fst r = Ret l ->
       0 <= offset filters /\ Z.of_nat (length l) <= PageSize filters /\
       NoDup (champion_ID <$> l) /\
       forall c, c ∈ l ->
         (exists row, champions d !! champion_ID c = Some row /\
                      ChampionModel.scan_champion (champion_ID c) row = Some c) /\
         (LOWER (Name c) = LOWER name' \/ name' = "") /\
         (LOWER (MainRole c) = LOWER role' \/ role' = "")) /\
  (forall (Time Team : Type) (of_timestamp : Z -> Time)
          (json_Unmarshal : string -> option Team) ORDER_BY,
     let r := run (MatchModel.GetAll of_timestamp json_Unmarshal sortColumn sortDirection
                     ORDER_BY filters) F d in
     snd r = d /\
     forall l, fst r = Ret l ->
       0 <= offset filters /\ Z.of_nat (length l) <= PageSize filters /\
       NoDup (MatchModel.match_ID <$> l) /\
       forall m, m ∈ l ->
         exists row, matches d !! MatchModel.match_ID m = Some row /\
                     MatchModel.scan_match of_timestamp json_Unmarshal
                       (MatchModel.match_ID m) row = Some m).
Proof.
  split; [| split].
  - intros LOWER ORDER_BY username' region' r. subst r. unfold SummonerModel.GetAll.
    destruct (sortColumn filters) as [column |]; [| split; [reflexivity | discriminate]].
    destruct (sortDirection filters) as [direction |]; [| split; [reflexivity | discriminate]].
    split; [apply (listing_keeps _ _ F d) |].
    intros l Hl. apply (listing_ret _ _ F d) in Hl as (rows & Hsel & Hall).
    destruct (page_facts _ ID _ _ _ _ _ _ _ scan_summoner_id Hsel Hall)
      as (Hoff & Hlen & Hnd & Hin).
    split; [exact Hoff |]. split; [exact Hlen |]. split; [exact Hnd |].
    intros s Hs. destruct (Hin s Hs) as (row & Hlook & Hscan & Hwhere).
    split; [eauto |].
    replace (Username s) with (username row) by (now injection Hscan as <-).
    replace (Region s) with (region row) by (now injection Hscan as <-).
    unfold matches_filter in Hwhere. cbn in Hwhere.
    apply andb_true_iff in Hwhere as [Hu Hr].
    apply orb_true_iff in Hu, Hr. rewrite !String.eqb_eq in Hu, Hr. now split.
  - intros LOWER ORDER_BY name' role' r. subst r. unfold ChampionModel.GetAll.
    destruct (sortColumn filters) as [column |]; [| split; [reflexivity | discriminate]].
    destruct (sortDirection filters) as [direction |]; [| split; [reflexivity | discriminate]].
    split; [apply (listing_keeps _ _ F d) |].
    intros l Hl. apply (listing_ret _ _ F d) in Hl as (rows & Hsel & Hall).
    destruct (page_facts _ champion_ID _ _ _ _ _ _ _ scan_champion_id Hsel Hall)
      as (Hoff & Hlen & Hnd & Hin).
    split; [exact Hoff |]. split; [exact Hlen |]. split; [exact Hnd |].
    intros c Hc. destruct (Hin c Hc) as (row & Hlook & Hscan & Hwhere).
    split; [eauto |].
    replace (Name c) with (name row) by (now injection Hscan as <-).
    replace (MainRole c) with (main_role row) by (now injection Hscan as <-).
    unfold matches_filter in Hwhere. cbn in Hwhere.
    apply andb_true_iff in Hwhere as [Hu Hr].
    apply orb_true_iff in Hu, Hr. rewrite !String.eqb_eq in Hu, Hr. now split.
  - intros Time Team of_timestamp json_Unmarshal ORDER_BY r. subst r.
    unfold MatchModel.GetAll.
    destruct (sortColumn filters) as [column |]; [| split; [reflexivity | discriminate]].
    destruct (sortDirection filters) as [direction |]; [| split; [reflexivity | discriminate]].
    split; [apply (listing_keeps _ _ F d) |].
    intros l Hl. apply (listing_ret _ _ F d) in Hl as (rows & Hsel & Hall).
    destruct (page_facts _ MatchModel.match_ID _ _ _ _ _ _ _
                (scan_match_id of_timestamp json_Unmarshal) Hsel Hall)
      as (Hoff & Hlen & Hnd & Hin).
    split; [exact Hoff |]. split; [exact Hlen |]. split; [exact Hnd |].
    intros m Hm. destruct (Hin m Hm) as (row & Hlook & Hscan & _). eauto.
Qed.

Lemma listings_are_pages_witness :
  let r := run (SummonerModel.GetAll column_of_Sort ascending LOWER_ascii ORDER_BY_id
                  "" "kr" (page 1 1)) no_faults three_summoners in
  fst r = Ret [with_ID (named "Faker" "KR") 1] /\ snd r = three_summoners /\
  Z.of_nat (length [with_ID (named "Faker" "KR") 1]) <= 1.
Proof.
  intros r.
  destruct (listings_are_pages column_of_Sort ascending (page 1 1) no_faults three_summoners)
    as (Hs & _).
  destruct (Hs LOWER_ascii ORDER_BY_id "" "kr") as [Hsame Hpage]. fold r in Hsame, Hpage.
  assert (Hr : fst r = Ret [with_ID (named "Faker" "KR") 1]) by (vm_compute; reflexivity).
  split; [exact Hr |]. split; [exact Hsame |].
  apply (Hpage _ Hr).
Defined.

(** What a run of [SummonerModel.GetAll] comes to. *)
Lemma summoner_listing_run sortColumn sortDirection LOWER ORDER_BY username' region' filters
    F d :
  run (SummonerModel.GetAll sortColumn sortDirection LOWER ORDER_BY username' region' filters)
      F d
  = match sortColumn filters, sortDirection filters with
    | Some column, Some direction =>
        match F 0%nat with
        | Some code => (Fail (ErrDriver code), d)
        | None =>
            match select_page (summoner_where LOWER username' region')
                    (ORDER_BY column direction) (limit filters) (offset filters)
                    (summoners d) with
            | inl err => (Fail err, d)
            | inr rows =>
                match F 1%nat with
                | Some code => (Fail (ErrDriver code), d)
                | None => (Ret (summoner_of <$> rows), d)
                end
            end
        end
    | _, _ => (Panic, d)
    end.
Proof.
  cbv beta iota zeta delta
    [DB_Query rows_Err SummonerModel.GetAll] in *; crud_cbv. destruct (sortColumn filters) as
    [column |]; [| reflexivity].
  destruct (sortDirection filters) as [direction |]; [| reflexivity].
  destruct (F 0%nat); [reflexivity |].
  fold (summoner_where LOWER username' region').
  destruct (select_page _ _ _ _ _) as [err | rows]; [reflexivity |].
  rewrite (scan_rows_total _ summoner_of) by reflexivity. cbn.
  destruct (F 1%nat); reflexivity.
Qed.

Lemma offset_of_page p n :
  0 <= p - 1 -> 0 <= n -> (p - 1) * n <= GoInt.max_int -> p - 1 <= GoInt.max_int ->
  forall sort safelist,
    offset {| Page := p; PageSize := n; Sort := sort; SortSafelist := safelist |} = (p - 1) * n.
Proof.
  intros Hp Hn Hpn Hp' sort safelist. unfold offset, GoInt.mul, GoInt.sub. cbn.
  rewrite (wrap_in_range (p - 1)) by (unfold GoInt.in_range, GoInt.min_int, GoInt.max_int in *; lia).
  apply wrap_in_range. unfold GoInt.in_range, GoInt.min_int, GoInt.max_int in *. nia.
Qed.

(** X14. A first page that is large enough is the whole listing: when
    [Page] is 1 and [PageSize] is at least the number of summoners, the
    records [GetAll] returns are exactly the scans of the rows that meet
    both filters. *)
Theorem summoner_listing_complete
    (sortColumn sortDirection : Filters -> option string) (LOWER : string -> string)
    (ORDER_BY : string -> string -> error + (Z * summoners_row -> Z * summoners_row -> bool))
    (username' region' : string) (filters : Filters) (F : Faults) (d : DB)
    (l : list Summoner) :
  Page filters = 1 -> Z.of_nat (size (summoners d)) <= PageSize filters ->
  fst (run (SummonerModel.GetAll sortColumn sortDirection LOWER ORDER_BY
              username' region' filters) F d) = Ret l ->
  forall s,
    s ∈ l <->
    exists row,
      summoners d !! ID s = Some row /\ SummonerModel.scan_summoner (ID s) row = Some s /\
      (LOWER (Username s) = LOWER username' \/ username' = "") /\
      (LOWER (Region s) = LOWER region' \/ region' = "").
Proof.
  intros Hpage Hsize Hrun s. rewrite summoner_listing_run in Hrun.
  destruct (sortColumn filters) as [column |]; [| discriminate].
  destruct (sortDirection filters) as [direction |]; [| discriminate].
  destruct (F 0%nat); [discriminate |].
  destruct (select_page _ _ _ _ _) as [err | rows] eqn:Hsel; [discriminate |].
  destruct (F 1%nat); [discriminate |]. injection Hrun as <-.
  apply select_page_inr in Hsel as (le & _ & _ & _ & ->).
  assert (Hoff : offset filters = 0).
  { unfold offset. rewrite Hpage. unfold GoInt.mul, GoInt.sub.
    change (GoInt.wrap (1 - 1)) with 0. reflexivity. }
  rewrite Hoff. change (Z.to_nat 0) with 0%nat. rewrite drop_0.
  pose proof (length_ordered_rows (summoner_where LOWER username' region') le (summoners d)).
  rewrite take_ge by (unfold limit; lia).
  rewrite list_elem_of_fmap. split.
  - intros (r & -> & Hin). apply elem_of_ordered_rows in Hin as [Hlook Hwhere].
    unfold summoner_where, matches_filter in Hwhere.
    apply andb_true_iff in Hwhere as [Hu Hr].
    apply orb_true_iff in Hu, Hr. rewrite !String.eqb_eq in Hu, Hr.
    exists r.2. repeat split; assumption.
  - intros (row & Hlook & Hscan & Hu & Hr). exists (ID s, row).
    split; [now injection Hscan as <- |].
    apply elem_of_ordered_rows. split; [exact Hlook |].
    destruct s; cbn in *. injection Hscan as <- <- <- <- <- <-.
    unfold summoner_where, matches_filter. cbn.
    apply andb_true_iff. rewrite !orb_true_iff, !String.eqb_eq. tauto.
Qed.

Lemma summoner_listing_complete_witness :
  let r := run (SummonerModel.GetAll column_of_Sort ascending LOWER_ascii ORDER_BY_id
                  "" "kr" (page 1 10)) no_faults three_summoners in
  fst r = Ret [with_ID (named "Faker" "KR") 1; with_ID (named "Chovy" "kr") 3] /\
  with_ID (named "Chovy" "kr") 3 ∈ [with_ID (named "Faker" "KR") 1; with_ID (named "Chovy" "kr") 3].
Proof.
  intros r.
  assert (Hr : fst r = Ret [with_ID (named "Faker" "KR") 1; with_ID (named "Chovy" "kr") 3])
    by (vm_compute; reflexivity).
  split; [exact Hr |].
  apply (summoner_listing_complete column_of_Sort ascending LOWER_ascii ORDER_BY_id
           "" "kr" (page 1 10) no_faults three_summoners _ eq_refl ltac:(vm_compute; discriminate) Hr).
  exists {| username := "Chovy"; region := "kr"; rating := 0; count_of_played_games := 0;
            win_rate := zero; average_kda := {| Kills := 0; Deaths := 0; Assists := 0 |} |}.
  split; [vm_compute; reflexivity |]. split; [reflexivity |].
  split; [right | left]; reflexivity.
Defined.

Lemma concat_pages {A B} (f : A -> B) (rows : list A) (n k : nat) :
  concat ((fun i => f <$> take n (drop (i * n) rows)) <$> seq 0 k) = f <$> take (k * n) rows.
Proof.
  induction k as [| k IH]; [reflexivity |].
  rewrite seq_S, fmap_app, concat_app, IH. cbn. rewrite app_nil_r.
  rewrite <- fmap_app, take_take_drop. do 2 f_equal. lia.
Qed.

(** X15. Pages tile the listing: with a positive page size [n], an ORDER BY
    term and direction that do not depend on the page, and [k * n] within
    [int], the pages 1 to [k] of size [n] are all returned, and put one
    after the other they are the single page of size [k * n]: no row is
    lost or repeated between pages of an unchanged store. *)
Theorem summoner_pages_tile
    (sortColumn sortDirection : Filters -> option string) (LOWER : string -> string)
    (ORDER_BY : string -> string -> error + (Z * summoners_row -> Z * summoners_row -> bool))
    (username' region' sort : string) (safelist : list string) (column direction : string)
    (n : Z) (k : nat) (F : Faults) (d : DB) (whole : list Summoner) :
  let filters p size :=
    {| Page := p; PageSize := size; Sort := sort; SortSafelist := safelist |} in
  let get_all f :=
    run (SummonerModel.GetAll sortColumn sortDirection LOWER ORDER_BY username' region' f)
        F d in
  (forall p size, sortColumn (filters p size) = Some column) ->
  (forall p size, sortDirection (filters p size) = Some direction) ->
  0 < n -> Z.of_nat k * n <= GoInt.max_int ->
  get_all (filters 1 (Z.of_nat k * n)) = (Ret whole, d) ->
  exists pages,
    length pages = k /\
    (forall i page, pages !! i = Some page ->
       get_all (filters (Z.of_nat i + 1) n) = (Ret page, d)) /\
    concat pages = whole.
Proof.
  intros filters get_all Hcol Hdir Hn Hkn Hwhole. subst get_all filters. cbn beta in *.
  rewrite summoner_listing_run, Hcol, Hdir in Hwhole.
  destruct (F 0%nat) eqn:HF0; [discriminate |].
  destruct (select_page _ _ _ _ _) as [err | rows] eqn:Hsel; [discriminate |].
  destruct (F 1%nat) eqn:HF1; [discriminate |]. injection Hwhole as <-.
  apply select_page_inr in Hsel as (le & Horder & _ & _ & ->).
  set (S := ordered_rows (summoner_where LOWER username' region') le (summoners d)).
  assert (Hoff1 : offset {| Page := 1; PageSize := Z.of_nat k * n; Sort := sort;
                            SortSafelist := safelist |} = 0).
  { unfold offset, GoInt.mul, GoInt.sub. cbn [Page PageSize].
    change (GoInt.wrap (1 - 1)) with 0. reflexivity. }
  rewrite Hoff1. change (Z.to_nat 0) with 0%nat. rewrite drop_0. unfold limit. cbn [PageSize].
  exists ((fun i => summoner_of <$> take (Z.to_nat n) (drop (i * Z.to_nat n) S)) <$> seq 0 k).
  split; [now rewrite length_fmap, length_seq |]. split.
  - intros i page Hi. rewrite list_lookup_fmap in Hi.
    destruct (seq 0 k !! i) as [j |] eqn:Hj; [| discriminate].
    apply lookup_seq in Hj as [-> Hlt]. cbn in Hi. injection Hi as <-.
    rewrite summoner_listing_run, Hcol, Hdir, HF0.
    unfold select_page. rewrite Horder.
    rewrite offset_of_page by (unfold GoInt.max_int in *; nia).
    unfold limit. cbn [PageSize].
    destruct (Z.ltb_spec ((Z.of_nat i + 1 - 1) * n) 0); [nia |].
    destruct (Z.ltb_spec n 0); [lia |].
    rewrite HF1. fold S. do 4 f_equal.
    replace (Z.of_nat i + 1 - 1) with (Z.of_nat i) by lia.
    rewrite Z2Nat.inj_mul by lia. now rewrite Nat2Z.id.
  - rewrite concat_pages. do 2 f_equal.
    rewrite Z2Nat.inj_mul by lia. now rewrite Nat2Z.id.
Qed.

Lemma summoner_pages_tile_witness :
  exists pages,
    length pages = 2%nat /\
    pages !! 0%nat = Some [with_ID (named "Faker" "KR") 1; with_ID (named "Caps" "EUW") 2] /\
    run (SummonerModel.GetAll column_of_Sort ascending LOWER_ascii ORDER_BY_id "" "" (page 2 2))
        no_faults three_summoners
      = (Ret [with_ID (named "Chovy" "kr") 3], three_summoners) /\
    concat pages = [with_ID (named "Faker" "KR") 1; with_ID (named "Caps" "EUW") 2;
                    with_ID (named "Chovy" "kr") 3].
Proof.
  destruct (summoner_pages_tile column_of_Sort ascending LOWER_ascii ORDER_BY_id "" ""
              "id" ["id"] "id" "ASC" 2 2 no_faults three_summoners
              [with_ID (named "Faker" "KR") 1; with_ID (named "Caps" "EUW") 2;
               with_ID (named "Chovy" "kr") 3])
    as (pages & Hlen & Hpages & Hconcat);
    [reflexivity | reflexivity | lia | vm_compute; discriminate | vm_compute; reflexivity |].
  exists pages. split; [exact Hlen |].
  destruct pages as [| p1 [| p2 [| p3 pages]]]; try discriminate Hlen.
  pose proof (Hpages 0%nat p1 eq_refl) as H1. pose proof (Hpages 1%nat p2 eq_refl) as H2.
  vm_compute in H1. injection H1 as <-.
  split; [reflexivity |]. split; [exact H2 || (vm_compute; reflexivity) | exact Hconcat].
Defined.

Lemma StronglySorted_sublist {A} (R : relation A) (l k : list A) :
  l `sublist_of` k -> StronglySorted R k -> StronglySorted R l.
Proof.
  induction 1 as [| x l k Hsub IH | x l k Hsub IH]; intros Hk.
  - constructor.
  - apply StronglySorted_inv in Hk as [Hk Hx]. constructor; [now apply IH |].
    rewrite Forall_forall in Hx |- *. intros y Hy. apply Hx.
    eapply elem_of_sublist; eassumption.
  - apply StronglySorted_inv in Hk as [Hk _]. now apply IH.
Qed.

Lemma StronglySorted_lookup {A} (R : relation A) (l : list A) i j x y :
  StronglySorted R l -> (i < j)%nat -> l !! i = Some x -> l !! j = Some y -> R x y.
Proof.
  intros Hl. revert i j. induction Hl as [| z l Hl IH Hz]; intros i j Hij Hi Hj.
  - discriminate.
  - destruct j as [| j]; [lia |]. cbn in Hj. destruct i as [| i].
    + cbn in Hi. injection Hi as ->. rewrite Forall_forall in Hz. apply Hz.
      eapply list_elem_of_lookup_2; eassumption.
    + cbn in Hi. apply (IH i j); [lia | assumption | assumption].
Qed.

Lemma no_later_total {R} (le : Z * R -> Z * R -> bool) :
  (forall a b, le a b = true \/ le b a = true) ->
  Total (fun a b => Is_true (no_later le a b)).
Proof.
  intros Htot a b. unfold no_later.
  destruct (le a b) eqn:Hab, (le b a) eqn:Hba; cbn; auto.
  - destruct (Z.leb_spec a.1 b.1); [now left |]. right.
    destruct (Z.leb_spec b.1 a.1); [exact I | lia].
  - destruct (Htot a b); congruence.
Qed.

Lemma no_later_transitive {R} (le : Z * R -> Z * R -> bool) :
  (forall a b, le a b = true \/ le b a = true) ->
  (forall a b c, le a b = true -> le b c = true -> le a c = true) ->
  Transitive (fun a b => Is_true (no_later le a b)).
Proof.
  intros Htot Htrans a b c. unfold no_later. intros H1 H2.
  destruct (le a b) eqn:Hab; [| contradiction].
  destruct (le b c) eqn:Hbc; [| contradiction].
  rewrite (Htrans _ _ _ Hab Hbc).
  destruct (le c a) eqn:Hca; [| exact I].
  rewrite (Htrans _ _ _ Hbc Hca) in H1. rewrite (Htrans _ _ _ Hca Hab) in H2.
  apply Is_true_true, Z.leb_le in H1, H2.
  apply Is_true_true, Z.leb_le. lia.
Qed.

(** X16. A listing is in the order of its ORDER BY: when the order the
    server gives the term and direction is total and transitive, of any two
    records [GetAll] returns the earlier one is no later in that order,
    and when the two tie in it the earlier one has the smaller id. *)
Theorem summoner_listing_in_order
    (sortColumn sortDirection : Filters -> option string) (LOWER : string -> string)
    (ORDER_BY : string -> string -> error + (Z * summoners_row -> Z * summoners_row -> bool))
    (username' region' : string) (filters : Filters) (F : Faults) (d : DB)
    (column direction : string) (le : Z * summoners_row -> Z * summoners_row -> bool)
    (l : list Summoner) :
  sortColumn filters = Some column -> sortDirection filters = Some direction ->
  ORDER_BY column direction = inr le ->
  (forall a b, le a b = true \/ le b a = true) ->
  (forall a b c, le a b = true -> le b c = true -> le a c = true) ->
  fst (run (SummonerModel.GetAll sortColumn sortDirection LOWER ORDER_BY
              username' region' filters) F d) = Ret l ->
  forall i j s t, (i < j)%nat -> l !! i = Some s -> l !! j = Some t ->
    le (summoner_row_of s) (summoner_row_of t) = true /\
    (le (summoner_row_of t) (summoner_row_of s) = true -> ID s < ID t).
Proof.
  intros Hcol Hdir Horder Htot Htrans Hrun i j s t Hij Hs Ht.
  rewrite summoner_listing_run, Hcol, Hdir, Horder in Hrun.
  destruct (F 0%nat); [discriminate |].
  destruct (select_page _ _ _ _ _) as [err | rows] eqn:Hsel; [discriminate |].
  destruct (F 1%nat); [discriminate |]. injection Hrun as <-.
  apply select_page_inr in Hsel as (le' & [= <-] & _ & _ & ->).
  set (S := ordered_rows (summoner_where LOWER username' region') le (summoners d)) in *.
  set (rows := take (Z.to_nat (limit filters)) (drop (Z.to_nat (offset filters)) S)) in *.
  assert (Hsub : rows `sublist_of` S)
    by (etransitivity; [apply sublist_take | apply sublist_drop]).
  rewrite list_lookup_fmap in Hs, Ht.
  destruct (rows !! i) as [r |] eqn:Hr; [| discriminate]. injection Hs as <-.
  destruct (rows !! j) as [r' |] eqn:Hr'; [| discriminate]. injection Ht as <-.
  assert (Heta : forall x : Z * summoners_row, summoner_row_of (summoner_of x) = x)
    by (now intros [id []]).
  rewrite !Heta.
  assert (Hsorted : StronglySorted (fun a b => Is_true (no_later le a b)) rows).
  { apply (StronglySorted_sublist _ _ S Hsub). unfold S, ordered_rows.
    apply StronglySorted_merge_sort;
      [now apply no_later_transitive | now apply no_later_total]. }
  pose proof (StronglySorted_lookup _ _ _ _ _ _ Hsorted Hij Hr Hr') as Hle.
  apply Is_true_true in Hle. unfold no_later in Hle.
  destruct (le r r') eqn:H1; [| discriminate]. split; [reflexivity |].
  intros H2. rewrite H2 in Hle. apply Z.leb_le in Hle. cbn [summoner_of ID].
  assert (Hnd : NoDup rows.*1).
  { eapply sublist_NoDup; [apply (NoDup_ordered_rows (summoner_where LOWER username' region')
                                     le (summoners d)) |].
    now apply fmap_sublist. }
  assert (Hne : r.1 <> r'.1).
  { intros Heq. assert (i = j); [| lia].
    eapply NoDup_lookup; [exact Hnd | |]; rewrite list_lookup_fmap.
    - now rewrite Hr.
    - rewrite Hr'. cbn. now rewrite Heq. }
  lia.
Qed.

Lemma summoner_listing_in_order_witness :
  let l := [with_ID (named "Chovy" "kr") 3; with_ID (named "Caps" "EUW") 2;
            with_ID (named "Faker" "KR") 1] in
  fst (run (SummonerModel.GetAll column_of_Sort (fun _ => Some "DESC") LOWER_ascii ORDER_BY_id
              "" "" (page 1 5)) no_faults three_summoners) = Ret l /\
  ID (with_ID (named "Caps" "EUW") 2) <= ID (with_ID (named "Chovy" "kr") 3).
Proof.
  intros l.
  assert (Hl : fst (run (SummonerModel.GetAll column_of_Sort (fun _ => Some "DESC") LOWER_ascii
                           ORDER_BY_id "" "" (page 1 5)) no_faults three_summoners) = Ret l)
    by (vm_compute; reflexivity).
  split; [exact Hl |].
  destruct (summoner_listing_in_order column_of_Sort (fun _ => Some "DESC") LOWER_ascii
              ORDER_BY_id "" "" (page 1 5) no_faults three_summoners "id" "DESC"
              (fun a b => b.1 <=? a.1) l eq_refl eq_refl eq_refl
              ltac:(intros a b; rewrite !Z.leb_le; lia)
              ltac:(intros a b c; rewrite !Z.leb_le; lia) Hl
              0%nat 1%nat _ _ ltac:(lia) eq_refl eq_refl) as [Hle _].
  apply Z.leb_le in Hle. exact Hle.
Defined.

(** ** The handlers *)

Import application.

Lemma valid_check v ok key message : Valid (Check v ok key message) = Valid v && ok.
Proof.
  destruct ok; cbn; [now rewrite andb_true_r |].
  rewrite andb_false_r. apply check_false_invalid.
Qed.

Lemma valid_new : Valid New = true.
Proof. reflexivity. Qed.

Lemma string_neq_false s t : string_neq s t = false <-> s = t.
Proof.
  unfold string_neq. rewrite negb_false_iff. apply String.eqb_eq.
Qed.

Lemma string_neq_true s t : string_neq s t = true <-> s <> t.
Proof.
  unfold string_neq. rewrite negb_true_iff. split.
  - intros H ->. now rewrite String.eqb_refl in H.
  - intros H. destruct (String.eqb_spec s t); [contradiction | reflexivity].
Qed.

Lemma valid_summoner s :
  Valid (ValidateSummoner New s) = string_neq (Username s) "" && string_neq (Region s) "".
Proof. unfold ValidateSummoner. now rewrite !valid_check, valid_new. Qed.

Lemma valid_champion c :
  Valid (ValidateChampion New c)
  = string_neq (Name c) "" && string_neq (MainRole c) "" && string_neq (Name c) "Champion".
Proof. unfold ValidateChampion. now rewrite !valid_check, valid_new. Qed.

Lemma valid_match {Time Team} (m : @MatchModel.Match Time Team) :
  Valid (MatchModel.ValidateMatch New m)
  = string_neq (MatchModel.Result m) "" && (0 <? MatchModel.Duration m)
    && bool_decide (is_Some (MatchModel.BlueTeam m))
    && bool_decide (is_Some (MatchModel.RedTeam m)).
Proof. unfold MatchModel.ValidateMatch. now rewrite !valid_check, valid_new. Qed.

(** X17. The update handlers answer an id that is below 1 or absent
    (when the read is not failed by the driver) with [notFoundResponse] and
    leave the store as it was, whatever the body: they call Get before
    Update, which on its own returns nil for such an id. *)
Theorem update_handlers_not_found (F : Faults) (d : DB) (id : Z) (written : option error) :
  (forall decoded,
     id < 1 \/ (summoners d !! id = None /\ F 0%nat = None) ->
     run (updateSummonerHandler (inr id) decoded written) F d = (Ret [notFoundResponse], d)) /\
  (forall decoded,
     id < 1 \/ (champions d !! id = None /\ F 0%nat = None) ->
     run (updateChampionHandler (inr id) decoded written) F d = (Ret [notFoundResponse], d)) /\
  (forall (Time Team : Type) (to_timestamp : Time -> Z) (of_timestamp : Z -> Time)
          (json_Marshal : option Team -> option string)
          (json_Unmarshal : string -> option Team) decoded,
     id < 1 \/ (matches d !! id = None /\ F 0%nat = None) ->
     run (updateMatchHandler to_timestamp of_timestamp json_Marshal json_Unmarshal
            (inr id) decoded written) F d = (Ret [notFoundResponse], d)).
Proof.
  split; [| split].
  - intros decoded Hid. cbv beta iota zeta delta
    [updateSummonerHandler updateChampionHandler updateMatchHandler catch send
    not_found_or_server_error] in *; crud_cbv.
    destruct (Z.ltb_spec id 1) as [Hlt | Hge]; [reflexivity |].
    destruct Hid as [Hlt | [Habs HF]]; [lia |]. rewrite HF, Habs. reflexivity.
  - intros decoded Hid. cbv beta iota zeta delta
    [updateSummonerHandler updateChampionHandler updateMatchHandler catch send
    not_found_or_server_error] in *; crud_cbv.
    destruct (Z.ltb_spec id 1) as [Hlt | Hge]; [reflexivity |].
    destruct Hid as [Hlt | [Habs HF]]; [lia |]. rewrite HF, Habs. reflexivity.
  - intros Time Team to_timestamp of_timestamp json_Marshal json_Unmarshal decoded Hid.
    cbv beta iota zeta delta
      [updateSummonerHandler updateChampionHandler updateMatchHandler catch send
      not_found_or_server_error] in *; crud_cbv.
    destruct (Z.ltb_spec id 1) as [Hlt | Hge]; [reflexivity |].
    destruct Hid as [Hlt | [Habs HF]]; [lia |]. rewrite HF, Habs. reflexivity.
Qed.

Lemma update_handlers_not_found_witness :
  run (updateSummonerHandler (inr 7)
         (inr {| input_Username := "faker"; input_Region := "kr" |}) None)
      no_faults seeded_store
    = (Ret [notFoundResponse], seeded_store) /\
  run (SummonerModel.Update (with_ID a_summoner 7)) no_faults seeded_store
    = (Ret tt, seeded_store).
Proof.
  destruct (update_handlers_not_found no_faults seeded_store 7 None) as (Hs & _).
  split; [| vm_compute; reflexivity].
  apply Hs. right. split; reflexivity.
Defined.

(** With nothing served in between, the handler is [updateSummonerHandler]. *)
Lemma update_summoner_handler_alone param decoded written F c :
  pending c = None ->
  updateSummonerHandler_meanwhile (ret tt) param decoded written F c
  = updateSummonerHandler param decoded written F c.
Proof.
  intros Hp. destruct c as [d p k]. cbn in Hp. subst p.
  cbv beta iota zeta delta
    [updateSummonerHandler_meanwhile updateSummonerHandler meanwhile catch send
     not_found_or_server_error]; crud_cbv.
  destruct param as [e | id]; [reflexivity |].
  destruct (id <? 1); [reflexivity |].
  destruct (F k); [reflexivity |].
  destruct (summoners d !! id); reflexivity.
Qed.

(** X18. [updateSummonerHandler] is not atomic, and loses a statistics
    update.  It reads the summoner with [Get] and writes all six columns
    back with [Update], each statement committed by itself.  When
    [UpdateSummonerStatistics] for that summoner is served in between and
    commits, then, with a valid body and no failure, the handler answers 200
    and its [Update] puts back the games count, win rate and average KDA it
    had read: the summoner row has the statistics of before the match,
    while the per-champion and per-role rows keep the match the updater
    counted.  With nothing served in between, the run is that of
    [updateSummonerHandler]. *)
Theorem update_summoner_handler_overwrites_statistics
    (id : Z) (input : summoner_input) (written : option error)
    (champion : Champion) (kda : KDA) (role : string) (won : bool)
    (F : Faults) (d : DB) (row : summoners_row) (wins : Z) :
  1 <= id ->
  summoners d !! id = Some row ->
  scan_float8_int (win_rate row) = Some wins ->
  GoInt.add (count_of_played_games row) 1 <> 0 ->
  input_Username input <> "" -> input_Region input <> "" ->
  (forall n, (n < 10)%nat -> F n = None) ->
  let other := UpdateSummonerStatistics id champion kda role won in
  let r := run (updateSummonerHandler_meanwhile other (inr id) (inr input) written) F d in
  let summoner :=
    {| ID := id; Username := input_Username input; Region := input_Region input;
       Rating := rating row; CountOfPlayedGames := count_of_played_games row;
       WinRate := win_rate row; AverageKDA := average_kda row |} in
  (exists d1,
     run other (fun n => F (S n)) d = (Ret tt, d1) /\
     count_of_played_games <$> summoners d1 !! id
       = Some (GoInt.add (count_of_played_games row) 1) /\
     r = (Ret (sent written StatusOK "summoner" (inl summoner) []),
          set_summoners (alter (fun _ => snd (summoner_row_of summoner)) id) d1)) /\
  summoner_statistics <$> summoners (snd r) !! id = Some (summoner_statistics row) /\
  summoner_champion_stats (snd r) !! (id, champion_ID champion)
    = Some (bumped (prior (summoner_champion_stats d) (id, champion_ID champion)) won) /\
  summoner_role_stats (snd r) !! (id, role)
    = Some (bumped (prior (summoner_role_stats d) (id, role)) won) /\
  (forall param decoded F' c,
     pending c = None ->
     updateSummonerHandler_meanwhile (ret tt) param decoded written F' c
     = updateSummonerHandler param decoded written F' c).
Proof.
  intros Hid Hrow Hwins Hgames Hu Hr HF other r summoner. subst other r summoner.
  apply string_neq_true in Hu, Hr.
  split; [| split; [| split; [| split]]].
  5: { intros param decoded F' c. apply update_summoner_handler_alone. }
  1: eexists (snd (run (UpdateSummonerStatistics id champion kda role won)
                       (fun n => F (S n)) d)).
  all: cbv beta iota zeta delta
    [updateSummonerHandler_meanwhile meanwhile catch send not_found_or_server_error] in *;
    crud_cbv; go_cbv.
  all: destruct (Z.ltb_spec id 1); [lia |].
  all: repeat first [rewrite HF by lia | rewrite Hrow | rewrite Hwins
                    | rewrite quo_nonzero by assumption
                    | progress go_cbv
                    | progress cbn -[Valid ValidateSummoner GoInt.quo recompute_win_rate]
                    | match goal with
                      | |- context [match ?m !! ?k with _ => _ end] => destruct (m !! k) eqn:?
                      | |- context [decide ?P] => destruct (decide P); [| done]
                      end ].
  all: rewrite valid_summoner; cbn [Username Region]; rewrite Hu, Hr; cbn [andb negb].
  all: crud_cbv; rewrite HF by lia; destruct written; cbn.
  all: unfold bumped, prior, sent, summoner_row_of, summoner_statistics; cbn.
  all: rewrite ?lookup_alter_eq, ?lookup_insert_eq, ?Hrow.
  all: repeat match goal with H : _ !! _ = _ |- _ => rewrite H end; try reflexivity.
  all: cbn; repeat split; reflexivity.
Qed.

(** On the store after one won match, a lost match served in between is
    counted for the champion and not for the summoner, whose games count
    stays 1. *)
Lemma update_summoner_handler_overwrites_statistics_witness :
  let body := inr {| input_Username := "hide on bush"; input_Region := "kr" |} in
  let other := UpdateSummonerStatistics 1 a_champion a_kda "mid" false in
  let d' := snd (run (updateSummonerHandler_meanwhile other (inr 1) body None)
                     no_faults played_store) in
  summoner_statistics <$> summoners d' !! 1
    = Some (0, 1, one, {| Kills := 10; Deaths := 2; Assists := 3 |}) /\
  summoner_champion_stats d' !! (1, 1)
    = Some (bumped (prior (summoner_champion_stats played_store) (1, 1)) false).
Proof.
  intros body other d'.
  destruct (update_summoner_handler_overwrites_statistics 1
              {| input_Username := "hide on bush"; input_Region := "kr" |} None
              a_champion a_kda "mid" false no_faults played_store
              {| username := "faker"; region := "kr"; rating := 0; count_of_played_games := 1;
                 win_rate := one;
                 average_kda := {| Kills := 10; Deaths := 2; Assists := 3 |} |} 1)
    as (_ & Hstat & Hcs & _);
    [lia | vm_compute; reflexivity | vm_compute; reflexivity
     | vm_compute; intros H; discriminate H | discriminate | discriminate | reflexivity |].
  split; [exact Hstat | exact Hcs].
Defined.

(** X19. [updateMatchHandler] decodes the two teams of the body and never
    uses them: for a match that is there, a valid body and no failure, the
    row gets the duration, result and played date of the body, and its two
    team columns hold the stored teams, decoded and encoded again; the
    response carries the stored teams. *)
Theorem update_match_handler_keeps_teams
    {Time Team : Type} (to_timestamp : Time -> Z) (of_timestamp : Z -> Time)
    (json_Marshal : option Team -> option string) (json_Unmarshal : string -> option Team)
    (id : Z) (input : match_input) (written : option error) (F : Faults) (d : DB)
    (row : matches_row) (blue red : Team) (blueJSON redJSON : string) :
  1 <= id -> matches d !! id = Some row ->
  json_Unmarshal (blue_team row) = Some blue -> json_Marshal (Some blue) = Some blueJSON ->
  json_Unmarshal (red_team row) = Some red -> json_Marshal (Some red) = Some redJSON ->
  input_Result input <> "" -> 0 < input_Duration input ->
  F 0%nat = None -> F 1%nat = None ->
  let r := run (updateMatchHandler to_timestamp of_timestamp json_Marshal json_Unmarshal
                  (inr id) (inr input) written) F d in
  let m := {| MatchModel.match_ID := id;
              MatchModel.PlayedDate := input_PlayedDate input;
              MatchModel.Duration := input_Duration input;
              MatchModel.Result := input_Result input;
              MatchModel.BlueTeam := Some blue; MatchModel.RedTeam := Some red |} in
  (exists rest, fst r = Ret (writeJSON StatusOK "match" (inl m) [] :: rest)) /\
  matches (snd r)
    = <[id := {| duration := input_Duration input; result := input_Result input;
                 played_date := to_timestamp (input_PlayedDate input);
                 blue_team := blueJSON; red_team := redJSON |}]> (matches d).
Proof.
  intros Hid Hrow Hb Hbj Hr Hrj Hres Hdur HF0 HF1 r m. subst r m.
  apply string_neq_true in Hres. apply Z.ltb_lt in Hdur.
  cbv beta iota zeta delta
    [updateMatchHandler catch send not_found_or_server_error] in *; crud_cbv. destruct (Z.ltb_spec
    id 1); [lia |].
  rewrite HF0. cbn -[Valid MatchModel.ValidateMatch].
  rewrite Hrow. cbn -[Valid MatchModel.ValidateMatch].
  rewrite Hb, Hr. cbn -[Valid MatchModel.ValidateMatch].
  rewrite valid_match. cbn -[bool_decide]. rewrite Hres, Hdur.
  rewrite !bool_decide_eq_true_2 by eauto. cbn.
  rewrite Hbj, Hrj. cbn. rewrite HF1. cbn.
  split.
  - destruct written; cbn; eauto.
  - destruct written; cbn; now erewrite alter_present by eassumption.
Qed.

Lemma update_match_handler_keeps_teams_witness :
  let seconds (ms : Z) := ms / 1000 in
  let millis (s : Z) := s * 1000 in
  let encode (t : option string) := t in
  let d := snd (run (MatchModel.Insert seconds encode a_match) no_faults empty_store) in
  let body :=
    {| input_Duration := 2400; input_Result := "red"; input_PlayedDate := 1700000000123;
       input_BlueTeam := "[1]"; input_RedTeam := "[2]" |} in
  matches (snd (run (updateMatchHandler seconds millis encode Some (inr 1) (inr body) None)
                    no_faults d))
  = {[ 1 := {| duration := 2400; result := "red"; played_date := 1700000000;
               blue_team := "{}"; red_team := "[]" |} ]}.
Proof.
  intros seconds millis encode d body.
  destruct (update_match_handler_keeps_teams seconds millis encode Some 1 body None no_faults d
              {| duration := 1800; result := "blue"; played_date := 1700000000;
                 blue_team := "{}"; red_team := "[]" |} "{}" "[]" "{}" "[]")
    as [_ Hrows];
    [lia | vm_compute; reflexivity | reflexivity | reflexivity | reflexivity | reflexivity
     | cbn; discriminate | cbn; lia | reflexivity | reflexivity |].
  rewrite Hrows. vm_compute. reflexivity.
Defined.

(** X20. The create handlers answer with [failedValidationResponse]
    exactly when the body is invalid, and then store nothing: a summoner
    without username or region, a champion without name or main role or
    named "Champion", a match without result or with a duration that is
    not positive.  The teams of a match body are never the reason: the
    handler passes pointers to the decoded teams, which are never nil. *)
Theorem create_handlers_validate (written : option error) (F : Faults) (d : DB) :
  (forall input,
     let r := run (createSummonerHandler (inr input) written) F d in
     ((exists errors, fst r = Ret [failedValidationResponse errors]) <->
        input_Username input = "" \/ input_Region input = "") /\
     (input_Username input = "" \/ input_Region input = "" -> snd r = d)) /\
  (forall count_default input,
     let r := run (createChampionHandler count_default (inr input) written) F d in
     ((exists errors, fst r = Ret [failedValidationResponse errors]) <->
        input_Name input = "" \/ input_MainRole input = "" \/ input_Name input = "Champion") /\
     (input_Name input = "" \/ input_MainRole input = "" \/ input_Name input = "Champion" ->
      snd r = d)) /\
  (forall (Time Team : Type) (to_timestamp : Time -> Z)
          (json_Marshal : option Team -> option string) (input : match_input),
     let r := run (createMatchHandler to_timestamp json_Marshal (inr input) written) F d in
     ((exists errors, fst r = Ret [failedValidationResponse errors]) <->
        input_Result input = "" \/ input_Duration input <= 0) /\
     (input_Result input = "" \/ input_Duration input <= 0 -> snd r = d)).
Proof.
  split; [| split].
  - intros input r. subst r. unfold createSummonerHandler. rewrite valid_summoner. cbn.
    destruct (string_neq (input_Username input) "") eqn:Hu;
      [destruct (string_neq (input_Region input) "") eqn:Hr |]; cbn.
    + apply string_neq_true in Hu, Hr. split; [| tauto].
      split; [| tauto]. intros [errors He]. exfalso. revert He. cbv beta iota zeta delta
        [catch send] in *; crud_cbv.
      destruct (F 0%nat); cbn; [discriminate |].
      destruct (summoners d !! summoners_id_seq d); cbn; [discriminate |].
      destruct written; discriminate.
    + apply string_neq_false in Hr. split; [split; eauto | reflexivity].
    + apply string_neq_false in Hu. split; [split; eauto | reflexivity].
  - intros count_default input r. subst r. unfold createChampionHandler.
    rewrite valid_champion. cbn.
    destruct (string_neq (input_Name input) "") eqn:Hn;
      [destruct (string_neq (input_MainRole input) "") eqn:Hr;
       [destruct (string_neq (input_Name input) "Champion") eqn:Hc |] |]; cbn.
    + apply string_neq_true in Hn, Hr, Hc. split; [| tauto].
      split; [| tauto]. intros [errors He]. exfalso. revert He. cbv beta iota zeta delta
        [catch send] in *; crud_cbv.
      destruct (F 0%nat); cbn; [discriminate |].
      destruct (champions d !! champions_id_seq d); cbn; [discriminate |].
      destruct written; discriminate.
    + apply string_neq_false in Hc. split; [split; eauto | reflexivity].
    + apply string_neq_false in Hr. split; [split; eauto | reflexivity].
    + apply string_neq_false in Hn. split; [split; eauto | reflexivity].
  - intros Time Team to_timestamp json_Marshal input r. subst r. unfold createMatchHandler.
    rewrite valid_match. cbn.
    rewrite ?bool_decide_eq_true_2 by eauto. rewrite ?andb_true_r.
    destruct (string_neq (input_Result input) "") eqn:Hr;
      [destruct (Z.ltb_spec 0 (input_Duration input)) as [Hd | Hd] |]; cbn.
    + apply string_neq_true in Hr. split; [| intros []; [contradiction | lia]].
      split; [| intros []; [contradiction | lia]].
      intros [errors He]. exfalso. revert He. cbv beta iota zeta delta
        [catch send] in *; crud_cbv.
      repeat match goal with
             | |- context [match json_Marshal ?t with _ => _ end] =>
                 destruct (json_Marshal t); [| cbn; discriminate]
             end.
      destruct (F 0%nat); cbn; [discriminate |].
      destruct (matches d !! matches_id_seq d); cbn; [discriminate |].
      destruct written; discriminate.
    + split; [split; eauto | reflexivity].
    + apply string_neq_false in Hr. split; [split; eauto | reflexivity].
Qed.

Lemma create_handlers_validate_witness :
  run (createChampionHandler 0 (inr {| input_Name := "Champion"; input_MainRole := "mid" |})
         None) no_faults empty_store
    = (Ret [failedValidationResponse
              {[ ("name", "must be different from the name of the champion") ]}],
       empty_store) /\
  let body := {| input_Duration := 1800; input_Result := "blue";
                 input_PlayedDate := 1700000000123;
                 input_BlueTeam := ""; input_RedTeam := "" |} in
  ~ exists errors,
      fst (run (createMatchHandler (fun ms => ms / 1000) (fun t : option string => t)
                  (inr body) None) no_faults empty_store)
      = Ret [failedValidationResponse errors].
Proof.
  destruct (create_handlers_validate None no_faults empty_store) as (_ & Hc & Hm).
  split.
  - destruct (Hc 0 {| input_Name := "Champion"; input_MainRole := "mid" |}) as [_ Hsame].
    rewrite (surjective_pairing (run _ no_faults empty_store)).
    rewrite Hsame by (right; right; reflexivity).
    reflexivity.
  - intros body Herr.
    destruct (Hm Z string (fun ms => ms / 1000) (fun t : option string => t) body) as [[Hv _] _].
    destruct (Hv Herr) as [Hr | Hd]; [discriminate Hr | cbn in Hd; lia].
Defined.

(** X21. What the create handler answers is what the show handler answers
    afterwards: for a valid summoner (champion) body, a free id from a
    positive sequence and no failure of the driver, the create handler
    answers 201 with the record and the Location header
    "/v1/summoners/<id>" ("/v1/champions/<id>"), and the show handler for
    that id then answers 200 with the same record. *)
Theorem create_then_show (written written' : option error) (F F' : Faults) (d : DB) :
  F 0%nat = None -> F' 0%nat = None ->
  (forall input,
     input_Username input <> "" -> input_Region input <> "" ->
     1 <= summoners_id_seq d -> summoners d !! summoners_id_seq d = None ->
     let id := summoners_id_seq d in
     let s := {| ID := id; Username := input_Username input; Region := input_Region input;
                 Rating := 0; CountOfPlayedGames := 0; WinRate := zero;
                 AverageKDA := {| Kills := 0; Deaths := 0; Assists := 0 |} |} in
     exists d',
       run (createSummonerHandler (inr input) written) F d
         = (Ret (sent written StatusCreated "summoner" (inl s)
                   [("Location", "/v1/summoners/" +:+ pretty id)]), d') /\
       run (showSummonerHandler (inr id) written') F' d'
         = (Ret (sent written' StatusOK "summoner" (inl s) []), d')) /\
  (forall count_default input,
     input_Name input <> "" -> input_MainRole input <> "" -> input_Name input <> "Champion" ->
     1 <= champions_id_seq d -> champions d !! champions_id_seq d = None ->
     let id := champions_id_seq d in
     let c := {| champion_ID := id; Name := input_Name input; MainRole := input_MainRole input;
                 Popularity := zero; champion_WinRate := zero; BanRate := zero |} in
     exists d',
       run (createChampionHandler count_default (inr input) written) F d
         = (Ret (sent written StatusCreated "champion" (inl c)
                   [("Location", "/v1/champions/" +:+ pretty id)]), d') /\
       run (showChampionHandler (inr id) written') F' d'
         = (Ret (sent written' StatusOK "champion" (inl c) []), d')).
Proof.
  intros HF HF'. split.
  - intros input Hu Hr Hseq Hfree id s. subst id s.
    apply string_neq_true in Hu, Hr.
    unfold createSummonerHandler, showSummonerHandler.
    rewrite valid_summoner. cbn [Username Region]. rewrite Hu, Hr. cbn [andb negb].
    cbv beta iota zeta delta
      [catch send not_found_or_server_error] in *; crud_cbv. rewrite HF. cbn. rewrite Hfree. cbn.
    destruct (Z.ltb_spec (summoners_id_seq d) 1); [lia |].
    rewrite HF'.
    destruct written; cbn; (eexists; split; [reflexivity |]); cbn;
      rewrite lookup_insert_eq; cbn; destruct written'; reflexivity.
  - intros count_default input Hn Hr Hc Hseq Hfree id c. subst id c.
    apply string_neq_true in Hn, Hr, Hc.
    unfold createChampionHandler, showChampionHandler.
    rewrite valid_champion. cbn [Name MainRole]. rewrite Hn, Hr, Hc. cbn [andb negb].
    cbv beta iota zeta delta
      [catch send not_found_or_server_error] in *; crud_cbv. rewrite HF. cbn. rewrite Hfree. cbn.
    destruct (Z.ltb_spec (champions_id_seq d) 1); [lia |].
    rewrite HF'.
    destruct written; cbn; (eexists; split; [reflexivity |]); cbn;
      rewrite lookup_insert_eq; cbn; destruct written'; reflexivity.
Qed.

Lemma create_then_show_witness :
  let input := {| input_Username := "faker"; input_Region := "kr" |} in
  let s := {| ID := 1; Username := "faker"; Region := "kr"; Rating := 0;
              CountOfPlayedGames := 0; WinRate := zero;
              AverageKDA := {| Kills := 0; Deaths := 0; Assists := 0 |} |} in
  exists d',
    run (createSummonerHandler (inr input) None) no_faults empty_store
      = (Ret [writeJSON 201 "summoner" (inl s) [("Location", "/v1/summoners/1")]], d') /\
    run (showSummonerHandler (inr 1) None) no_faults d'
      = (Ret [writeJSON 200 "summoner" (inl s) []], d').
Proof.
  intros input s.
  destruct (create_then_show None None no_faults no_faults empty_store eq_refl eq_refl)
    as [Hs _].
  destruct (Hs input) as (d' & Hcreate & Hshow);
    [discriminate | discriminate | cbn; lia | reflexivity |].
  exists d'. split; [exact Hcreate | exact Hshow].
Defined.

(** X22. [createMatchHandler] records the match and nothing else: under
    every fault plan and for every request the summoners, the champions
    and the three statistics tables are as before, and every match that
    was stored is still stored unchanged.  No statistics updater runs when
    a match is created. *)
Theorem create_match_handler_leaves_statistics
    {Time Team : Type} (to_timestamp : Time -> Z) (json_Marshal : option Team -> option string)
    (decoded : error + match_input) (written : option error) (F : Faults) (d : DB) :
  let d' := snd (run (createMatchHandler to_timestamp json_Marshal decoded written) F d) in
  summoners d' = summoners d /\ champions d' = champions d /\
  summoner_champion_stats d' = summoner_champion_stats d /\
  summoner_role_stats d' = summoner_role_stats d /\
  champion_best_summoners d' = champion_best_summoners d /\
  (forall id row, matches d !! id = Some row -> matches d' !! id = Some row).
Proof.
  intros d'. subst d'. unfold createMatchHandler.
  destruct decoded as [err | input]; [repeat split; trivial |].
  destruct (negb (Valid _)); [repeat split; trivial |].
  cbv beta iota zeta delta [catch send] in *; crud_cbv.
  repeat match goal with
         | |- context [match json_Marshal ?t with _ => _ end] =>
             destruct (json_Marshal t); [| repeat split; trivial]
         end.
  destruct (F 0%nat); cbn; [repeat split; trivial |].
  destruct (matches d !! matches_id_seq d) eqn:Hfree; cbn; [repeat split; trivial |].
  destruct written; cbn; repeat split; trivial.
  all: intros id row Hrow; rewrite lookup_insert_ne; [assumption | congruence].
Qed.

(** X23. The delete handlers tell a missing record from a failure: for a
    row that is there and a positive id, a Delete the driver fails is
    answered with [serverErrorResponse] and leaves the store as it was; a
    Delete that goes through is answered 200 with the message and removes
    the row, after which the show handler and a second delete of that id
    are answered with [notFoundResponse] and change nothing.  For
    summoners, champions and matches. *)
Theorem delete_handlers_answer (id : Z) (written written' : option error) (F F' : Faults)
    (d : DB) :
  1 <= id -> F' 0%nat = None -> F' 1%nat = None ->
  (forall row code,
     summoners d !! id = Some row ->
     (F 0%nat = Some code ->
      run (deleteSummonerHandler (inr id) written) F d
        = (Ret [serverErrorResponse (ErrDriver code)], d)) /\
     (F 0%nat = None -> F 1%nat = None ->
      exists d',
        run (deleteSummonerHandler (inr id) written) F d
          = (Ret (sent written StatusOK "message" (inr "summoner successfully deleted") []),
             d') /\
        summoners d' = delete id (summoners d) /\
        run (showSummonerHandler (inr id) written') F' d' = (Ret [notFoundResponse], d') /\
        run (deleteSummonerHandler (inr id) written') F' d' = (Ret [notFoundResponse], d'))) /\
  (forall row code,
     champions d !! id = Some row ->
     (F 0%nat = Some code ->
      run (deleteChampionHandler (inr id) written) F d
        = (Ret [serverErrorResponse (ErrDriver code)], d)) /\
     (F 0%nat = None -> F 1%nat = None ->
      exists d',
        run (deleteChampionHandler (inr id) written) F d
          = (Ret (sent written StatusOK "message" (inr "Champion successfully deleted") []),
             d') /\
        champions d' = delete id (champions d) /\
        run (showChampionHandler (inr id) written') F' d' = (Ret [notFoundResponse], d') /\
        run (deleteChampionHandler (inr id) written') F' d' = (Ret [notFoundResponse], d'))) /\
  (forall (Time Team : Type) (of_timestamp : Z -> Time)
          (json_Unmarshal : string -> option Team) row code,
     matches d !! id = Some row ->
     (F 0%nat = Some code ->
      run (@deleteMatchHandler Time Team (inr id) written) F d
        = (Ret [serverErrorResponse (ErrDriver code)], d)) /\
     (F 0%nat = None -> F 1%nat = None ->
      exists d',
        run (@deleteMatchHandler Time Team (inr id) written) F d
          = (Ret (sent written StatusOK "message" (inr "match successfully deleted") []),
             d') /\
        matches d' = delete id (matches d) /\
        run (showMatchHandler of_timestamp json_Unmarshal (inr id) written') F' d'
          = (Ret [notFoundResponse], d') /\
        run (@deleteMatchHandler Time Team (inr id) written') F' d'
          = (Ret [notFoundResponse], d'))).
Proof.
  intros Hid HF0' HF1'. split; [| split].
  - intros row code Hrow. split.
    + intros HF0. cbv beta iota zeta delta
      [deleteSummonerHandler deleteChampionHandler deleteMatchHandler showSummonerHandler
      showChampionHandler showMatchHandler catch send not_found_or_server_error] in *; crud_cbv.
      destruct (Z.ltb_spec id 1); [lia |].
      rewrite HF0. reflexivity.
    + intros HF0 HF1. cbv beta iota zeta delta
      [deleteSummonerHandler deleteChampionHandler deleteMatchHandler showSummonerHandler
      showChampionHandler showMatchHandler catch send not_found_or_server_error] in *; crud_cbv.
      destruct (Z.ltb_spec id 1); [lia |].
      rewrite HF0, Hrow. cbn. rewrite HF1. cbn. rewrite HF0'.
      destruct written; cbn; (eexists; split; [reflexivity |]); cbn;
        (split; [reflexivity |]); rewrite lookup_delete_eq; cbn; rewrite HF1'; cbn;
        split; reflexivity.
  - intros row code Hrow. split.
    + intros HF0. cbv beta iota zeta delta
      [deleteSummonerHandler deleteChampionHandler deleteMatchHandler showSummonerHandler
      showChampionHandler showMatchHandler catch send not_found_or_server_error] in *; crud_cbv.
      destruct (Z.ltb_spec id 1); [lia |].
      rewrite HF0. reflexivity.
    + intros HF0 HF1. cbv beta iota zeta delta
      [deleteSummonerHandler deleteChampionHandler deleteMatchHandler showSummonerHandler
      showChampionHandler showMatchHandler catch send not_found_or_server_error] in *; crud_cbv.
      destruct (Z.ltb_spec id 1); [lia |].
      rewrite HF0, Hrow. cbn. rewrite HF1. cbn. rewrite HF0'.
      destruct written; cbn; (eexists; split; [reflexivity |]); cbn;
        (split; [reflexivity |]); rewrite lookup_delete_eq; cbn; rewrite HF1'; cbn;
        split; reflexivity.
  - intros Time Team of_timestamp json_Unmarshal row code Hrow. split.
    + intros HF0. cbv beta iota zeta delta
      [deleteSummonerHandler deleteChampionHandler deleteMatchHandler showSummonerHandler
      showChampionHandler showMatchHandler catch send not_found_or_server_error] in *; crud_cbv.
      destruct (Z.ltb_spec id 1); [lia |].
      rewrite HF0. reflexivity.
    + intros HF0 HF1. cbv beta iota zeta delta
      [deleteSummonerHandler deleteChampionHandler deleteMatchHandler showSummonerHandler
      showChampionHandler showMatchHandler catch send not_found_or_server_error] in *; crud_cbv.
      destruct (Z.ltb_spec id 1); [lia |].
      rewrite HF0, Hrow. cbn. rewrite HF1. cbn. rewrite HF0'.
      destruct written; cbn; (eexists; split; [reflexivity |]); cbn;
        (split; [reflexivity |]); rewrite lookup_delete_eq; cbn; rewrite HF1'; cbn;
        split; reflexivity.
Qed.

Lemma delete_handlers_answer_witness :
  exists d',
    run (deleteSummonerHandler (inr 1) None) no_faults seeded_store
      = (Ret [writeJSON 200 "message" (inr "summoner successfully deleted") []], d') /\
    run (showSummonerHandler (inr 1) None) no_faults d' = (Ret [notFoundResponse], d') /\
  run (deleteSummonerHandler (inr 1) None) (fail_call 0) seeded_store
    = (Ret [serverErrorResponse (ErrDriver 1)], seeded_store).
Proof.
  destruct (delete_handlers_answer 1 None None no_faults no_faults seeded_store)
    as (Hs & _); [lia | reflexivity | reflexivity |].
  destruct (Hs {| username := "faker"; region := "kr"; rating := 0;
                  count_of_played_games := 0; win_rate := zero;
                  average_kda := {| Kills := 0; Deaths := 0; Assists := 0 |} |} 1%N)
    as (_ & Hok); [vm_compute; reflexivity |].
  destruct Hok as (d' & Hdel & _ & Hshow & _); [reflexivity | reflexivity |].
  exists d'. split; [exact Hdel |]. split; [exact Hshow |].
  destruct (delete_handlers_answer 1 None None (fail_call 0) no_faults seeded_store)
    as (Hs' & _); [lia | reflexivity | reflexivity |].
  destruct (Hs' {| username := "faker"; region := "kr"; rating := 0;
                   count_of_played_games := 0; win_rate := zero;
                   average_kda := {| Kills := 0; Deaths := 0; Assists := 0 |} |} 1%N)
    as (Hfail & _); [vm_compute; reflexivity |].
  apply Hfail. reflexivity.
Defined.
